(** * Elemental Deck Defense: combat-resolution core

    A shallow embedding of the combat core of the tower-defense game
    (entities/Enemy, entities/Tower, entities/Projectile,
    systems/ReactionSystem, systems/SynergySystem and the tower,
    projectile and melee passes of Game.update), with the properties of
    its specification stated and proved against it.  Further parts of
    the same code (the movement and slowing of enemies, the repair,
    silence and levels of towers, the spell system, merging, and the
    enemy pass of Game.update) are embedded after them, with properties
    read off the code.

    Numbers.  A TypeScript [number] is an IEEE-754 binary64 value.  The
    quantities that the program only ever builds from integer literals and
    [Math.floor] (hit points, damage, priorities, grid coordinates,
    [Date.now()] milliseconds) are integers and are modelled by [Z]; the
    genuinely fractional ones (positions, distances, multipliers,
    probabilities, frame timestamps) are modelled by the kernel's binary64
    floats, so that rounding is the machine's.  [Z2F] and [Math_floor] are
    the two bridges.

    Objects.  Enemies and towers are mutable objects shared by reference.
    Each kind lives in an arena (a list); a reference is an index into it,
    and a method that mutates an object returns the updated arena.

    Randomness.  [Math.random()] is a sequence of draws consumed in order;
    a function that draws returns the advanced source. *)

From Stdlib Require Import ZArith Floats Bool Lia.
From stdpp Require Import base option list gmap.

Set Default Proof Using "Type".

(* ===================================================================== *)
(** ** JavaScript numbers *)
(* ===================================================================== *)

Module JS.

(** The binary64 value nearest to an integer (exact up to 2^53). *)
Definition Z2F (z : Z) : float :=
  SF2Prim (binary_normalize prec emax z 0 false).

(** [Math.floor] on a finite number.  The modelled code never floors a
    NaN or an infinity; those are sent to 0 here. *)
Definition Math_floor (x : float) : Z :=
  match Prim2SF x with
  | S754_finite s m e => Z.shiftl (if s then Z.neg m else Z.pos m) e
  | _ => 0%Z
  end.

(** Truthiness of a number: [0], [-0] and [NaN] are falsy. *)
Definition truthy (x : float) : bool :=
  negb (PrimFloat.eqb x 0 || PrimFloat.is_nan x).

(** [o || d] where [o] is an optional numeric property. *)
Definition or_default (o : option float) (d : float) : float :=
  match o with
  | Some v => if truthy v then v else d
  | None => d
  end.

(** The same for an integer-valued property. *)
Definition or_defaultZ (o : option Z) (d : Z) : Z :=
  match o with
  | Some v => if (v =? 0)%Z then d else v
  | None => d
  end.

(** [a >= b], [a > b] on numbers, by the primitive comparisons. *)
Definition geb (a b : float) : bool := PrimFloat.leb b a.
Definition gtb (a b : float) : bool := PrimFloat.ltb b a.

End JS.

(* ===================================================================== *)
(** ** types.ts: elements, statuses, reactions, enemy archetypes *)
(* ===================================================================== *)

Record Position := mkPosition { px : float; py : float }.

Inductive ElementType :=
  | physical | fire | ice | lightning | poison | light | arcane.

(** [StatusType = ElementType | 'oil' | 'frozen'] *)
Inductive StatusType :=
  | StElement (e : ElementType)
  | oil
  | frozen.

(** [ResistanceType = 'fire' | 'ice' | 'lightning' | null]: the three
    non-null alternatives. *)
Inductive ResistanceType := res_fire | res_ice | res_lightning.

Definition resistanceElement (r : ResistanceType) : ElementType :=
  match r with
  | res_fire => fire
  | res_ice => ice
  | res_lightning => lightning
  end.

Inductive ReactionType := melt | freeze | explosion.

Inductive EnemyType := normal | tank | breaker | ghost | boss.

#[global] Instance ElementType_eq_dec : EqDecision ElementType.
Proof. solve_decision. Defined.
#[global] Instance StatusType_eq_dec : EqDecision StatusType.
Proof. solve_decision. Defined.
#[global] Instance ReactionType_eq_dec : EqDecision ReactionType.
Proof. solve_decision. Defined.
#[global] Instance EnemyType_eq_dec : EqDecision EnemyType.
Proof. solve_decision. Defined.

(** [===] on two string-typed tags. *)
Definition tag_eqb {A} `{EqDecision A} (a b : A) : bool := bool_decide (a = b).

Record ReactionConfig := mkReactionConfig {
  trigger : StatusType * ElementType;
  damageMultiplier : option float;
  freezeDuration : option Z;
  explosionRadius : option float;
}.

Definition REACTION_CONFIGS (t : ReactionType) : ReactionConfig :=
  match t with
  | melt =>
      {| trigger := (StElement ice, fire);
         damageMultiplier := Some 3.0%float;
         freezeDuration := None;
         explosionRadius := None |}
  | freeze =>
      {| trigger := (StElement ice, lightning);
         damageMultiplier := None;
         freezeDuration := Some 2000%Z;
         explosionRadius := None |}
  | explosion =>
      {| trigger := (oil, fire);
         damageMultiplier := Some 1.5%float;
         freezeDuration := None;
         explosionRadius := Some 80%float |}
  end.

(** [Object.entries(REACTION_CONFIGS)], in insertion order. *)
Definition REACTION_ENTRIES : list (ReactionType * ReactionConfig) :=
  (fun t => (t, REACTION_CONFIGS t)) <$> [melt; freeze; explosion].

Record EnemyTypeConfig := mkEnemyTypeConfig {
  tc_baseHealth : Z;
  tc_size : float;
  tc_attackDamage : Z;
  tc_attackCooldown : float;
  tc_evasionChance : float;
  tc_priority : Z;
  tc_ignoresPath : bool;
  tc_targetsNearestTower : bool;
  tc_isBoss : bool;
  tc_ccImmunity : option float;
}.

Definition ENEMY_TYPE_CONFIGS (t : EnemyType) : EnemyTypeConfig :=
  match t with
  | normal =>
      mkEnemyTypeConfig 80 24 5 2000 0 1 false false false None
  | tank =>
      mkEnemyTypeConfig 250 32 15 3000 0 3 false false false None
  | breaker =>
      mkEnemyTypeConfig 40 22 80 500 0 2 false true false None
  | ghost =>
      mkEnemyTypeConfig 60 26 8 2500 0.5 1 true false false None
  | boss =>
      mkEnemyTypeConfig 2000 60 30 4000 0 5 false false true
        (Some 0x1.999999999999ap-1%float)   (* the literal 0.8 *)
  end.

Module GAME_CONFIG.
Definition CANVAS_WIDTH : float := 600.
Definition CANVAS_HEIGHT : float := 600.
Definition GRID_SIZE : float := 40.
Definition GRID_COLS : Z := 15.
Definition GRID_ROWS : Z := 15.
End GAME_CONFIG.

(* ===================================================================== *)
(** ** entities/Enemy.ts *)
(* ===================================================================== *)

Module Enemy.

(** The fields the combat core reads or writes.  Movement-only state
    (path, speed, slow timers), the breaker's tower target and the boss
    skill timer are left out: no modelled method touches them. *)
Record t := mk {
  position : Position;
  health : Z;
  maxHealth : Z;
  size : float;
  isAlive : bool;
  enemyType : EnemyType;
  resistance : option ResistanceType;
  status : option StatusType;
  statusDuration : Z;
  isFrozen : bool;
  freezeEndTime : Z;
  attackDamage : Z;
  lastAttackTime : float;
  attackCooldown : float;
  evasionChance : float;
  priority : Z;
  ccImmunity : float;
}.

Definition set_health (v : Z) (e : t) : t :=
  mk (position e) v (maxHealth e) (size e) (isAlive e) (enemyType e)
     (resistance e) (status e) (statusDuration e) (isFrozen e)
     (freezeEndTime e) (attackDamage e) (lastAttackTime e)
     (attackCooldown e) (evasionChance e) (priority e) (ccImmunity e).

Definition set_isAlive (v : bool) (e : t) : t :=
  mk (position e) (health e) (maxHealth e) (size e) v (enemyType e)
     (resistance e) (status e) (statusDuration e) (isFrozen e)
     (freezeEndTime e) (attackDamage e) (lastAttackTime e)
     (attackCooldown e) (evasionChance e) (priority e) (ccImmunity e).

Definition set_status (v : option StatusType) (e : t) : t :=
  mk (position e) (health e) (maxHealth e) (size e) (isAlive e)
     (enemyType e) (resistance e) v (statusDuration e) (isFrozen e)
     (freezeEndTime e) (attackDamage e) (lastAttackTime e)
     (attackCooldown e) (evasionChance e) (priority e) (ccImmunity e).

Definition set_statusDuration (v : Z) (e : t) : t :=
  mk (position e) (health e) (maxHealth e) (size e) (isAlive e)
     (enemyType e) (resistance e) (status e) v (isFrozen e)
     (freezeEndTime e) (attackDamage e) (lastAttackTime e)
     (attackCooldown e) (evasionChance e) (priority e) (ccImmunity e).

Definition set_isFrozen (v : bool) (e : t) : t :=
  mk (position e) (health e) (maxHealth e) (size e) (isAlive e)
     (enemyType e) (resistance e) (status e) (statusDuration e) v
     (freezeEndTime e) (attackDamage e) (lastAttackTime e)
     (attackCooldown e) (evasionChance e) (priority e) (ccImmunity e).

Definition set_freezeEndTime (v : Z) (e : t) : t :=
  mk (position e) (health e) (maxHealth e) (size e) (isAlive e)
     (enemyType e) (resistance e) (status e) (statusDuration e)
     (isFrozen e) v (attackDamage e) (lastAttackTime e)
     (attackCooldown e) (evasionChance e) (priority e) (ccImmunity e).

Definition set_lastAttackTime (v : float) (e : t) : t :=
  mk (position e) (health e) (maxHealth e) (size e) (isAlive e)
     (enemyType e) (resistance e) (status e) (statusDuration e)
     (isFrozen e) (freezeEndTime e) (attackDamage e) v
     (attackCooldown e) (evasionChance e) (priority e) (ccImmunity e).

Definition typeConfig (e : t) : EnemyTypeConfig :=
  ENEMY_TYPE_CONFIGS (enemyType e).

(** The constructor, on the path without a legacy [config]:
    statistics come from the archetype table, scaled by the wave. *)
Definition new (start : Position) (enemyType : EnemyType)
    (waveNumber : Z) (resistance : option ResistanceType) : t :=
  let tc := ENEMY_TYPE_CONFIGS enemyType in
  let waveMultiplier := (1 + (JS.Z2F waveNumber - 1) * 0.25)%float in
  let health :=
    JS.Math_floor (JS.Z2F (tc_baseHealth tc) * waveMultiplier) in
  {| position := start;
     health := health;
     maxHealth := health;
     size := tc_size tc;
     isAlive := true;
     enemyType := enemyType;
     resistance := resistance;
     status := None;
     statusDuration := 0;
     isFrozen := false;
     freezeEndTime := 0;
     attackDamage :=
       JS.Math_floor (JS.Z2F (tc_attackDamage tc) * waveMultiplier);
     lastAttackTime := 0;
     attackCooldown := tc_attackCooldown tc;
     evasionChance := tc_evasionChance tc;
     priority := tc_priority tc;
     ccImmunity := JS.or_default (tc_ccImmunity tc) 0 |}.

Definition isBoss (e : t) : bool := tc_isBoss (typeConfig e).

(** [tryEvade]: [Math.random() < this.evasionChance], the draw being
    passed in. *)
Definition tryEvade (roll : float) (e : t) : bool :=
  PrimFloat.ltb roll (evasionChance e).

Definition canAttackTower (currentTime : float) (e : t) : bool :=
  JS.geb (currentTime - lastAttackTime e)%float (attackCooldown e).

(** [attackTower]: stamps the attack time; a breaker destroys itself.
    Returns the damage to deal. *)
Definition attackTower (currentTime : float) (e : t) : t * Z :=
  let e1 := set_lastAttackTime currentTime e in
  let e2 :=
    if tag_eqb (enemyType e1) breaker
    then set_health 0 (set_isAlive false e1)
    else e1 in
  (e2, attackDamage e2).

Definition applyStatus (s : StatusType) (e : t) : t :=
  set_statusDuration 3000 (set_status (Some s) e).

Definition clearStatus (e : t) : t :=
  set_statusDuration 0 (set_status None e).

(** [freeze]: the duration is cut by the crowd-control immunity; an
    effect shorter than 200 ms is dropped.  [now] is [Date.now()]. *)
Definition freeze (now : Z) (duration : Z) (e : t) : t :=
  let actualDuration :=
    JS.Math_floor (JS.Z2F duration * (1 - ccImmunity e))%float in
  if (actualDuration <? 200)%Z then e
  else
    set_status (Some frozen)
      (set_freezeEndTime (now + actualDuration)
         (set_isFrozen true e)).

(** [this.health -= damage; if (this.health <= 0) { this.health = 0;
    this.isAlive = false; }], the block shared by the three branches of
    [takeDamage]. *)
Definition loseHealth (damage : Z) (e : t) : t :=
  let e1 := set_health (health e - damage) e in
  if (health e1 <=? 0)%Z then set_isAlive false (set_health 0 e1)
  else e1.

(** [takeDamage(damage, attackElement?)]: returns the damage dealt. *)
Definition takeDamage (damage : Z) (attackElement : option ElementType)
    (e : t) : t * Z :=
  if tag_eqb attackElement (Some physical) then
    (loseHealth damage e, damage)
  else
    match resistance e with
    | Some r =>
        if tag_eqb attackElement (Some (resistanceElement r)) then
          let reducedDamage := 1%Z in
          (loseHealth reducedDamage e, reducedDamage)
        else (loseHealth damage e, damage)
    | None => (loseHealth damage e, damage)
    end.

Definition isResistantTo (element : ElementType) (e : t) : bool :=
  if tag_eqb element physical then false
  else tag_eqb (resistanceElement <$> resistance e) (Some element).

Definition getCenter (e : t) : Position :=
  mkPosition (px (position e)) (py (position e)).

End Enemy.

(** The enemies of a game are objects shared by reference between the
    game's list, the towers' targets and the projectiles.  They live in an
    arena; a reference is an index into it. *)
Abbreviation EnemyRef := nat (only parsing).
Abbreviation EnemyHeap := (list Enemy.t) (only parsing).

(** Euclidean distance, as the program computes it everywhere:
    [Math.sqrt(dx * dx + dy * dy)] with [dx = a.x - b.x]. *)
Definition distance (a b : Position) : float :=
  let dx := (px a - px b)%float in
  let dy := (py a - py b)%float in
  PrimFloat.sqrt (dx * dx + dy * dy)%float.

(* ===================================================================== *)
(** ** types.ts: synergies *)
(* ===================================================================== *)

Inductive SynergyType := fire_ice | ice_lightning | lightning_fire.

Record SynergyEffect := mkSynergyEffect {
  synergyType : SynergyType;   (* stands for the [name] and [icon] strings *)
  sourceElement : ElementType;
  requiredElement : ElementType;
  syn_damageMultiplier : float;
}.

Definition SYNERGY_CONFIGS (k : SynergyType) : SynergyEffect :=
  match k with
  | fire_ice => mkSynergyEffect fire_ice fire ice 2.0
  | ice_lightning => mkSynergyEffect ice_lightning ice lightning 1.5
  | lightning_fire => mkSynergyEffect lightning_fire lightning fire 1.5
  end.

(** [Object.values(SYNERGY_CONFIGS)] *)
Definition SYNERGY_VALUES : list SynergyEffect :=
  SYNERGY_CONFIGS <$> [fire_ice; ice_lightning; lightning_fire].

(* ===================================================================== *)
(** ** entities/Projectile.ts *)
(* ===================================================================== *)

(** [Math.random()]: the draws of a run, consumed in order. *)
Record Rng := mkRng { draws : nat -> float; cursor : nat }.

Definition random (g : Rng) : float * Rng :=
  (draws g (cursor g), mkRng (draws g) (S (cursor g))).

Record HitResult := mkHitResult {
  hit_damage : Z;
  hit_isCritical : bool;
  hit_position : Position;
  hit_element : ElementType;
  hit_target : EnemyRef;
}.

Module Projectile.

(** Colour and trail are drawing state and are left out. *)
Record t := mk {
  position : Position;
  speed : float;
  size : float;
  damage : Z;
  isActive : bool;
  element : ElementType;
  target : EnemyRef;
  velocity : Position;
}.

Definition criticalChance : float := 0x1.999999999999ap-4. (* 0.1 *)
Definition criticalMultiplier : float := 2.0.

Definition set_position (v : Position) (p : t) : t :=
  mk v (speed p) (size p) (damage p) (isActive p) (element p) (target p)
     (velocity p).
Definition set_isActive (v : bool) (p : t) : t :=
  mk (position p) (speed p) (size p) (damage p) v (element p) (target p)
     (velocity p).
Definition set_velocity (v : Position) (p : t) : t :=
  mk (position p) (speed p) (size p) (damage p) (isActive p) (element p)
     (target p) v.

(** [updateVelocity]: aim at the target's centre while it lives. *)
Definition updateVelocity (tgt : Enemy.t) (p : t) : t :=
  if negb (Enemy.isAlive tgt) then p
  else
    let targetPos := Enemy.getCenter tgt in
    let dx := (px targetPos - px (position p))%float in
    let dy := (py targetPos - py (position p))%float in
    let d := PrimFloat.sqrt (dx * dx + dy * dy)%float in
    if JS.gtb d 0 then
      set_velocity
        (mkPosition (dx / d * speed p)%float (dy / d * speed p)%float) p
    else p.

Definition isOutOfBounds (p : t) : bool :=
  let x := px (position p) in
  let y := py (position p) in
  PrimFloat.ltb x (-50)
  || JS.gtb x (GAME_CONFIG.CANVAS_WIDTH + 50)%float
  || PrimFloat.ltb y (-50)
  || JS.gtb y (GAME_CONFIG.CANVAS_HEIGHT + 50)%float.

(** Circular overlap: projectile radius plus half the target's size. *)
Definition checkCollision (tgt : Enemy.t) (p : t) : bool :=
  let targetPos := Enemy.getCenter tgt in
  let dx := (px targetPos - px (position p))%float in
  let dy := (py targetPos - py (position p))%float in
  let d := PrimFloat.sqrt (dx * dx + dy * dy)%float in
  let collisionDistance := (size p + Enemy.size tgt / 2)%float in
  PrimFloat.ltb d collisionDistance.

(** [update]: one tick of flight.  The critical-hit draw is made only
    once a collision has been detected.  The projectile does not touch
    the enemy: the hit is handed back to the caller. *)
Definition update (tgt : Enemy.t) (g : Rng) (p : t)
    : t * option HitResult * Rng :=
  if negb (isActive p) then (p, None, g)
  else
    let p1 := if Enemy.isAlive tgt then updateVelocity tgt p else p in
    let p2 :=
      set_position
        (mkPosition (px (position p1) + px (velocity p1))%float
                    (py (position p1) + py (velocity p1))%float) p1 in
    if isOutOfBounds p2 then (set_isActive false p2, None, g)
    else if Enemy.isAlive tgt && checkCollision tgt p2 then
      let '(r, g1) := random g in
      let isCritical := PrimFloat.ltb r criticalChance in
      let finalDamage :=
        if isCritical
        then JS.Math_floor (JS.Z2F (damage p2) * criticalMultiplier)
        else damage p2 in
      (set_isActive false p2,
       Some (mkHitResult finalDamage isCritical (position p2)
               (element p2) (target p2)),
       g1)
    else (p2, None, g).

(** The constructor: at rest until [updateVelocity] has run once. *)
Definition new (start : Position) (target : EnemyRef) (tgt : Enemy.t)
    (element : ElementType) (speed size : float) (damage : Z) : t :=
  updateVelocity tgt
    (mk start speed size damage true element target (mkPosition 0 0)).

End Projectile.

(* ===================================================================== *)
(** ** entities/Tower.ts *)
(* ===================================================================== *)

Module Tower.

(** The squash-and-stretch animation state is drawing state and is left
    out; [triggerFireAnimation] and [triggerDamageAnimation] only write
    it. *)
Record t := mk {
  position : Position;
  element : ElementType;
  range : float;
  fireRate : float;
  baseDamage : Z;
  size : float;
  gridRow : Z;
  gridCol : Z;
  hp : Z;
  maxHp : Z;
  isAlive : bool;
  isSilenced : bool;
  silenceEndTime : float;
  activeSynergies : list SynergyEffect;
  synergyDamageMultiplier : float;
  lastFireTime : float;
  currentTarget : option EnemyRef;
}.

Definition set_hp (v : Z) (w : t) : t :=
  mk (position w) (element w) (range w) (fireRate w) (baseDamage w)
     (size w) (gridRow w) (gridCol w) v (maxHp w) (isAlive w)
     (isSilenced w) (silenceEndTime w) (activeSynergies w)
     (synergyDamageMultiplier w) (lastFireTime w) (currentTarget w).

Definition set_isAlive (v : bool) (w : t) : t :=
  mk (position w) (element w) (range w) (fireRate w) (baseDamage w)
     (size w) (gridRow w) (gridCol w) (hp w) (maxHp w) v
     (isSilenced w) (silenceEndTime w) (activeSynergies w)
     (synergyDamageMultiplier w) (lastFireTime w) (currentTarget w).

Definition set_isSilenced (v : bool) (w : t) : t :=
  mk (position w) (element w) (range w) (fireRate w) (baseDamage w)
     (size w) (gridRow w) (gridCol w) (hp w) (maxHp w) (isAlive w)
     v (silenceEndTime w) (activeSynergies w)
     (synergyDamageMultiplier w) (lastFireTime w) (currentTarget w).

Definition set_synergies (l : list SynergyEffect) (m : float) (w : t) : t :=
  mk (position w) (element w) (range w) (fireRate w) (baseDamage w)
     (size w) (gridRow w) (gridCol w) (hp w) (maxHp w) (isAlive w)
     (isSilenced w) (silenceEndTime w) l m (lastFireTime w)
     (currentTarget w).

Definition set_lastFireTime (v : float) (w : t) : t :=
  mk (position w) (element w) (range w) (fireRate w) (baseDamage w)
     (size w) (gridRow w) (gridCol w) (hp w) (maxHp w) (isAlive w)
     (isSilenced w) (silenceEndTime w) (activeSynergies w)
     (synergyDamageMultiplier w) v (currentTarget w).

Definition set_currentTarget (v : option EnemyRef) (w : t) : t :=
  mk (position w) (element w) (range w) (fireRate w) (baseDamage w)
     (size w) (gridRow w) (gridCol w) (hp w) (maxHp w) (isAlive w)
     (isSilenced w) (silenceEndTime w) (activeSynergies w)
     (synergyDamageMultiplier w) (lastFireTime w) v.

(** [getTowerConfigByElement(element, 1)] and the constructor at level 1
    (the level every placed tower starts at). *)
Definition ELEMENT_BASE_DAMAGE (el : ElementType) : Z :=
  match el with physical => 40 | _ => 28 end.

Definition new (gridRow gridCol : Z) (centerPosition : Position)
    (element : ElementType) : t :=
  {| position := centerPosition;
     element := element;
     range := 120;
     fireRate := 1000;
     baseDamage := ELEMENT_BASE_DAMAGE element;
     size := 30;
     gridRow := gridRow;
     gridCol := gridCol;
     hp := 100;
     maxHp := 100;
     isAlive := true;
     isSilenced := false;
     silenceEndTime := 0;
     activeSynergies := [];
     synergyDamageMultiplier := 1.0;
     lastFireTime := 0;
     currentTarget := None |}.

(** [takeDamage]: returns whether the tower was destroyed. *)
Definition takeDamage (damage : Z) (w : t) : t * bool :=
  if negb (isAlive w) then (w, false)
  else
    let w1 := set_hp (hp w - damage) w in
    if (hp w1 <=? 0)%Z then (set_isAlive false (set_hp 0 w1), true)
    else (w1, false).

Definition getEffectiveDamage (w : t) : Z :=
  JS.Math_floor (JS.Z2F (baseDamage w) * synergyDamageMultiplier w).

(** [setSynergies]: the multiplier is the product of the synergies'. *)
Definition setSynergies (synergies : list SynergyEffect) (w : t) : t :=
  set_synergies synergies
    (fold_left (fun multiplier s =>
                  (multiplier * syn_damageMultiplier s)%float)
               synergies 1.0%float)
    w.

Definition getDistanceTo (e : Enemy.t) (w : t) : float :=
  distance (Enemy.getCenter e) (position w).

Definition isInRange (e : Enemy.t) (w : t) : bool :=
  PrimFloat.leb (getDistanceTo e w) (range w).

(** The state of the search loop of [findTarget]. *)
Record Search := mkSearch {
  found : option EnemyRef;
  bestPriority : Z;
  closestDistance : float;
}.

(** The body of the loop, for one element of [enemies]. *)
Definition findTarget_step (heap : EnemyHeap) (w : t)
    (s : Search) (r : EnemyRef) : Search :=
  match heap !! r with
  | None => s
  | Some enemy =>
      if negb (Enemy.isAlive enemy) then s
      else
        let d := getDistanceTo enemy w in
        if JS.gtb d (range w) then s
        else
          let priority := Enemy.priority enemy in
          if (priority >? bestPriority s)%Z
             || ((priority =? bestPriority s)%Z
                 && PrimFloat.ltb d (closestDistance s))
          then mkSearch (Some r) priority d
          else s
  end.

(** Whether the cached target is still usable: present, alive and in
    range. *)
Definition targetValid (heap : EnemyHeap) (w : t) : bool :=
  match currentTarget w with
  | None => false
  | Some r =>
      match heap !! r with
      | None => false
      | Some enemy => Enemy.isAlive enemy && isInRange enemy w
      end
  end.

(** [findTarget(enemies)] *)
Definition findTarget (heap : EnemyHeap) (enemies : list EnemyRef)
    (w : t) : t :=
  if targetValid heap w then w
  else
    let s :=
      fold_left (findTarget_step heap w) enemies
        (mkSearch None 0 infinity) in
    set_currentTarget (found s) w.

(** [tryFire(currentTime)]: the projectile fired, if any. *)
Definition tryFire (heap : EnemyHeap) (currentTime : float) (w : t)
    : t * option Projectile.t :=
  if isSilenced w && negb (JS.geb currentTime (silenceEndTime w))
  then (w, None)
  else
    let w1 := if isSilenced w then set_isSilenced false w else w in
    match currentTarget w1 with
    | None => (w1, None)
    | Some r =>
        match heap !! r with
        | None => (w1, None)
        | Some enemy =>
            if negb (Enemy.isAlive enemy) then (w1, None)
            else if PrimFloat.ltb (currentTime - lastFireTime w1)
                      (fireRate w1)
            then (w1, None)
            else if negb (isInRange enemy w1)
            then (set_currentTarget None w1, None)
            else
              let w2 := set_lastFireTime currentTime w1 in
              let hasActiveSynergy :=
                negb (length (activeSynergies w2) =? 0)%nat in
              let projectileSize :=
                if hasActiveSynergy then 8%float else 6%float in
              (w2,
               Some (Projectile.new (position w2) r enemy (element w2)
                       8%float projectileSize (getEffectiveDamage w2)))
        end
    end.

End Tower.

Abbreviation TowerRef := nat (only parsing).
Abbreviation TowerHeap := (list Tower.t) (only parsing).

(* ===================================================================== *)
(** ** systems/ReactionSystem.ts *)
(* ===================================================================== *)

Record ReactionResult := mkReactionResult {
  rr_type : ReactionType;
  rr_config : ReactionConfig;
  rr_position : Position;
  rr_damage : Z;
  rr_affectedEnemies : list EnemyRef;
}.

Module ReactionSystem.

(** The body of the explosion loop for one element of [allEnemies]:
    a living enemy within [radius] of the epicentre takes the reaction
    damage scaled by [1 - (distance / radius) * 0.5], is recorded once
    among the affected, and loses an oil status. *)
Definition explosion_step (position : Position) (totalDamage : Z)
    (radius : float) (acc : EnemyHeap * list EnemyRef) (r : EnemyRef)
    : EnemyHeap * list EnemyRef :=
  let '(heap, affectedEnemies) := acc in
  match heap !! r with
  | None => acc
  | Some otherEnemy =>
      if negb (Enemy.isAlive otherEnemy) then acc
      else
        let d := distance (Enemy.getCenter otherEnemy) position in
        if PrimFloat.leb d radius then
          let damageRatio := (1 - d / radius * 0.5)%float in
          let explosionDamage :=
            JS.Math_floor (JS.Z2F totalDamage * damageRatio) in
          let other1 :=
            fst (Enemy.takeDamage explosionDamage None otherEnemy) in
          let affected1 :=
            if bool_decide (r ∈ affectedEnemies) then affectedEnemies
            else affectedEnemies ++ [r] in
          let other2 :=
            if tag_eqb (Enemy.status other1) (Some oil)
            then Enemy.clearStatus other1 else other1 in
          (<[r := other2]> heap, affected1)
        else acc
  end.

(** [executeReaction].  [now] is the clock read by [Enemy.freeze]. *)
Definition executeReaction (now : Z) (type : ReactionType)
    (config : ReactionConfig) (enemy : EnemyRef) (baseDamage : Z)
    (allEnemies : list EnemyRef) (heap : EnemyHeap)
    : EnemyHeap * option ReactionResult :=
  match heap !! enemy with
  | None => (heap, None)
  | Some e0 =>
      let position := Enemy.getCenter e0 in
      match type with
      | melt =>
          let totalDamage :=
            JS.Math_floor
              (JS.Z2F baseDamage
               * JS.or_default (damageMultiplier config) 3) in
          let heap1 :=
            alter (fun e => fst (Enemy.takeDamage totalDamage None e))
              enemy heap in
          let heap2 := alter Enemy.clearStatus enemy heap1 in
          (heap2,
           Some (mkReactionResult type config position totalDamage
                   [enemy]))
      | freeze =>
          let heap1 :=
            alter (Enemy.freeze now
                     (JS.or_defaultZ (freezeDuration config) 2000))
              enemy heap in
          let heap2 := alter Enemy.clearStatus enemy heap1 in
          (heap2,
           Some (mkReactionResult type config position baseDamage
                   [enemy]))
      | explosion =>
          let totalDamage :=
            JS.Math_floor
              (JS.Z2F baseDamage
               * JS.or_default (damageMultiplier config) 1.5) in
          let radius := JS.or_default (explosionRadius config) 80 in
          let '(heap1, affectedEnemies) :=
            fold_left (explosion_step position totalDamage radius)
              allEnemies (heap, [enemy]) in
          let heap2 := alter Enemy.clearStatus enemy heap1 in
          (heap2,
           Some (mkReactionResult type config position totalDamage
                   affectedEnemies))
      end
  end.

(** The first entry of the reaction table triggered by the pair
    (current status, attack element). *)
Definition findReaction (currentStatus : StatusType)
    (attackElement : ElementType)
    : option (ReactionType * ReactionConfig) :=
  find (fun '(_, config) =>
          tag_eqb currentStatus (fst (trigger config))
          && tag_eqb attackElement (snd (trigger config)))
       REACTION_ENTRIES.

(** [checkAndTriggerReaction]: the reaction, or [None] once the attack
    element has been written as the enemy's status. *)
Definition checkAndTriggerReaction (now : Z) (enemy : EnemyRef)
    (attackElement : ElementType) (baseDamage : Z)
    (allEnemies : list EnemyRef) (heap : EnemyHeap)
    : EnemyHeap * option ReactionResult :=
  match heap !! enemy with
  | None => (heap, None)
  | Some e =>
      match Enemy.status e with
      | None =>
          (alter (Enemy.applyStatus (StElement attackElement)) enemy heap,
           None)
      | Some currentStatus =>
          match findReaction currentStatus attackElement with
          | Some (reactionType, config) =>
              executeReaction now reactionType config enemy baseDamage
                allEnemies heap
          | None =>
              (alter (Enemy.applyStatus (StElement attackElement))
                 enemy heap,
               None)
          end
      end
  end.

End ReactionSystem.

(* ===================================================================== *)
(** ** systems/SynergySystem.ts *)
(* ===================================================================== *)

(** Methods of the synergy system run against the towers of the game,
    which they may read and write: a state monad over the tower arena. *)
Definition TowerM (A : Type) : Type := list Tower.t -> A * list Tower.t.

#[global] Instance TowerM_ret : MRet TowerM := fun _ a h => (a, h).
#[global] Instance TowerM_bind : MBind TowerM :=
  fun _ _ k m h => let '(a, h1) := m h in k a h1.

(** Reading from, and writing to, one tower of the arena. *)
Definition readTowers {A} (f : list Tower.t -> A) : TowerM A :=
  fun h => (f h, h).
Definition writeTower (r : TowerRef) (f : Tower.t -> Tower.t) : TowerM unit :=
  fun h => (tt, alter f r h).

(** [for (const x of xs) body(x)] *)
Fixpoint forEach {A} (xs : list A) (body : A -> TowerM unit) : TowerM unit :=
  match xs with
  | [] => mret tt
  | x :: xs' => body x ≫= fun _ => forEach xs' body
  end.

(** What the system reads of a tower: its cell and its element.  The
    preview's stand-in tower has nothing else. *)
Record GridTower := mkGridTower {
  gt_gridRow : Z;
  gt_gridCol : Z;
  gt_element : ElementType;
}.

Definition asGridTower (w : Tower.t) : GridTower :=
  mkGridTower (Tower.gridRow w) (Tower.gridCol w) (Tower.element w).

(** A [Map] keyed by the string [`${row},${col}`], which determines and is
    determined by the pair of integers. *)
Abbreviation TowerMap := (gmap (Z * Z) GridTower) (only parsing).

Module SynergySystem.

Definition createTowerMap_pure (towers : list TowerRef)
    (h : list Tower.t) : TowerMap :=
  fold_left
    (fun (m : TowerMap) r =>
       match h !! r with
       | Some tower =>
           <[(Tower.gridRow tower, Tower.gridCol tower)
             := asGridTower tower]> m
       | None => m
       end)
    towers ∅.

Definition createTowerMap (towers : list TowerRef) : TowerM TowerMap :=
  readTowers (createTowerMap_pure towers).

Definition directions : list (Z * Z) :=
  [(-1, 0); (1, 0); (0, -1); (0, 1)]%Z.

(** The towers of the four orthogonal neighbour cells that lie on the
    board. *)
Definition getAdjacentTowers (tower : GridTower) (towerMap : TowerMap)
    : list GridTower :=
  omap
    (fun '(dRow, dCol) =>
       let newRow := (gt_gridRow tower + dRow)%Z in
       let newCol := (gt_gridCol tower + dCol)%Z in
       if (newRow <? 0)%Z || (newRow >=? GAME_CONFIG.GRID_ROWS)%Z
          || (newCol <? 0)%Z || (newCol >=? GAME_CONFIG.GRID_COLS)%Z
       then None
       else towerMap !! (newRow, newCol))
    directions.

Definition calculateSynergiesForTower (tower : GridTower)
    (towerMap : TowerMap) : list SynergyEffect :=
  let adjacentTowers := getAdjacentTowers tower towerMap in
  let adjacentElements := gt_element <$> adjacentTowers in
  filter
    (fun synergyConfig =>
       gt_element tower = sourceElement synergyConfig
       ∧ requiredElement synergyConfig ∈ adjacentElements)
    SYNERGY_VALUES.

(** [calculateAndApplySynergies(towers)] *)
Definition calculateAndApplySynergies (towers : list TowerRef)
    : TowerM unit :=
  towerMap ← createTowerMap towers;
  forEach towers (fun r =>
    writeTower r (fun tower =>
      Tower.setSynergies
        (calculateSynergiesForTower (asGridTower tower) towerMap)
        tower)).

Record Preview := mkPreview {
  newTowerSynergies : list SynergyEffect;
  affectedTowers : list (TowerRef * list SynergyEffect);
}.

(** [existingTowers.find(t => t.gridRow === row && t.gridCol === col)] *)
Definition findTowerAt (row col : Z) (existingTowers : list TowerRef)
    (h : list Tower.t) : option TowerRef :=
  find
    (fun r =>
       match h !! r with
       | Some w => (Tower.gridRow w =? row)%Z && (Tower.gridCol w =? col)%Z
       | None => false
       end)
    existingTowers.

(** The body of the loop over the four directions: the neighbour found
    in that direction, with the synergies it would have, when their
    number differs from the number it has now. *)
Definition previewNeighbour (gridRow gridCol : Z)
    (existingTowers : list TowerRef) (towerMap : TowerMap)
    (h : list Tower.t) (d : Z * Z)
    : option (TowerRef * list SynergyEffect) :=
  let adjRow := (gridRow + d.1)%Z in
  let adjCol := (gridCol + d.2)%Z in
  r ← findTowerAt adjRow adjCol existingTowers h;
  adjTower ← h !! r;
  let newSynergies :=
    calculateSynergiesForTower (asGridTower adjTower) towerMap in
  if negb (length newSynergies
           =? length (Tower.activeSynergies adjTower))%nat
  then Some (r, newSynergies)
  else None.

(** [previewSynergies(element, gridRow, gridCol, existingTowers)] *)
Definition previewSynergies (element : ElementType) (gridRow gridCol : Z)
    (existingTowers : list TowerRef) : TowerM Preview :=
  towerMap0 ← createTowerMap existingTowers;
  let tempTower := mkGridTower gridRow gridCol element in
  let towerMap : TowerMap := <[(gridRow, gridCol) := tempTower]> towerMap0 in
  let newTowerSynergies := calculateSynergiesForTower tempTower towerMap in
  affectedTowers ← readTowers (fun h =>
    omap (previewNeighbour gridRow gridCol existingTowers towerMap h)
      directions);
  mret (mkPreview newTowerSynergies affectedTowers).

End SynergySystem.

(* ===================================================================== *)
(** ** Game.update: tower pass, projectile pass, melee pass *)
(* ===================================================================== *)

Module Game.

(** What became of a reported hit.  (Pop-ups and particles, which the
    three branches differ in, are not modelled.) *)
Inductive HitOutcome :=
  | Evaded
  | Reacted (reaction : ReactionResult)
  | Damaged (actualDamage : Z).

(** The tower pass for one living tower: choose a target, then fire. *)
Definition towerTick (heap : EnemyHeap) (enemies : list EnemyRef)
    (currentTime : float) (w : Tower.t) : Tower.t * option Projectile.t :=
  if negb (Tower.isAlive w) then (w, None)
  else Tower.tryFire heap currentTime (Tower.findTarget heap enemies w).

(** The body of the projectile loop once [projectile.update()] has
    reported a hit: the evasion draw comes first; then the reaction
    system; raw damage goes through [takeDamage] only when no reaction
    fired. *)
Definition resolveHit (now : Z) (enemies : list EnemyRef)
    (hitResult : HitResult) (heap : EnemyHeap) (g : Rng)
    : EnemyHeap * Rng * option HitOutcome :=
  let target := hit_target hitResult in
  match heap !! target with
  | None => (heap, g, None)
  | Some e =>
      let '(roll, g1) := random g in
      if Enemy.tryEvade roll e then (heap, g1, Some Evaded)
      else
        let '(heap1, reaction) :=
          ReactionSystem.checkAndTriggerReaction now target
            (hit_element hitResult) (hit_damage hitResult) enemies heap in
        match reaction with
        | Some r => (heap1, g1, Some (Reacted r))
        | None =>
            match heap1 !! target with
            | None => (heap1, g1, None)
            | Some e1 =>
                let '(e2, actualDamage) :=
                  Enemy.takeDamage (hit_damage hitResult)
                    (Some (hit_element hitResult)) e1 in
                (<[target := e2]> heap1, g1, Some (Damaged actualDamage))
            end
        end
  end.

(** One iteration of the projectile loop. *)
Definition projectileTick (now : Z) (enemies : list EnemyRef)
    (p : Projectile.t) (heap : EnemyHeap) (g : Rng)
    : Projectile.t * EnemyHeap * Rng * option HitOutcome :=
  match heap !! Projectile.target p with
  | None => (p, heap, g, None)
  | Some tgt =>
      let '(p1, hitResult, g1) := Projectile.update tgt g p in
      match hitResult with
      | None => (p1, heap, g1, None)
      | Some h =>
          let '(heap1, g2, outcome) := resolveHit now enemies h heap g1 in
          (p1, heap1, g2, outcome)
      end
  end.

(** [handleTowerDestruction]: synergies are recomputed over the towers
    still alive.  (Releasing the grid cell is the grid system's.) *)
Definition handleTowerDestruction (towers : list TowerRef)
    (th : TowerHeap) : TowerHeap :=
  let alive :=
    List.filter (fun r => match th !! r with
                          | Some w => Tower.isAlive w
                          | None => false
                          end) towers in
  snd (SynergySystem.calculateAndApplySynergies alive th).

(** Whether a tower is a living one within 1.5 cells of the enemy. *)
Definition inMeleeReach (enemy : Enemy.t) (th : TowerHeap)
    (r : TowerRef) : bool :=
  match th !! r with
  | None => false
  | Some tower =>
      Tower.isAlive tower
      && PrimFloat.ltb
           (distance (Tower.position tower) (Enemy.position enemy))
           (GAME_CONFIG.GRID_SIZE * 1.5)%float
  end.

(** The body of the outer loop of [processEnemyAttacks] for one enemy:
    the inner loop stops at the first living tower in reach. *)
Definition enemyAttack (currentTime : float) (towers : list TowerRef)
    (st : EnemyHeap * TowerHeap) (er : EnemyRef)
    : EnemyHeap * TowerHeap :=
  let '(eh, th) := st in
  match eh !! er with
  | None => st
  | Some enemy =>
      if negb (Enemy.isAlive enemy) then st
      else if tag_eqb (Enemy.enemyType enemy) breaker then st
      else if negb (Enemy.canAttackTower currentTime enemy) then st
      else
        match find (inMeleeReach enemy th) towers with
        | None => st
        | Some tr =>
            match th !! tr with
            | None => st
            | Some tower =>
                let '(enemy1, damage) :=
                  Enemy.attackTower currentTime enemy in
                let '(tower1, destroyed) :=
                  Tower.takeDamage damage tower in
                let th1 := <[tr := tower1]> th in
                (<[er := enemy1]> eh,
                 if destroyed then handleTowerDestruction towers th1
                 else th1)
            end
        end
  end.

Definition processEnemyAttacks (currentTime : float)
    (enemies : list EnemyRef) (towers : list TowerRef)
    (st : EnemyHeap * TowerHeap) : EnemyHeap * TowerHeap :=
  fold_left (enemyAttack currentTime towers) enemies st.

End Game.

(* ===================================================================== *)
(** ** entities/Enemy.ts: healing, slowing and movement *)
(* ===================================================================== *)

(** [baseSpeed] of [ENEMY_TYPE_CONFIGS], which only the movement reads. *)
Definition tc_baseSpeed (t : EnemyType) : float :=
  match t with
  | normal => 1.5
  | tank => 0x1.999999999999ap-1      (* the literal 0.8 *)
  | breaker => 2.0
  | ghost => 0x1.3333333333333p+0     (* the literal 1.2 *)
  | boss => 0.5
  end.

(** [BASE_ROW] and [BASE_COL] of [GAME_CONFIG]. *)
Definition BASE_ROW : float := 7.
Definition BASE_COL : float := 7.

Module Boss.

(** [Enemy.heal(amount)]: capped at the maximum; the method does not look
    at [isAlive]. *)
Definition heal (amount : Z) (e : Enemy.t) : Enemy.t :=
  Enemy.set_health (Z.min (Enemy.maxHealth e) (Enemy.health e + amount)) e.

(** The [heal] branch of [Game.handleBossSkill]: a tenth of the maximum
    health, rounded down. *)
Definition healSkill (b : Enemy.t) : Enemy.t :=
  let healAmount :=
    JS.Math_floor (JS.Z2F (Enemy.maxHealth b) * 0x1.999999999999ap-4) in
  heal healAmount b.

End Boss.

Module Mover.

(** An enemy with the state its movement uses: the combat fields are
    those of [Enemy.t]; beside them the speed, the slow timer, the
    breaker's tower target and the position along the path.  (The boss
    skill timer is left out.) *)
Record t := mk {
  body : Enemy.t;
  speed : float;
  baseSpeed : float;
  isSlowed : bool;
  slowEndTime : Z;
  slowMultiplier : float;
  targetTower : option TowerRef;
  pathIndex : nat;
  path : list Position;
}.

Definition set_body (v : Enemy.t) (m : t) : t :=
  mk v (speed m) (baseSpeed m) (isSlowed m) (slowEndTime m)
     (slowMultiplier m) (targetTower m) (pathIndex m) (path m).

Definition set_targetTower (v : option TowerRef) (m : t) : t :=
  mk (body m) (speed m) (baseSpeed m) (isSlowed m) (slowEndTime m)
     (slowMultiplier m) v (pathIndex m) (path m).

Definition set_pathIndex (v : nat) (m : t) : t :=
  mk (body m) (speed m) (baseSpeed m) (isSlowed m) (slowEndTime m)
     (slowMultiplier m) (targetTower m) v (path m).

(** [this.position.x += vx; this.position.y += vy] *)
Definition moveBy (vx vy : float) (m : t) : t :=
  let e := body m in
  set_body
    (Enemy.mk
       (mkPosition (px (Enemy.position e) + vx)%float
                   (py (Enemy.position e) + vy)%float)
       (Enemy.health e) (Enemy.maxHealth e) (Enemy.size e)
       (Enemy.isAlive e) (Enemy.enemyType e) (Enemy.resistance e)
       (Enemy.status e) (Enemy.statusDuration e) (Enemy.isFrozen e)
       (Enemy.freezeEndTime e) (Enemy.attackDamage e)
       (Enemy.lastAttackTime e) (Enemy.attackCooldown e)
       (Enemy.evasionChance e) (Enemy.priority e) (Enemy.ccImmunity e))
    m.

(** The constructor, on the path without a legacy [config]: the enemy
    starts on the first waypoint.  (On an empty path the copied position
    has no coordinates; arithmetic on them gives NaN.) *)
Definition new (path : list Position) (enemyType : EnemyType)
    (waveNumber : Z) (resistance : option ResistanceType) : t :=
  {| body :=
       Enemy.new (default (mkPosition nan nan) (path !! 0%nat))
         enemyType waveNumber resistance;
     speed := tc_baseSpeed enemyType;
     baseSpeed := tc_baseSpeed enemyType;
     isSlowed := false;
     slowEndTime := 0;
     slowMultiplier := 1;
     targetTower := None;
     pathIndex := 0;
     path := path |}.

(** The body of the loop of [findNearestTower]: the accumulator is the
    nearest living tower so far and its distance. *)
Definition findNearestTower_step (th : TowerHeap) (m : t)
    (acc : option TowerRef * float) (r : TowerRef)
    : option TowerRef * float :=
  match th !! r with
  | None => acc
  | Some tower =>
      if negb (Tower.isAlive tower) then acc
      else
        let d := distance (Tower.position tower) (Enemy.position (body m)) in
        if PrimFloat.ltb d acc.2 then (Some r, d) else acc
  end.

Definition findNearestTower (th : TowerHeap) (towers : list TowerRef)
    (m : t) : option TowerRef :=
  (fold_left (findNearestTower_step th m) towers (None, infinity)).1.

(** [moveTowardsTower]: whether the tower has been touched. *)
Definition moveTowardsTower (tower : Tower.t) (m : t) : t * bool :=
  let pos := Enemy.position (body m) in
  let dx := (px (Tower.position tower) - px pos)%float in
  let dy := (py (Tower.position tower) - py pos)%float in
  let d := PrimFloat.sqrt (dx * dx + dy * dy)%float in
  if PrimFloat.ltb d (Enemy.size (body m) / 2 + Tower.size tower / 2)%float
  then (m, true)
  else
    let vx := (dx / d * speed m)%float in
    let vy := (dy / d * speed m)%float in
    (moveBy vx vy m, false).

(** [moveTowardsBase]: whether the base has been reached. *)
Definition moveTowardsBase (m : t) : t * bool :=
  let GRID_SIZE := GAME_CONFIG.GRID_SIZE in
  let baseX := (BASE_COL * GRID_SIZE + GRID_SIZE / 2)%float in
  let baseY := (BASE_ROW * GRID_SIZE + GRID_SIZE / 2)%float in
  let pos := Enemy.position (body m) in
  let dx := (baseX - px pos)%float in
  let dy := (baseY - py pos)%float in
  let d := PrimFloat.sqrt (dx * dx + dy * dy)%float in
  if PrimFloat.ltb d (GRID_SIZE / 2)%float then (m, true)
  else
    let vx := (dx / d * speed m)%float in
    let vy := (dy / d * speed m)%float in
    (moveBy vx vy m, false).

(** [applySlow]: the duration is cut by the crowd-control immunity as in
    [freeze]; the speed is set from the base speed, so slows do not
    compound.  [now] is [Date.now()]. *)
Definition applySlow (now : Z) (duration : Z) (multiplier : float)
    (m : t) : t :=
  let actualDuration :=
    JS.Math_floor
      (JS.Z2F duration * (1 - Enemy.ccImmunity (body m)))%float in
  if (actualDuration <? 200)%Z then m
  else
    mk (body m) (baseSpeed m * multiplier)%float (baseSpeed m) true
       (now + actualDuration) multiplier (targetTower m) (pathIndex m)
       (path m).

(** [pathIndex >= path.length - 1] *)
Definition atLastWaypoint (m : t) : bool :=
  (Z.of_nat (pathIndex m) >=? Z.of_nat (length (path m)) - 1)%Z.

(** [followPath]: whether the goal has been reached.  A waypoint closer
    than one step is taken as reached, without moving. *)
Definition followPath (m : t) : t * bool :=
  if atLastWaypoint m then (m, true)
  else
    match path m !! S (pathIndex m) with
    | None => (m, true)   (* excluded by the test above *)
    | Some target =>
        let pos := Enemy.position (body m) in
        let dx := (px target - px pos)%float in
        let dy := (py target - py pos)%float in
        let d := PrimFloat.sqrt (dx * dx + dy * dy)%float in
        if PrimFloat.ltb d (speed m) then
          let m1 := set_pathIndex (S (pathIndex m)) m in
          if atLastWaypoint m1 then (m1, true) else (m1, false)
        else
          let vx := (dx / d * speed m)%float in
          let vy := (dy / d * speed m)%float in
          (moveBy vx vy m, false)
    end.

(** The three bookkeeping steps at the head of [update]. *)
Definition thaw (now : Z) (e : Enemy.t) : Enemy.t :=
  if Enemy.isFrozen e && (now >=? Enemy.freezeEndTime e)%Z then
    let e1 := Enemy.set_isFrozen false e in
    if tag_eqb (Enemy.status e1) (Some frozen) then Enemy.clearStatus e1
    else e1
  else e.

Definition unslow (now : Z) (m : t) : t :=
  if isSlowed m && (now >=? slowEndTime m)%Z then
    mk (body m) (baseSpeed m) (baseSpeed m) false (slowEndTime m) 1
       (targetTower m) (pathIndex m) (path m)
  else m.

Definition tickStatus (e : Enemy.t) : Enemy.t :=
  if (Enemy.statusDuration e >? 0)%Z then
    let e1 :=
      Enemy.set_statusDuration (Enemy.statusDuration e - 16) e in
    if (Enemy.statusDuration e1 <=? 0)%Z then Enemy.clearStatus e1
    else e1
  else e.

(** [!this.targetTower || !this.targetTower.isAlive] *)
Definition targetLost (th : TowerHeap) (m : t) : bool :=
  match targetTower m with
  | None => true
  | Some r =>
      match th !! r with
      | Some tower => negb (Tower.isAlive tower)
      | None => true
      end
  end.

(** [update(towers)]: one frame of an enemy; whether it reached its
    goal.  [now] is [Date.now()]; [towers] is the list the game passes,
    its living towers. *)
Definition update (now : Z) (th : TowerHeap) (towers : list TowerRef)
    (m : t) : t * bool :=
  if negb (Enemy.isAlive (body m)) then (m, false)
  else
    let m1 := set_body (thaw now (body m)) m in
    let m2 := unslow now m1 in
    if Enemy.isFrozen (body m2) then (m2, false)
    else
      let m3 := set_body (tickStatus (body m2)) m2 in
      let typeConfig := Enemy.typeConfig (body m3) in
      if tc_ignoresPath typeConfig then moveTowardsBase m3
      else if tc_targetsNearestTower typeConfig
              && negb (length towers =? 0)%nat
      then
        let m4 :=
          if targetLost th m3
          then set_targetTower (findNearestTower th towers m3) m3
          else m3 in
        match targetTower m4 with
        | Some r =>
            match th !! r with
            | Some tower => moveTowardsTower tower m4
            | None => followPath m4
            end
        | None => followPath m4
        end
      else followPath m3.

End Mover.

(* ===================================================================== *)
(** ** entities/Tower.ts: repair, silence and levels *)
(* ===================================================================== *)

Definition MAX_TOWER_LEVEL : Z := 3.

Definition LEVEL_SIZE_BONUS (level : Z) : option Z :=
  if (level =? 1)%Z then Some 0%Z
  else if (level =? 2)%Z then Some 4%Z
  else if (level =? 3)%Z then Some 8%Z
  else None.

Record TowerConfig := mkTowerConfig {
  cfg_range : float;
  cfg_fireRate : float;
  cfg_damage : Z;
  cfg_size : float;
}.

(** [getTowerConfigByElement(element, level)].  The statistics are
    integers; a level outside the size table has no size. *)
Definition getTowerConfigByElement (element : ElementType) (level : Z)
    : TowerConfig :=
  let baseDamage := Tower.ELEMENT_BASE_DAMAGE element in
  {| cfg_range := JS.Z2F (120 + (level - 1) * 20);
     cfg_fireRate := JS.Z2F (Z.max 500 (1000 - (level - 1) * 200));
     cfg_damage := baseDamage * level;
     cfg_size :=
       match LEVEL_SIZE_BONUS level with
       | Some bonus => JS.Z2F (30 + bonus)
       | None => nan
       end |}.

Module TowerLife.

(** [heal(amount)]: a destroyed tower is not repaired. *)
Definition heal (amount : Z) (w : Tower.t) : Tower.t :=
  if negb (Tower.isAlive w) then w
  else Tower.set_hp (Z.min (Tower.maxHp w) (Tower.hp w + amount)) w.

(** [applySilence(duration)], with [now] for [Date.now()]. *)
Definition applySilence (now : Z) (duration : Z) (w : Tower.t) : Tower.t :=
  Tower.mk (Tower.position w) (Tower.element w) (Tower.range w)
    (Tower.fireRate w) (Tower.baseDamage w) (Tower.size w)
    (Tower.gridRow w) (Tower.gridCol w) (Tower.hp w) (Tower.maxHp w)
    (Tower.isAlive w) true (JS.Z2F now + JS.Z2F duration)%float
    (Tower.activeSynergies w) (Tower.synergyDamageMultiplier w)
    (Tower.lastFireTime w) (Tower.currentTarget w).

(** [checkSilenced()]: lifts an elapsed silence, then answers. *)
Definition checkSilenced (now : Z) (w : Tower.t) : Tower.t * bool :=
  let w1 :=
    if Tower.isSilenced w && JS.geb (JS.Z2F now) (Tower.silenceEndTime w)
    then Tower.set_isSilenced false w
    else w in
  (w1, Tower.isSilenced w1).

Definition clearSynergies (w : Tower.t) : Tower.t :=
  Tower.set_synergies [] 1.0%float w.

(** The level of a tower is carried beside the record of its other
    fields.  [withConfig] writes the statistics of a level and restores
    the hit points to the level's maximum. *)
Definition withConfig (level : Z) (w : Tower.t) : Tower.t :=
  let newConfig := getTowerConfigByElement (Tower.element w) level in
  let maxHp := (100 + (level - 1) * 50)%Z in
  Tower.mk (Tower.position w) (Tower.element w) (cfg_range newConfig)
    (cfg_fireRate newConfig) (cfg_damage newConfig) (cfg_size newConfig)
    (Tower.gridRow w) (Tower.gridCol w) maxHp maxHp
    (Tower.isAlive w) (Tower.isSilenced w) (Tower.silenceEndTime w)
    (Tower.activeSynergies w) (Tower.synergyDamageMultiplier w)
    (Tower.lastFireTime w) (Tower.currentTarget w).

(** The constructor at a given level. *)
Definition new (gridRow gridCol : Z) (centerPosition : Position)
    (element : ElementType) (level : Z) : Z * Tower.t :=
  let level := Z.min level MAX_TOWER_LEVEL in
  (level, withConfig level (Tower.new gridRow gridCol centerPosition element)).

(** [levelUp()]: whether the tower gained a level. *)
Definition levelUp (lw : Z * Tower.t) : Z * Tower.t * bool :=
  let '(level, w) := lw in
  if (level >=? MAX_TOWER_LEVEL)%Z then (level, w, false)
  else
    let level1 := (level + 1)%Z in
    (level1, withConfig level1 w, true).

Definition canMergeWith (element : ElementType) (level : Z)
    (lw : Z * Tower.t) : bool :=
  tag_eqb (Tower.element lw.2) element
  && (lw.1 =? level)%Z
  && (lw.1 <? MAX_TOWER_LEVEL)%Z.

End TowerLife.

(* ===================================================================== *)
(** ** systems/SynergySystem.ts: the summary of active synergies *)
(* ===================================================================== *)

#[global] Instance SynergyType_eq_dec : EqDecision SynergyType.
Proof. solve_decision. Defined.

(** A [Map] from synergy names to counts, in insertion order.  [bump]
    is [summary.set(name, (summary.get(name) ?? 0) + 1)]. *)
Fixpoint bump (k : SynergyType) (summary : list (SynergyType * Z))
    : list (SynergyType * Z) :=
  match summary with
  | [] => [(k, 1%Z)]
  | (k', n) :: rest =>
      if tag_eqb k' k then (k', (n + 1)%Z) :: rest
      else (k', n) :: bump k rest
  end.

Definition summaryGet (k : SynergyType) (summary : list (SynergyType * Z))
    : option Z :=
  snd <$> find (fun entry => tag_eqb entry.1 k) summary.

Definition getActiveSynergySummary (towers : list TowerRef)
    (h : list Tower.t) : list (SynergyType * Z) :=
  fold_left
    (fun summary r =>
       match h !! r with
       | Some tower =>
           fold_left (fun summary synergy => bump (synergyType synergy) summary)
             (Tower.activeSynergies tower) summary
       | None => summary
       end)
    towers [].

(* ===================================================================== *)
(** ** systems/SpellSystem.ts *)
(* ===================================================================== *)

Inductive SpellType := meteor | blizzard | oil_bomb.

#[global] Instance SpellType_eq_dec : EqDecision SpellType.
Proof. solve_decision. Defined.

#[global] Instance SpellType_countable : Countable SpellType.
Proof.
  refine (inj_countable'
            (fun s => match s with
                      | meteor => 0%nat | blizzard => 1%nat | oil_bomb => 2%nat
                      end)
            (fun n => match n with
                      | 0%nat => meteor | 1%nat => blizzard | _ => oil_bomb
                      end) _).
  by intros [].
Defined.

Record SpellConfig := mkSpellConfig {
  sp_radius : float;
  sp_damage : option Z;
  sp_slowDuration : option Z;
  sp_slowMultiplier : option float;
  sp_appliesStatus : option StatusType;
  sp_cooldown : Z;   (* uses per wave *)
}.

Definition SPELL_CONFIGS (s : SpellType) : SpellConfig :=
  match s with
  | meteor => mkSpellConfig 60 (Some 200%Z) None None None 2
  | blizzard =>
      mkSpellConfig 9999 None (Some 3000%Z)
        (Some 0x1.999999999999ap-2%float)   (* the literal 0.4 *)
        (Some (StElement ice)) 1
  | oil_bomb => mkSpellConfig 70 (Some 30%Z) None None (Some oil) 3
  end.

Record SpellResult := mkSpellResult {
  sr_spellType : SpellType;
  sr_position : Position;
  sr_affectedEnemies : list EnemyRef;
  sr_totalDamage : Z;
}.

Module SpellSystem.

(** The state of the system: how often each spell was cast this wave. *)
Abbreviation Usage := (gmap SpellType Z) (only parsing).

(** The accumulator of the three loops of [castSpell]: the arena, the
    affected enemies and the total damage. *)
Definition Cast : Type := list Mover.t * list EnemyRef * Z.

Definition resetUsageCounts : Usage :=
  fold_left (fun (counts : Usage) spellType => <[spellType := 0%Z]> counts)
    [meteor; blizzard; oil_bomb] ∅.

Definition usedCount (spellType : SpellType) (counts : Usage) : Z :=
  JS.or_defaultZ (counts !! spellType) 0.

Definition canUseSpell (spellType : SpellType) (counts : Usage) : bool :=
  (usedCount spellType counts <? sp_cooldown (SPELL_CONFIGS spellType))%Z.

Definition getRemainingUses (spellType : SpellType) (counts : Usage) : Z :=
  Z.max 0 (sp_cooldown (SPELL_CONFIGS spellType) - usedCount spellType counts).

(** What [enemy.takeDamage(damage)] and [enemy.applyStatus(s)] do to an
    enemy of the arena. *)
Definition hurt (damage : Z) (m : Mover.t) : Mover.t :=
  Mover.set_body (Enemy.takeDamage damage None (Mover.body m)).1 m.

Definition mark (s : StatusType) (m : Mover.t) : Mover.t :=
  Mover.set_body (Enemy.applyStatus s (Mover.body m)) m.

Definition meteor_step (config : SpellConfig) (targetPosition : Position)
    (acc : Cast) (r : EnemyRef) : Cast :=
  let '(heap, affectedEnemies, totalDamage) := acc in
  match heap !! r with
  | None => acc
  | Some enemy =>
      if negb (Enemy.isAlive (Mover.body enemy)) then acc
      else
        let d :=
          distance (Enemy.getCenter (Mover.body enemy)) targetPosition in
        if PrimFloat.leb d (sp_radius config) then
          let damageRatio := (1 - d / sp_radius config * 0.5)%float in
          let damage :=
            JS.Math_floor
              (JS.Z2F (JS.or_defaultZ (sp_damage config) 0) * damageRatio) in
          (<[r := mark (StElement fire) (hurt damage enemy)]> heap,
           affectedEnemies ++ [r],
           (totalDamage + damage)%Z)
        else acc
  end.

Definition blizzard_step (now : Z) (config : SpellConfig)
    (acc : Cast) (r : EnemyRef) : Cast :=
  let '(heap, affectedEnemies, totalDamage) := acc in
  match heap !! r with
  | None => acc
  | Some enemy =>
      if negb (Enemy.isAlive (Mover.body enemy)) then acc
      else
        let enemy1 :=
          Mover.applySlow now
            (JS.or_defaultZ (sp_slowDuration config) 3000)
            (JS.or_default (sp_slowMultiplier config) 0x1.999999999999ap-2)
            enemy in
        let enemy2 :=
          match sp_appliesStatus config with
          | Some s => mark s enemy1
          | None => enemy1
          end in
        (<[r := enemy2]> heap, affectedEnemies ++ [r], totalDamage)
  end.

Definition oil_bomb_step (config : SpellConfig) (targetPosition : Position)
    (acc : Cast) (r : EnemyRef) : Cast :=
  let '(heap, affectedEnemies, totalDamage) := acc in
  match heap !! r with
  | None => acc
  | Some enemy =>
      if negb (Enemy.isAlive (Mover.body enemy)) then acc
      else
        let d :=
          distance (Enemy.getCenter (Mover.body enemy)) targetPosition in
        if PrimFloat.leb d (sp_radius config) then
          let damage := JS.or_defaultZ (sp_damage config) 0 in
          let enemy1 := hurt damage enemy in
          let enemy2 :=
            match sp_appliesStatus config with
            | Some s => mark s enemy1
            | None => enemy1
            end in
          (<[r := enemy2]> heap, affectedEnemies ++ [r],
           (totalDamage + damage)%Z)
        else acc
  end.

(** [castSpell(spellType, targetPosition, allEnemies)] on the usage
    counts and the arena of enemies. *)
Definition castSpell (now : Z) (spellType : SpellType)
    (targetPosition : Position) (allEnemies : list EnemyRef)
    (st : Usage * list Mover.t)
    : Usage * list Mover.t * option SpellResult :=
  let '(counts, heap) := st in
  if negb (canUseSpell spellType counts) then (counts, heap, None)
  else
    let config := SPELL_CONFIGS spellType in
    let step :=
      match spellType with
      | meteor => meteor_step config targetPosition
      | blizzard => blizzard_step now config
      | oil_bomb => oil_bomb_step config targetPosition
      end in
    let '(heap1, affectedEnemies, totalDamage) :=
      fold_left step allEnemies (heap, [], 0%Z) in
    let currentCount := usedCount spellType counts in
    (<[spellType := (currentCount + 1)%Z]> counts, heap1,
     Some (mkSpellResult spellType targetPosition affectedEnemies
             totalDamage)).

End SpellSystem.

(* ===================================================================== *)
(** ** Game.ts: merging, and the removal of the dead in [update] *)
(* ===================================================================== *)

Module Upkeep.

(** The merge branch of [handleTowerDrop]: a card dropped on the tower
    [existing] levels it up when the tower accepts the merge, and the
    synergies of all towers are recomputed; whether the card was
    consumed.  [levels] holds the level of each tower of the arena. *)
Definition mergeDrop (towers : list TowerRef) (existing : TowerRef)
    (cardElement : ElementType) (st : list Z * TowerHeap)
    : list Z * TowerHeap * bool :=
  let '(levels, th) := st in
  match levels !! existing, th !! existing with
  | Some level, Some w =>
      if TowerLife.canMergeWith cardElement 1 (level, w) then
        let '(level1, w1, _) := TowerLife.levelUp (level, w) in
        (<[existing := level1]> levels,
         (SynergySystem.calculateAndApplySynergies towers
            (<[existing := w1]> th)).2,
         true)
      else (levels, th, false)
  | _, _ => (levels, th, false)
  end.

(** Whether a tower of the arena is alive. *)
Definition towerAlive (th : TowerHeap) (r : TowerRef) : bool :=
  match th !! r with
  | Some w => Tower.isAlive w
  | None => false
  end.

(** The removal of destroyed towers in [update]: the tower list is
    filtered, and the synergies are recomputed if a tower of the
    filtered list is not alive. *)
Definition pruneTowers (towers : list TowerRef) (th : TowerHeap)
    : list TowerRef * TowerHeap :=
  let towers1 := List.filter (towerAlive th) towers in
  if existsb (fun r => negb (towerAlive th r)) towers1 then
    (towers1,
     (SynergySystem.calculateAndApplySynergies
        (List.filter (towerAlive th) towers1) th).2)
  else (towers1, th).

End Upkeep.

(* ===================================================================== *)
(** ** Game.update: the enemy pass *)
(* ===================================================================== *)

Module EnemyPass.

(** What the enemy pass reads and writes: the two arenas and the hit
    points of the base. *)
Record World := mkWorld {
  enemies : list Mover.t;
  towers : list Tower.t;
  baseHP : Z;
}.

(** [enemy.targetTower && enemy.targetTower.isAlive], with the tower. *)
Definition liveTarget (th : list Tower.t) (enemy : Mover.t)
    : option (TowerRef * Tower.t) :=
  match Mover.targetTower enemy with
  | Some tr =>
      match th !! tr with
      | Some tower => if Tower.isAlive tower then Some (tr, tower) else None
      | None => None
      end
  | None => None
  end.

(** The breaker's attack on its target: [attackTower], [takeDamage] and,
    on destruction, [handleTowerDestruction]. *)
Definition strike (currentTime : float) (allTowers : list TowerRef)
    (er : EnemyRef) (enemy : Mover.t) (tr : TowerRef) (tower : Tower.t)
    (w : World) : World :=
  let '(body1, damage) := Enemy.attackTower currentTime (Mover.body enemy) in
  let '(tower1, destroyed) := Tower.takeDamage damage tower in
  let th1 := <[tr := tower1]> (towers w) in
  mkWorld (<[er := Mover.set_body body1 enemy]> (enemies w))
    (if destroyed then Game.handleTowerDestruction allTowers th1 else th1)
    (baseHP w).

Section Tick.

(** The boss's skill step ([canUseSkill] and [handleBossSkill]) is not
    modelled: it is a parameter of the pass, run for bosses only. *)
Variable bossStep : EnemyRef -> World -> World.

(** The body of the loop over the enemies for one enemy.  [currentTime]
    is the frame's timestamp, [now] the clock read by [Enemy.update],
    [allTowers] the game's tower list and [aliveTowers] its standing
    towers at the start of the frame. *)
Definition enemyTick (currentTime : float) (now : Z)
    (allTowers aliveTowers : list TowerRef) (w : World) (er : EnemyRef)
    : World :=
  match enemies w !! er with
  | None => w
  | Some enemy0 =>
      if negb (Enemy.isAlive (Mover.body enemy0)) then w
      else
        let w1 :=
          if Enemy.isBoss (Mover.body enemy0) then bossStep er w else w in
        match enemies w1 !! er with
        | None => w1
        | Some enemy =>
            let isBreaker :=
              tag_eqb (Enemy.enemyType (Mover.body enemy)) breaker in
            let contact :=
              if isBreaker then
                match liveTarget (towers w1) enemy with
                | Some (tr, tower) =>
                    if PrimFloat.ltb
                         (distance (Tower.position tower)
                            (Enemy.position (Mover.body enemy)))
                         (Enemy.size (Mover.body enemy) / 2
                          + Tower.size tower / 2)%float
                    then Some (tr, tower)
                    else None
                | None => None
                end
              else None in
            match contact with
            | Some (tr, tower) =>
                strike currentTime allTowers er enemy tr tower w1
            | None =>
                let '(enemy1, reachedGoal) :=
                  Mover.update now (towers w1) aliveTowers enemy in
                let w2 :=
                  mkWorld (<[er := enemy1]> (enemies w1)) (towers w1)
                    (baseHP w1) in
                if reachedGoal then
                  match (if tag_eqb (Enemy.enemyType (Mover.body enemy1))
                              breaker
                         then liveTarget (towers w2) enemy1
                         else None) with
                  | Some (tr, tower) =>
                      strike currentTime allTowers er enemy1 tr tower w2
                  | None =>
                      mkWorld
                        (<[er := Mover.set_body
                                   (Enemy.set_isAlive false
                                      (Mover.body enemy1))
                                   enemy1]> (enemies w2))
                        (towers w2) (baseHP w2 - 10)
                  end
                else w2
            end
        end
  end.

(** The loop over the game's enemy list. *)
Definition enemyPass (currentTime : float) (now : Z)
    (allTowers aliveTowers : list TowerRef) (enemyList : list EnemyRef)
    (w : World) : World :=
  fold_left (enemyTick currentTime now allTowers aliveTowers) enemyList w.

End Tick.

End EnemyPass.

(* ===================================================================== *)
(** ** Vocabulary of the statements *)
(* ===================================================================== *)

(** *** Damage *)

(** The health an enemy is left with after losing [d] points:
    [takeDamage] stops at zero. *)
Definition healthAfter (d : Z) (h : Z) : Z :=
  if (h - d <=? 0)%Z then 0%Z else (h - d)%Z.

(** *** Target selection *)

(** The tower pass over successive ticks: at each tick the tower sees an
    arena, the list of live enemies and the frame's timestamp. *)
Definition Frame : Type := list Enemy.t * list EnemyRef * float.

Definition towerRun (frames : list Frame) (w : Tower.t) : Tower.t :=
  fold_left
    (fun w (f : Frame) => (Game.towerTick f.1.1 f.1.2 f.2 w).1)
    frames w.

(** The target of a tower is usable in a frame: alive and in range. *)
Definition targetHolds (r : EnemyRef) (w : Tower.t) (f : Frame) : Prop :=
  exists e, f.1.1 !! r = Some e
            /\ Enemy.isAlive e = true
            /\ Tower.isInRange e w = true.

(** An enemy a tower may pick: present, alive, not beyond its range. *)
Definition candidate (heap : list Enemy.t) (w : Tower.t)
    (r : EnemyRef) (e : Enemy.t) : Prop :=
  heap !! r = Some e
  /\ Enemy.isAlive e = true
  /\ JS.gtb (Tower.getDistanceTo e w) (Tower.range w) = false.

(** Every enemy of the list carries the priority of its archetype, as
    the constructor sets it. *)
Definition prioritiesFromConfig (heap : list Enemy.t)
    (enemies : list EnemyRef) : Prop :=
  forall r e, r ∈ enemies -> heap !! r = Some e ->
    Enemy.priority e = tc_priority (ENEMY_TYPE_CONFIGS (Enemy.enemyType e)).

(** No candidate of the list beats [e]: none has a higher priority, and
    none of the same priority is strictly closer to the tower. *)
Definition unbeaten (heap : list Enemy.t) (w : Tower.t)
    (enemies : list EnemyRef) (e : Enemy.t) : Prop :=
  forall r' e', r' ∈ enemies -> candidate heap w r' e' ->
    (Enemy.priority e' <= Enemy.priority e)%Z
    /\ (Enemy.priority e' = Enemy.priority e ->
        PrimFloat.ltb (Tower.getDistanceTo e' w) (Tower.getDistanceTo e w)
        = false).

(** What the search loop of [findTarget] knows after the enemies [seen]. *)
Definition SearchInv (heap : list Enemy.t) (w : Tower.t)
    (seen : list EnemyRef) (s : Tower.Search) : Prop :=
  match Tower.found s with
  | None =>
      Tower.bestPriority s = 0%Z
      /\ forall r' e', r' ∈ seen -> ~ candidate heap w r' e'
  | Some r =>
      exists e, r ∈ seen
                /\ candidate heap w r e
                /\ Tower.bestPriority s = Enemy.priority e
                /\ Tower.closestDistance s = Tower.getDistanceTo e w
                /\ unbeaten heap w seen e
  end.

(** *** Explosion *)

(** The damage the explosion of total damage [total] deals at distance
    [d] from the epicentre, for the radius 80 of the reaction table. *)
Definition falloff (total : Z) (d : float) : Z :=
  JS.Math_floor (JS.Z2F total * (1 - d / 80 * 0.5))%float.

(** Whether the explosion loop acts on an enemy: alive and within the
    radius of the epicentre. *)
Definition inBlast (epicenter : Position) (o : Enemy.t) : bool :=
  Enemy.isAlive o
  && PrimFloat.leb (distance (Enemy.getCenter o) epicenter) 80.

(** What the explosion loop does to an enemy it visits. *)
Definition blast (epicenter : Position) (total : Z) (o : Enemy.t)
    : Enemy.t :=
  if inBlast epicenter o then
    let o1 :=
      Enemy.loseHealth
        (falloff total (distance (Enemy.getCenter o) epicenter)) o in
    if tag_eqb (Enemy.status o1) (Some oil) then Enemy.clearStatus o1
    else o1
  else o.

(** [f z], [f (z + 1)], ..., [f (z + n - 1)] all hold. *)
Fixpoint allFrom (n : nat) (z : Z) (f : Z -> bool) : bool :=
  match n with
  | O => true
  | S k => f z && allFrom k (z + 1) f
  end.

(** On an integer [x], the products by the dyadic factors the reactions
    use are exact, so that their floors are the integer quotients. *)
Definition dyadicExact (x : Z) : bool :=
  (JS.Math_floor (JS.Z2F x * 1.5) =? 3 * x / 2)%Z
  && (JS.Math_floor (JS.Z2F x * 3.0) =? 3 * x)%Z
  && (JS.Math_floor (JS.Z2F x * 1) =? x)%Z
  && (JS.Math_floor (JS.Z2F x * 0.5) =? x / 2)%Z.

(** *** Synergy preview *)

(** Every reference of the list points into the arena. *)
Definition validRefs (h : list Tower.t) (towers : list TowerRef) : Prop :=
  forall r, r ∈ towers -> r < length h.

(** No two towers of the list stand on the same cell. *)
Definition cellsDistinct (h : list Tower.t) (towers : list TowerRef) : Prop :=
  forall r1 r2 w1 w2,
    r1 ∈ towers -> r2 ∈ towers ->
    h !! r1 = Some w1 -> h !! r2 = Some w2 ->
    Tower.gridRow w1 = Tower.gridRow w2 ->
    Tower.gridCol w1 = Tower.gridCol w2 ->
    r1 = r2.

(** The cached synergies of the towers are those of their placement, as
    after any [calculateAndApplySynergies] over the list. *)
Definition synergiesCurrent (h : list Tower.t) (towers : list TowerRef)
    : Prop :=
  forall r w, r ∈ towers -> h !! r = Some w ->
    Tower.activeSynergies w
    = SynergySystem.calculateSynergiesForTower (asGridTower w)
        (SynergySystem.createTowerMap_pure towers h).

(** A tower stands on one of the four cells orthogonally next to
    (row, col). *)
Definition orthogonalNeighbour (row col : Z) (w : Tower.t) : Prop :=
  exists d, d ∈ SynergySystem.directions
            /\ Tower.gridRow w = (row + d.1)%Z
            /\ Tower.gridCol w = (col + d.2)%Z.

(** The placement of a new tower as the game commits it: the tower is
    allocated, pushed on the tower list, and the synergies of the whole
    list are recomputed.  The new tower's reference is [length h]. *)
Definition placeTower (element : ElementType) (row col : Z)
    (center : Position) (towers : list TowerRef) (h : list Tower.t)
    : list Tower.t :=
  (SynergySystem.calculateAndApplySynergies (towers ++ [length h])
     (h ++ [Tower.new row col center element])).2.

(** What [calculateAndApplySynergies] writes on a tower, given the map. *)
Definition resynergise (towerMap : gmap (Z * Z) GridTower) (w : Tower.t)
    : Tower.t :=
  Tower.setSynergies
    (SynergySystem.calculateSynergiesForTower (asGridTower w) towerMap) w.

(** One step of [createTowerMap]'s loop. *)
Definition indexTower (h : list Tower.t) (m : gmap (Z * Z) GridTower)
    (r : TowerRef) : gmap (Z * Z) GridTower :=
  match h !! r with
  | Some tower =>
      <[(Tower.gridRow tower, Tower.gridCol tower) := asGridTower tower]> m
  | None => m
  end.

(** *** Sample game states, on which the statements are exercised *)

Definition origin : Position := mkPosition 0 0.

(** A random source whose every draw is [x]. *)
Definition constantRng (x : float) : Rng := mkRng (fun _ => x) 0.

(** A fire projectile's hit of the given damage on the enemy [target]. *)
Definition fireHit (d : Z) (target : EnemyRef) : HitResult :=
  mkHitResult d false origin fire target.

Definition lightningHit (d : Z) (target : EnemyRef) : HitResult :=
  mkHitResult d false origin lightning target.

(** A wave-5 tank (500 health) carrying the ice status. *)
Definition icedTank : Enemy.t :=
  Enemy.applyStatus (StElement ice) (Enemy.new origin tank 5 None).

(** The same tank, resistant to fire. *)
Definition fireproofIcedTank : Enemy.t :=
  Enemy.applyStatus (StElement ice)
    (Enemy.new origin tank 5 (Some res_fire)).

(** A fire-resistant tank with no status. *)
Definition fireproofTank : Enemy.t := Enemy.new origin tank 5 (Some res_fire).

(** A boss of the first wave. *)
Definition firstBoss : Enemy.t := Enemy.new origin boss 1 None.

(** An iced enemy whose crowd-control immunity is 15/16. *)
Definition wardedIcedBoss : Enemy.t :=
  let b := Enemy.applyStatus (StElement ice) firstBoss in
  Enemy.mk (Enemy.position b) (Enemy.health b) (Enemy.maxHealth b)
    (Enemy.size b) (Enemy.isAlive b) (Enemy.enemyType b)
    (Enemy.resistance b) (Enemy.status b) (Enemy.statusDuration b)
    (Enemy.isFrozen b) (Enemy.freezeEndTime b) (Enemy.attackDamage b)
    (Enemy.lastAttackTime b) (Enemy.attackCooldown b)
    (Enemy.evasionChance b) (Enemy.priority b) 0.9375.

(** A ghost (evasion chance 0.5) five pixels to the right of a fire
    projectile that flies at it. *)
Definition nearbyGhost : Enemy.t :=
  Enemy.new (mkPosition 105 100) ghost 1 None.

Definition incomingShot : Projectile.t :=
  Projectile.new (mkPosition 100 100) 0 nearbyGhost fire 8 6 28.

(** A ghost ten pixels from the centre of a fire tower on cell (3, 3). *)
Definition lurkingGhost : Enemy.t :=
  Enemy.new (mkPosition 150 140) ghost 1 None.

Definition cornerTower : Tower.t :=
  Tower.new 3 3 (mkPosition 140 140) fire.

(** A tower on cell (3, 3) that has locked on enemy 0; a normal enemy
    (priority 1) 40 pixels from it and a boss (priority 5) 20 pixels from
    it. *)
Definition lockedTower : Tower.t :=
  Tower.set_currentTarget (Some 0%nat)
    (Tower.new 3 3 (mkPosition 140 140) fire).

Definition walker : Enemy.t := Enemy.new (mkPosition 180 140) normal 1 None.
Definition closeBoss : Enemy.t := Enemy.new (mkPosition 160 140) boss 1 None.

(** Two tanks (priority 3) 60 and 30 pixels from that cell, and a boss far
    beyond the tower's range of 120. *)
Definition farTank : Enemy.t := Enemy.new (mkPosition 140 200) tank 1 None.
Definition nearTank : Enemy.t := Enemy.new (mkPosition 140 170) tank 1 None.
Definition outOfReach : Enemy.t := Enemy.new (mkPosition 500 500) boss 1 None.

(** An oil-soaked tank at the origin, a tank exactly 80 pixels from it,
    an oil-soaked one 40 pixels from it and one 81 pixels from it. *)
Definition oilyTank : Enemy.t :=
  Enemy.applyStatus oil (Enemy.new origin tank 5 None).
Definition rimTank : Enemy.t := Enemy.new (mkPosition 80 0) tank 5 None.
Definition midOilyTank : Enemy.t :=
  Enemy.applyStatus oil (Enemy.new (mkPosition 0 40) tank 5 None).
Definition outsideTank : Enemy.t := Enemy.new (mkPosition 81 0) tank 5 None.

(** A fire tower on cell (3, 3) and a lightning tower on cell (3, 5),
    with their synergies computed (none); the cell (3, 4) between them is
    free. *)
Definition boardTowers : list Tower.t :=
  (SynergySystem.calculateAndApplySynergies [0%nat; 1%nat]
     [Tower.new 3 3 (mkPosition 140 140) fire;
      Tower.new 3 5 (mkPosition 220 140) lightning]).2.

(* ===================================================================== *)
(** ** Vocabulary of the further properties *)
(* ===================================================================== *)

(** *** Reactions *)

(** The reaction table read as a function: the reaction that a status
    and an attack element trigger, if any. *)
Definition reactionOf (s : option StatusType) (el : ElementType)
    : option ReactionType :=
  match s, el with
  | Some (StElement ice), fire => Some melt
  | Some (StElement ice), lightning => Some freeze
  | Some oil, fire => Some explosion
  | _, _ => None
  end.

(** The affected enemies that the explosion loop returns. *)
Definition blastList (epicenter : Position) (total : Z)
    (allEnemies : list EnemyRef) (heap : list Enemy.t) (p : EnemyRef)
    : list EnemyRef :=
  (fold_left (ReactionSystem.explosion_step epicenter total 80)
     allEnemies (heap, [p])).2.

(** *** Hit points *)

(** The methods of an enemy that write its combat state, as
    operations: [takeDamage], [heal], [applyStatus], [clearStatus],
    [freeze] and [attackTower]. *)
Inductive EnemyOp :=
  | Hit (damage : Z) (attackElement : option ElementType)
  | Heal (amount : Z)
  | Mark (s : StatusType)
  | Unmark
  | Chill (now duration : Z)
  | Strike (currentTime : float).

Definition enemyDo (e : Enemy.t) (op : EnemyOp) : Enemy.t :=
  match op with
  | Hit damage attackElement => (Enemy.takeDamage damage attackElement e).1
  | Heal amount => Boss.heal amount e
  | Mark s => Enemy.applyStatus s e
  | Unmark => Enemy.clearStatus e
  | Chill now duration => Enemy.freeze now duration e
  | Strike currentTime => (Enemy.attackTower currentTime e).1
  end.

(** Damage and healing by amounts that are not negative. *)
Definition gentle (op : EnemyOp) : Prop :=
  match op with
  | Hit damage _ => (0 <= damage)%Z
  | Heal amount => (0 <= amount)%Z
  | _ => True
  end.

(** The health of an enemy is between zero and its maximum, and above
    zero while it lives. *)
Definition healthInRange (e : Enemy.t) : Prop :=
  (0 <= Enemy.health e <= Enemy.maxHealth e)%Z
  /\ (Enemy.isAlive e = true -> (0 < Enemy.health e)%Z).

(** The methods of a tower that write its hit points, its synergies or
    its silence, as operations: [takeDamage], [heal], [setSynergies],
    [clearSynergies], [applySilence] and [checkSilenced]. *)
Inductive TowerOp :=
  | Batter (damage : Z)
  | Repair (amount : Z)
  | Synergise (synergies : list SynergyEffect)
  | Desynergise
  | Silence (now duration : Z)
  | Unsilence (now : Z).

(** A tower and the number of times [takeDamage] has reported its
    destruction. *)
Definition towerDo (st : Tower.t * nat) (op : TowerOp) : Tower.t * nat :=
  match op with
  | Batter damage =>
      let '(w, destroyed) := Tower.takeDamage damage st.1 in
      (w, if destroyed then S st.2 else st.2)
  | Repair amount => (TowerLife.heal amount st.1, st.2)
  | Synergise synergies => (Tower.setSynergies synergies st.1, st.2)
  | Desynergise => (TowerLife.clearSynergies st.1, st.2)
  | Silence now duration => (TowerLife.applySilence now duration st.1, st.2)
  | Unsilence now => ((TowerLife.checkSilenced now st.1).1, st.2)
  end.

Definition harmless (op : TowerOp) : Prop :=
  match op with
  | Batter damage => (0 <= damage)%Z
  | Repair amount => (0 <= amount)%Z
  | _ => True
  end.

(** The hit points of a tower are between zero and its maximum, and
    above zero exactly while it stands. *)
Definition hpInRange (w : Tower.t) : Prop :=
  (0 <= Tower.hp w <= Tower.maxHp w)%Z
  /\ (Tower.isAlive w = true <-> (0 < Tower.hp w)%Z).

(** *** Merging *)

(** A sequence of cards dropped on standing towers; the cards that
    merge are consumed, the others are handed back. *)
Definition mergeRun (towers : list TowerRef)
    (drops : list (TowerRef * ElementType)) (st : list Z * list Tower.t)
    : list Z * list Tower.t :=
  fold_left (fun st d => (Upkeep.mergeDrop towers d.1 d.2 st).1) drops st.

(** *** Firing *)

(** What [tryFire] requires of a tower at a frame: no silence still
    running, a living target in range, and the fire interval elapsed
    since the last shot. *)
Definition mayFire (heap : list Enemy.t) (currentTime : float)
    (w : Tower.t) (r : EnemyRef) (e : Enemy.t) : Prop :=
  (Tower.isSilenced w = true ->
   JS.geb currentTime (Tower.silenceEndTime w) = true)
  /\ Tower.currentTarget w = Some r
  /\ heap !! r = Some e
  /\ Enemy.isAlive e = true
  /\ PrimFloat.ltb (currentTime - Tower.lastFireTime w) (Tower.fireRate w)
     = false
  /\ Tower.isInRange e w = true.

(** The timestamps of the frames at which a tower fires, over a run of
    the tower pass. *)
Fixpoint shots (frames : list Frame) (w : Tower.t) : list float :=
  match frames with
  | [] => []
  | f :: rest =>
      let '(w1, p) := Game.towerTick f.1.1 f.1.2 f.2 w in
      match p with
      | Some _ => f.2 :: shots rest w1
      | None => shots rest w1
      end
  end.

(** Each shot of the list comes no sooner than [rate] after the one
    before it, the first no sooner than [rate] after [last]. *)
Fixpoint spaced (rate last : float) (times : list float) : Prop :=
  match times with
  | [] => True
  | t :: rest =>
      PrimFloat.ltb (t - last) rate = false /\ spaced rate t rest
  end.

(** *** Flight *)

(** The flight of a projectile over successive frames, in each of which
    its target is in some state: the hits it reports, in order, the
    projectile and the random source at the end. *)
Fixpoint flight (tgts : list Enemy.t) (g : Rng) (p : Projectile.t)
    : list HitResult * Projectile.t * Rng :=
  match tgts with
  | [] => ([], p, g)
  | tgt :: rest =>
      let '(p1, hit, g1) := Projectile.update tgt g p in
      let '(hits, p2, g2) := flight rest g1 p1 in
      (match hit with Some h => h :: hits | None => hits end, p2, g2)
  end.

(** *** Synergies *)

(** A cell of the board. *)
Definition onBoard (row col : Z) : Prop :=
  (0 <= row < GAME_CONFIG.GRID_ROWS)%Z /\ (0 <= col < GAME_CONFIG.GRID_COLS)%Z.

(** Among the towers of the list, one of element [el] stands on a cell
    of the board orthogonally next to the tower [w]. *)
Definition adjacentWith (h : list Tower.t) (towers : list TowerRef)
    (w : Tower.t) (el : ElementType) : Prop :=
  exists r' w',
    r' ∈ towers
    /\ h !! r' = Some w'
    /\ orthogonalNeighbour (Tower.gridRow w) (Tower.gridCol w) w'
    /\ onBoard (Tower.gridRow w') (Tower.gridCol w')
    /\ Tower.element w' = el.

(** The towers of the list that stand. *)
Definition standing (th : list Tower.t) (towers : list TowerRef)
    : list TowerRef :=
  List.filter (fun r => match th !! r with
                        | Some w => Tower.isAlive w
                        | None => false
                        end) towers.

(** On an integer [x], the product by 2 is exact, and the product by
    the literal 0.1 rounds down to the integer tenth. *)
Definition doubleExact (x : Z) : bool :=
  (JS.Math_floor (JS.Z2F x * 2.0) =? 2 * x)%Z.

Definition tenthExact (x : Z) : bool :=
  (JS.Math_floor (JS.Z2F x * 0x1.999999999999ap-4) =? x / 10)%Z.

(** A fire tower on cell (3, 3), an ice tower on (3, 4) next to it, a
    lightning tower on (4, 4) below the ice tower, and a fire tower on
    (5, 5), diagonal to the lightning tower: as placed, before any
    synergy is computed. *)
Definition quartet : list Tower.t :=
  [Tower.new 3 3 (mkPosition 140 140) fire;
   Tower.new 3 4 (mkPosition 180 140) ice;
   Tower.new 4 4 (mkPosition 180 180) lightning;
   Tower.new 5 5 (mkPosition 220 220) fire].

(** The same board with its synergies computed, then with the ice tower
    destroyed. *)
Definition quartetLive : list Tower.t :=
  (SynergySystem.calculateAndApplySynergies [0; 1; 2; 3]%nat quartet).2.

Definition quartetBroken : list Tower.t :=
  alter (fun w => (Tower.takeDamage 100 w).1) 1%nat quartetLive.

(** *** The melee pass *)

(** What the melee pass may do to an enemy: stamp the time of its
    attack. *)
Definition stamped (currentTime : float) (e e' : Enemy.t) : Prop :=
  e' = e \/ e' = Enemy.set_lastAttackTime currentTime e.

(** What the melee pass may do to a tower: take hit points from it
    while it stands, down to zero, and nothing else but its synergies. *)
Definition worn (w w' : Tower.t) : Prop :=
  (0 <= Tower.hp w' <= Tower.hp w)%Z
  /\ (Tower.isAlive w = false ->
      Tower.isAlive w' = false /\ Tower.hp w' = Tower.hp w)
  /\ Tower.maxHp w' = Tower.maxHp w
  /\ asGridTower w' = asGridTower w
  /\ Tower.position w' = Tower.position w.

(** What [worn] looks at. *)
Definition wearView (w : Tower.t)
    : Z * bool * Z * GridTower * Position :=
  (Tower.hp w, Tower.isAlive w, Tower.maxHp w, asGridTower w,
   Tower.position w).

(** *** Movement *)

(** The distance from an enemy to a tower, as [findNearestTower]
    computes it. *)
Definition towerDistance (m : Mover.t) (w : Tower.t) : float :=
  distance (Tower.position w) (Enemy.position (Mover.body m)).

(** A standing tower of the list. *)
Definition standingTower (th : list Tower.t) (towers : list TowerRef)
    (r : TowerRef) (w : Tower.t) : Prop :=
  r ∈ towers /\ th !! r = Some w /\ Tower.isAlive w = true.

(** What the loop of [findNearestTower] knows after the towers [seen]. *)
Definition NearestInv (th : list Tower.t) (m : Mover.t)
    (seen : list TowerRef) (acc : option TowerRef * float) : Prop :=
  match acc.1 with
  | None =>
      acc.2 = infinity
      /\ forall r' w', standingTower th seen r' w' ->
           PrimFloat.ltb (towerDistance m w') infinity = false
  | Some r =>
      exists w,
        standingTower th seen r w
        /\ acc.2 = towerDistance m w
        /\ PrimFloat.ltb (towerDistance m w) infinity = true
        /\ forall r' w', standingTower th seen r' w' ->
             PrimFloat.ltb (towerDistance m w') (towerDistance m w) = false
  end.

(** A frame of the enemy pass: the clock, the tower arena and the list
    of standing towers handed to [update]. *)
Definition Tick : Type := Z * list Tower.t * list TowerRef.

(** An enemy over successive frames of [update]. *)
Definition updates (frames : list Tick) (m : Mover.t) : Mover.t :=
  fold_left (fun m (f : Tick) => (Mover.update f.1.1 f.1.2 f.2 m).1)
    frames m.

(** What the movement of an enemy leaves alone. *)
Definition combatView (e : Enemy.t)
    : Z * bool * option StatusType * Z * bool * Z * EnemyType * Z :=
  (Enemy.health e, Enemy.isAlive e, Enemy.status e, Enemy.statusDuration e,
   Enemy.isFrozen e, Enemy.freezeEndTime e, Enemy.enemyType e,
   Enemy.attackDamage e).

Definition slowView (m : Mover.t) : float * float * bool * Z * float :=
  (Mover.speed m, Mover.baseSpeed m, Mover.isSlowed m, Mover.slowEndTime m,
   Mover.slowMultiplier m).

(** A normal enemy at the head of a path with a bend, a ghost, and a
    breaker next to the board of four towers. *)
Definition bentPath : list Position :=
  [mkPosition 0 0; mkPosition 3 0; mkPosition 3 4].

Definition pathWalker : Mover.t := Mover.new bentPath normal 1 None.

Definition sapper : Mover.t :=
  Mover.new [mkPosition 200 180; mkPosition 300 300] breaker 1 None.

(** The walker frozen at time 1000 for 2000 ms while it carried the ice
    status for another 1500 ms. *)
Definition frozenWalker : Mover.t :=
  Mover.set_body
    (Enemy.set_isFrozen true
       (Enemy.set_freezeEndTime 3000
          (Enemy.set_statusDuration 1500
             (Enemy.applyStatus (StElement ice) (Mover.body pathWalker)))))
    pathWalker.

(** The walker marked with fire. *)
Definition burningWalker : Mover.t :=
  Mover.set_body (Enemy.applyStatus (StElement fire) (Mover.body pathWalker))
    pathWalker.

(** *** Spells *)

(** A series of casts within a wave, each at a clock reading, of a
    spell, on a position; the enemies handed to each cast are the same
    list. *)
Definition castRun (allEnemies : list EnemyRef)
    (casts : list (Z * SpellType * Position))
    (st : gmap SpellType Z * list Mover.t) : gmap SpellType Z * list Mover.t :=
  fold_left
    (fun st c =>
       (SpellSystem.castSpell c.1.1 c.1.2 c.2 allEnemies st).1)
    casts st.

(** How many of the casts are of the spell [s]. *)
Definition requests (s : SpellType) (casts : list (Z * SpellType * Position))
    : Z :=
  Z.of_nat (length (List.filter (fun c => tag_eqb c.1.2 s) casts)).

(** The status a spell leaves, and the damage it deals at distance [d]
    from its target position. *)
Definition spellMark (s : SpellType) : StatusType :=
  match s with
  | meteor => StElement fire
  | blizzard => StElement ice
  | oil_bomb => oil
  end.

Definition spellDamage (s : SpellType) (d : float) : Z :=
  match s with
  | meteor => JS.Math_floor (JS.Z2F 200 * (1 - d / 60 * 0.5))%float
  | blizzard => 0%Z
  | oil_bomb => 30%Z
  end.

(** Whether a spell reaches an enemy: alive, and within the radius for
    the two aimed spells. *)
Definition reached (s : SpellType) (targetPosition : Position)
    (x : Mover.t) : bool :=
  Enemy.isAlive (Mover.body x)
  && match s with
     | blizzard => true
     | _ =>
         PrimFloat.leb
           (distance (Enemy.getCenter (Mover.body x)) targetPosition)
           (sp_radius (SPELL_CONFIGS s))
     end.

(** What a spell does to an enemy. *)
Definition struck (now : Z) (s : SpellType) (targetPosition : Position)
    (x : Mover.t) : Mover.t :=
  if reached s targetPosition x then
    let d := distance (Enemy.getCenter (Mover.body x)) targetPosition in
    let x1 :=
      match s with
      | blizzard => Mover.applySlow now 3000 0x1.999999999999ap-2 x
      | _ =>
          Mover.set_body
            (Enemy.loseHealth (spellDamage s d) (Mover.body x)) x
      end in
    Mover.set_body (Enemy.applyStatus (spellMark s) (Mover.body x1)) x1
  else x.

(** Whether, and with what damage, a spell reaches an enemy of the
    arena. *)
Definition reachedRef (s : SpellType) (targetPosition : Position)
    (heap : list Mover.t) (r : EnemyRef) : bool :=
  match heap !! r with
  | Some x => reached s targetPosition x
  | None => false
  end.

Definition damageRef (s : SpellType) (targetPosition : Position)
    (heap : list Mover.t) (r : EnemyRef) : Z :=
  match heap !! r with
  | Some x =>
      if reached s targetPosition x
      then spellDamage s
             (distance (Enemy.getCenter (Mover.body x)) targetPosition)
      else 0%Z
  | None => 0%Z
  end.

(** A fire-resistant tank carrying ice at the origin, a boss 30 pixels
    from it, a tank beyond the meteor's reach and a tank already dead:
    enemies as a spell finds them. *)
Definition horde : list Mover.t :=
  [Mover.set_body
     (Enemy.applyStatus (StElement ice)
        (Mover.body (Mover.new [origin] tank 5 (Some res_fire))))
     (Mover.new [origin] tank 5 (Some res_fire));
   Mover.new [mkPosition 30 0] boss 1 None;
   Mover.new [mkPosition 100 0] tank 5 None;
   Mover.set_body
     (Enemy.takeDamage 500 None (Mover.body (Mover.new [origin] tank 5 None))).1
     (Mover.new [origin] tank 5 None)].

(** The damage a spell deals over a list of enemies, as the spell counts
    it: the nominal damage on each enemy it reaches. *)
Definition damageOver (s : SpellType) (targetPosition : Position)
    (heap : list Mover.t) (rs : list EnemyRef) : Z :=
  foldr (fun r acc => (damageRef s targetPosition heap r + acc)%Z) 0%Z rs.

(** *** The synergy summary *)

(** How many synergies of kind [k] a list of synergies holds, and how
    many the listed towers hold together. *)
Definition countOf (k : SynergyType) (l : list SynergyEffect) : Z :=
  Z.of_nat (length (List.filter (fun s => tag_eqb (synergyType s) k) l)).

Definition tally (k : SynergyType) (towers : list TowerRef)
    (h : list Tower.t) : Z :=
  foldr (fun r acc =>
           (match h !! r with
            | Some w => countOf k (Tower.activeSynergies w)
            | None => 0
            end + acc)%Z)
    0%Z towers.

(** The entry of a summary for a count: none for zero. *)
Definition entryFor (n : Z) : option Z :=
  if (n =? 0)%Z then None else Some n.

(** *** The enemy pass *)

(** The number of living enemies of an arena. *)
Definition liveCount (l : list Mover.t) : Z :=
  Z.of_nat (length (List.filter (fun x => Enemy.isAlive (Mover.body x)) l)).

(** No enemy of the arena is a boss. *)
Definition noBosses (l : list Mover.t) : Prop :=
  forall i x, l !! i = Some x -> Enemy.enemyType (Mover.body x) <> boss.

(** A frame of the enemy pass: the timestamp, the clock, the tower list,
    the standing towers and the enemy list. *)
Definition PassFrame : Type :=
  float * Z * list TowerRef * list TowerRef * list EnemyRef.

Definition passes (bossStep : EnemyRef -> EnemyPass.World -> EnemyPass.World)
    (frames : list PassFrame) (w : EnemyPass.World) : EnemyPass.World :=
  fold_left
    (fun w (f : PassFrame) =>
       EnemyPass.enemyPass bossStep f.1.1.1.1 f.1.1.1.2 f.1.1.2 f.1.2 f.2 w)
    frames w.

(** A boss step that does nothing, for worlds without a boss. *)
Definition idleBoss (er : EnemyRef) (w : EnemyPass.World) : EnemyPass.World :=
  w.

(** The sapper locked on the lightning tower of the board, which it
    touches; and a normal enemy one step from the end of its path. *)
Definition lockedSapper : Mover.t := Mover.set_targetTower (Some 2%nat) sapper.

Definition arriving : Mover.t :=
  Mover.new [mkPosition 299 300; mkPosition 300 300] normal 1 None.

Definition siege : EnemyPass.World :=
  EnemyPass.mkWorld [lockedSapper; arriving] quartetLive 100.

(** The enemy pass never gives the base hit points back, never raises
    the number of living enemies, and takes 10 hit points from the base
    only as a living enemy dies. *)
Definition paidFor (w w' : EnemyPass.World) : Prop :=
  (EnemyPass.baseHP w' <= EnemyPass.baseHP w)%Z
  /\ (liveCount (EnemyPass.enemies w') <= liveCount (EnemyPass.enemies w))%Z
  /\ (EnemyPass.baseHP w - EnemyPass.baseHP w'
      <= 10 * (liveCount (EnemyPass.enemies w)
               - liveCount (EnemyPass.enemies w')))%Z.

(* ===================================================================== *)
(** * Properties of the combat core *)
(* ===================================================================== *)

(** ** Arena updates *)

Lemma alter_lookup_Some {A} (f : A -> A) (l : list A) (i : nat) (x : A) :
  l !! i = Some x -> alter f i l = <[i := f x]> l.
Proof.
  revert i. induction l as [|y l IH]; intros [|i] H; simplify_eq/=; auto.
  f_equal. by apply IH.
Qed.

Lemma insert_lookup_same {A} (l : list A) (i : nat) (x y : A) :
  l !! i = Some x -> <[i := y]> l !! i = Some y.
Proof.
  intros H. apply list_lookup_insert_eq. by eapply lookup_lt_Some.
Qed.

(** ** Exact products by dyadic factors *)

Lemma allFrom_spec n z f :
  allFrom n z f = true ->
  forall x, (z <= x < z + Z.of_nat n)%Z -> f x = true.
Proof.
  revert z. induction n as [|n IH]; intros z H x Hx; [lia|].
  simpl in H. apply andb_true_iff in H as [Hz Hrest].
  destruct (decide (x = z)) as [->|Hne]; [done|].
  apply (IH (z + 1)%Z Hrest). lia.
Qed.

(** Checked on every integer from 0 to 15000, which covers every damage
    value of the game by a wide margin (a fire tower deals at most 336). *)
Lemma dyadicExact_upto_15000 :
  allFrom (Z.to_nat 15001) 0 dyadicExact = true.
Proof. vm_compute. reflexivity. Qed.

Lemma dyadic_products x :
  (0 <= x <= 15000)%Z ->
  JS.Math_floor (JS.Z2F x * 1.5) = (3 * x / 2)%Z
  /\ JS.Math_floor (JS.Z2F x * 3.0) = (3 * x)%Z
  /\ JS.Math_floor (JS.Z2F x * 1) = x
  /\ JS.Math_floor (JS.Z2F x * 0.5) = (x / 2)%Z.
Proof.
  intros Hx.
  pose proof (allFrom_spec _ _ _ dyadicExact_upto_15000 x ltac:(lia)) as H.
  unfold dyadicExact in H.
  apply andb_true_iff in H as [[[H1 H2]%andb_true_iff H3]%andb_true_iff H4].
  apply Z.eqb_eq in H1, H2, H3, H4. done.
Qed.

(** ** Damage and resistance *)

Section Damage.

Variables (damage : Z) (e : Enemy.t).

Lemma loseHealth_health :
  Enemy.health (Enemy.loseHealth damage e)
  = healthAfter damage (Enemy.health e).
Proof.
  unfold Enemy.loseHealth, healthAfter; simpl.
  by destruct (Enemy.health e - damage <=? 0)%Z.
Qed.

Lemma loseHealth_isAlive :
  Enemy.isAlive (Enemy.loseHealth damage e)
  = if (Enemy.health e - damage <=? 0)%Z then false else Enemy.isAlive e.
Proof.
  unfold Enemy.loseHealth; simpl.
  by destruct (Enemy.health e - damage <=? 0)%Z.
Qed.

Lemma loseHealth_status :
  Enemy.status (Enemy.loseHealth damage e) = Enemy.status e.
Proof.
  unfold Enemy.loseHealth; simpl.
  by destruct (Enemy.health e - damage <=? 0)%Z.
Qed.

Lemma loseHealth_position :
  Enemy.position (Enemy.loseHealth damage e) = Enemy.position e.
Proof.
  unfold Enemy.loseHealth; simpl.
  by destruct (Enemy.health e - damage <=? 0)%Z.
Qed.

Lemma loseHealth_freeze :
  Enemy.isFrozen (Enemy.loseHealth damage e) = Enemy.isFrozen e
  /\ Enemy.freezeEndTime (Enemy.loseHealth damage e)
     = Enemy.freezeEndTime e.
Proof.
  unfold Enemy.loseHealth; simpl.
  by destruct (Enemy.health e - damage <=? 0)%Z.
Qed.

(** Without an attack element the damage is taken in full, whatever
    the resistance. *)
Lemma takeDamage_no_element :
  Enemy.takeDamage damage None e = (Enemy.loseHealth damage e, damage).
Proof.
  unfold Enemy.takeDamage, tag_eqb; simpl.
  by destruct (Enemy.resistance e).
Qed.

Lemma takeDamage_physical :
  Enemy.takeDamage damage (Some physical) e
  = (Enemy.loseHealth damage e, damage).
Proof. reflexivity. Qed.

Lemma takeDamage_resisted (r : ResistanceType) :
  Enemy.resistance e = Some r ->
  Enemy.takeDamage damage (Some (resistanceElement r)) e
  = (Enemy.loseHealth 1 e, 1%Z).
Proof.
  intros Hr. unfold Enemy.takeDamage, tag_eqb. rewrite Hr.
  by destruct r.
Qed.

Lemma takeDamage_unresisted (el : ElementType) :
  resistanceElement <$> Enemy.resistance e <> Some el ->
  Enemy.takeDamage damage (Some el) e
  = (Enemy.loseHealth damage e, damage).
Proof.
  intros Hne. unfold Enemy.takeDamage, tag_eqb.
  destruct (bool_decide _); [done|].
  destruct (Enemy.resistance e) as [r|]; [|done].
  rewrite bool_decide_eq_false_2; [done|].
  intros [= ->]. by apply Hne.
Qed.

End Damage.

(** ** Reactions *)

Lemma findReaction_ice_fire :
  ReactionSystem.findReaction (StElement ice) fire
  = Some (melt, REACTION_CONFIGS melt).
Proof. reflexivity. Qed.

Lemma findReaction_ice_lightning :
  ReactionSystem.findReaction (StElement ice) lightning
  = Some (freeze, REACTION_CONFIGS freeze).
Proof. reflexivity. Qed.

Lemma findReaction_oil_fire :
  ReactionSystem.findReaction oil fire
  = Some (explosion, REACTION_CONFIGS explosion).
Proof. reflexivity. Qed.

(** The melt reaction on the arena: one [takeDamage] of the tripled
    damage, with no attack element, then the status is cleared. *)
Lemma checkAndTriggerReaction_melt now enemy baseDamage allEnemies
    (heap : EnemyHeap) e :
  heap !! enemy = Some e ->
  Enemy.status e = Some (StElement ice) ->
  let total := JS.Math_floor (JS.Z2F baseDamage * 3.0) in
  ReactionSystem.checkAndTriggerReaction now enemy fire baseDamage
    allEnemies heap
  = (<[enemy := Enemy.clearStatus (Enemy.loseHealth total e)]> heap,
     Some (mkReactionResult melt (REACTION_CONFIGS melt)
             (Enemy.getCenter e) total [enemy])).
Proof.
  intros He Hs total.
  unfold ReactionSystem.checkAndTriggerReaction.
  rewrite He, Hs, findReaction_ice_fire.
  unfold ReactionSystem.executeReaction. rewrite He.
  change (JS.or_default (damageMultiplier (REACTION_CONFIGS melt)) 3)
    with 3.0%float.
  fold total. f_equal.
  rewrite (alter_lookup_Some _ _ _ _ He), takeDamage_no_element. simpl fst.
  erewrite alter_lookup_Some by (by eapply insert_lookup_same).
  by rewrite list_insert_insert_eq.
Qed.

(** C1.  An enemy carrying the ice status that is hit (and does not
    evade) by a fire attack of base damage [B] undergoes the melt
    reaction: the hit is resolved as a reaction of damage
    [floor (B * 3.0)]; the enemy loses exactly that much health (down to
    zero at most) through a single [takeDamage], its status ends as none,
    and nothing else is applied to it: the caller does not add the
    un-reacted damage.  For [B = 100] the damage is 300, and it is [3 * B]
    for every [B] up to 10000. *)
Theorem C1_melt_replaces_raw_damage
    now enemies hitResult (heap : EnemyHeap) g e :
  heap !! hit_target hitResult = Some e ->
  Enemy.status e = Some (StElement ice) ->
  hit_element hitResult = fire ->
  Enemy.tryEvade (draws g (cursor g)) e = false ->
  let total := JS.Math_floor (JS.Z2F (hit_damage hitResult) * 3.0) in
  let e' := Enemy.clearStatus (Enemy.loseHealth total e) in
  Game.resolveHit now enemies hitResult heap g
  = (<[hit_target hitResult := e']> heap, snd (random g),
     Some (Game.Reacted
             (mkReactionResult melt (REACTION_CONFIGS melt)
                (Enemy.getCenter e) total [hit_target hitResult])))
  /\ Enemy.health e' = healthAfter total (Enemy.health e)
  /\ Enemy.status e' = None
  /\ JS.Math_floor (JS.Z2F 100 * 3.0) = 300%Z
  /\ ((0 <= hit_damage hitResult <= 10000)%Z ->
      total = (3 * hit_damage hitResult)%Z).
Proof.
  intros He Hs Hel Hev total e'. split; [|split; [|split; [|split]]].
  - unfold Game.resolveHit, random. rewrite He, Hev, Hel.
    by rewrite (checkAndTriggerReaction_melt now _ _ enemies heap e He Hs).
  - unfold e'. simpl. apply loseHealth_health.
  - reflexivity.
  - reflexivity.
  - intros HB.
    by destruct (dyadic_products (hit_damage hitResult) ltac:(lia))
      as (_ & H3 & _).
Qed.

(** The statement of C1 on a tank of 500 health carrying the ice status,
    hit for 100. *)
Lemma C1_melt_witness :
  ([icedTank] !! 0%nat = Some icedTank
   /\ Enemy.status icedTank = Some (StElement ice)
   /\ Enemy.tryEvade 0.5 icedTank = false)
  /\ Enemy.health icedTank = 500%Z
  /\ (Enemy.health
        <$> (Game.resolveHit 0 [0%nat] (fireHit 100 0) [icedTank]
               (constantRng 0.5)).1.1 !! 0%nat)
     = Some 200%Z.
Proof.
  split; [by repeat split|]. split; [reflexivity|].
  rewrite (proj1 (C1_melt_replaces_raw_damage 0 [0%nat] (fireHit 100 0)
                    [icedTank] (constantRng 0.5) icedTank
                    eq_refl eq_refl eq_refl eq_refl)).
  reflexivity.
Defined.

(** ** Resistance *)

(** A hit that triggers no reaction goes through [takeDamage] with its
    element, after the element has been written as the status. *)
Lemma resolveHit_no_reaction now enemies hitResult (heap : EnemyHeap) g e :
  heap !! hit_target hitResult = Some e ->
  Enemy.tryEvade (draws g (cursor g)) e = false ->
  (forall s, Enemy.status e = Some s ->
             ReactionSystem.findReaction s (hit_element hitResult) = None) ->
  let e1 := Enemy.applyStatus (StElement (hit_element hitResult)) e in
  let r := Enemy.takeDamage (hit_damage hitResult)
             (Some (hit_element hitResult)) e1 in
  Game.resolveHit now enemies hitResult heap g
  = (<[hit_target hitResult := r.1]> heap, snd (random g),
     Some (Game.Damaged r.2)).
Proof.
  intros He Hev Hnone e1 r.
  unfold Game.resolveHit, random. rewrite He, Hev.
  unfold ReactionSystem.checkAndTriggerReaction. rewrite He.
  assert (Hl : alter (Enemy.applyStatus (StElement (hit_element hitResult)))
                 (hit_target hitResult) heap !! hit_target hitResult
               = Some e1).
  { by rewrite list_lookup_alter_eq, He. }
  assert (Hins : <[hit_target hitResult := r.1]>
                   (alter (Enemy.applyStatus
                             (StElement (hit_element hitResult)))
                      (hit_target hitResult) heap)
                 = <[hit_target hitResult := r.1]> heap).
  { rewrite (alter_lookup_Some _ _ _ _ He).
    by rewrite list_insert_insert_eq. }
  destruct (Enemy.status e) as [s|] eqn:Hs.
  - rewrite (Hnone s eq_refl). cbv zeta. rewrite Hl.
    fold r. destruct r as [e2 actual]. simpl in *. by rewrite Hins.
  - cbv zeta. rewrite Hl.
    fold r. destruct r as [e2 actual]. simpl in *. by rewrite Hins.
Qed.

(** C2, as the claim states it, fails on a reaction: a fire-resistant
    enemy (500 health) carrying the ice status and hit by a fire attack of
    damage 100 melts and loses 300 health, not 1. *)
Lemma C2_reaction_ignores_resistance :
  Enemy.isResistantTo fire fireproofIcedTank = true
  /\ Enemy.health fireproofIcedTank = 500%Z
  /\ (Enemy.health
        <$> (Game.resolveHit 0 [0%nat] (fireHit 100 0) [fireproofIcedTank]
               (constantRng 0.5)).1.1 !! 0%nat)
     = Some 200%Z
  /\ (500 - 200 <> 1)%Z.
Proof. repeat split; try reflexivity. lia. Qed.

(** C2, amended.  Resistance is checked where [takeDamage] is given the
    attack element, which is on hits that trigger no reaction: there a
    hit of element [E] and damage [D] on an enemy resistant to [E] deals
    exactly 1, and a physical hit deals [D] whatever the resistance.
    Reactions call [takeDamage] without an element, and their damage is
    taken in full whatever the resistance. *)
Theorem C2_resistance_on_unreacted_hits
    now enemies hitResult (heap : EnemyHeap) g e :
  heap !! hit_target hitResult = Some e ->
  Enemy.tryEvade (draws g (cursor g)) e = false ->
  (forall s, Enemy.status e = Some s ->
             ReactionSystem.findReaction s (hit_element hitResult) = None) ->
  let E := hit_element hitResult in
  let D := hit_damage hitResult in
  let applied := if Enemy.isResistantTo E e then 1%Z else D in
  Game.resolveHit now enemies hitResult heap g
  = (<[hit_target hitResult
       := Enemy.loseHealth applied (Enemy.applyStatus (StElement E) e)]>
       heap,
     snd (random g), Some (Game.Damaged applied))
  /\ (E = physical -> applied = D)
  /\ (resistanceElement <$> Enemy.resistance e = Some E -> applied = 1%Z)
  /\ (forall d, Enemy.takeDamage d None e = (Enemy.loseHealth d e, d)).
Proof.
  intros He Hev Hnone E D applied.
  assert (Hphys : E = physical -> applied = D).
  { intros HE. unfold applied, Enemy.isResistantTo, tag_eqb. by rewrite HE. }
  assert (Hres : resistanceElement <$> Enemy.resistance e = Some E ->
                 applied = 1%Z).
  { intros HE. unfold applied, Enemy.isResistantTo, tag_eqb.
    rewrite HE. rewrite (bool_decide_eq_true_2 (Some E = Some E)) by done.
    destruct (Enemy.resistance e) as [r|]; [|done].
    injection HE as <-. by destruct r. }
  split; [|split; [done|split; [done|]]].
  - rewrite (resolveHit_no_reaction now enemies hitResult heap g e He Hev Hnone).
    fold E D.
    set (e1 := Enemy.applyStatus (StElement E) e).
    assert (Hr : Enemy.resistance e1 = Enemy.resistance e) by reflexivity.
    destruct (decide (E = physical)) as [HE|HE].
    + rewrite (Hphys HE), HE. by rewrite takeDamage_physical.
    + destruct (decide (resistanceElement <$> Enemy.resistance e = Some E))
        as [HR|HR].
      * rewrite (Hres HR).
        destruct (Enemy.resistance e) as [r|] eqn:Hre; [|done].
        injection HR as HR. rewrite <- HR.
        by rewrite (takeDamage_resisted D e1 r Hr).
      * assert (applied = D) as ->.
        { unfold applied, Enemy.isResistantTo, tag_eqb.
          rewrite bool_decide_eq_false_2 by done.
          by rewrite bool_decide_eq_false_2. }
        rewrite takeDamage_unresisted; [done|]. by rewrite Hr.
  - intros d. apply takeDamage_no_element.
Qed.

(** The statement of C2 on a fire-resistant tank with no status, hit by
    fire for 100: it loses 1. *)
Lemma C2_resistance_witness :
  ([fireproofTank] !! 0%nat = Some fireproofTank
   /\ Enemy.tryEvade 0.5 fireproofTank = false
   /\ Enemy.status fireproofTank = None)
  /\ Enemy.health fireproofTank = 500%Z
  /\ (Enemy.health
        <$> (Game.resolveHit 0 [0%nat] (fireHit 100 0) [fireproofTank]
               (constantRng 0.5)).1.1 !! 0%nat)
     = Some 499%Z.
Proof.
  split; [by repeat split|]. split; [reflexivity|].
  rewrite (proj1 (C2_resistance_on_unreacted_hits 0 [0%nat] (fireHit 100 0)
                    [fireproofTank] (constantRng 0.5) fireproofTank
                    eq_refl eq_refl
                    (fun s (H : None = Some s) =>
                       match H with end))).
  reflexivity.
Defined.

(** ** Freezing and crowd-control immunity *)

Section Freeze.

Variables (now duration : Z) (e : Enemy.t).

(** [freeze] drops an effect whose reduced duration, the floor of the
    binary64 product of the nominal duration and [1 - ccImmunity], is
    below 200 ms. *)
Lemma freeze_discarded :
  (JS.Math_floor (JS.Z2F duration * (1 - Enemy.ccImmunity e))%float < 200)%Z ->
  Enemy.freeze now duration e = e.
Proof.
  intros H. unfold Enemy.freeze.
  by rewrite (proj2 (Z.ltb_lt _ _) H).
Qed.

(** Otherwise the enemy is frozen for that reduced duration. *)
Lemma freeze_applied :
  (200 <= JS.Math_floor (JS.Z2F duration * (1 - Enemy.ccImmunity e))%float)%Z ->
  Enemy.freeze now duration e
  = Enemy.set_status (Some frozen)
      (Enemy.set_freezeEndTime
         (now + JS.Math_floor
                  (JS.Z2F duration * (1 - Enemy.ccImmunity e))%float)
         (Enemy.set_isFrozen true e)).
Proof.
  intros H. unfold Enemy.freeze.
  by rewrite (proj2 (Z.ltb_ge _ _) H).
Qed.

End Freeze.

Lemma checkAndTriggerReaction_freeze now enemy baseDamage allEnemies
    (heap : EnemyHeap) e :
  heap !! enemy = Some e ->
  Enemy.status e = Some (StElement ice) ->
  ReactionSystem.checkAndTriggerReaction now enemy lightning baseDamage
    allEnemies heap
  = (<[enemy := Enemy.clearStatus (Enemy.freeze now 2000 e)]> heap,
     Some (mkReactionResult freeze (REACTION_CONFIGS freeze)
             (Enemy.getCenter e) baseDamage [enemy])).
Proof.
  intros He Hs.
  unfold ReactionSystem.checkAndTriggerReaction.
  rewrite He, Hs, findReaction_ice_lightning.
  unfold ReactionSystem.executeReaction. rewrite He.
  change (JS.or_defaultZ (freezeDuration (REACTION_CONFIGS freeze))
            2000) with 2000%Z.
  f_equal.
  rewrite (alter_lookup_Some _ _ _ _ He).
  erewrite alter_lookup_Some by (by eapply insert_lookup_same).
  by rewrite list_insert_insert_eq.
Qed.

(** The boss's immunity is the binary64 value of the literal [0.8]; one
    minus it is 0.19999999999999996, and 2000 times that is just below
    400. *)
Lemma boss_freeze_duration :
  JS.Math_floor (JS.Z2F 2000 * (1 - 0x1.999999999999ap-1))%float = 399%Z.
Proof. reflexivity. Qed.

(** C3.  What the program does at the claim's example: a boss (immunity
    0.8) carrying the ice status and hit by lightning is frozen, by the
    freeze reaction of nominal duration 2000 ms, until [now + 399], not
    [now + 400]: the subtraction [1 - 0.8] and the product are rounded to
    binary64 before [Math.floor].  (The status written by [freeze] is then
    cleared by the reaction.)  The rest of the claim holds: a nominal
    duration of 200 ms leaves the boss as it is, and in general [freeze]
    does nothing when the reduced duration is below 200 and freezes for
    the reduced duration otherwise. *)
Theorem C3_boss_freeze_is_399ms now start wave baseDamage allEnemies :
  let b := Enemy.applyStatus (StElement ice)
             (Enemy.new start boss wave None) in
  let b' := Enemy.clearStatus
              (Enemy.set_status (Some frozen)
                 (Enemy.set_freezeEndTime (now + 399)
                    (Enemy.set_isFrozen true b))) in
  Enemy.ccImmunity b = 0x1.999999999999ap-1%float
  /\ ReactionSystem.checkAndTriggerReaction now 0 lightning baseDamage
       allEnemies [b]
     = ([b'],
        Some (mkReactionResult freeze
                (REACTION_CONFIGS freeze)
                (Enemy.getCenter b) baseDamage [0%nat]))
  /\ Enemy.isFrozen b' = true
  /\ Enemy.freezeEndTime b' = (now + 399)%Z
  /\ Enemy.freeze now 200 b = b
  /\ (forall T e,
        (JS.Math_floor (JS.Z2F T * (1 - Enemy.ccImmunity e))%float < 200)%Z ->
        Enemy.freeze now T e = e)
  /\ (forall T e,
        (200 <= JS.Math_floor (JS.Z2F T * (1 - Enemy.ccImmunity e))%float)%Z ->
        Enemy.isFrozen (Enemy.freeze now T e) = true
        /\ Enemy.freezeEndTime (Enemy.freeze now T e)
           = (now + JS.Math_floor
                      (JS.Z2F T * (1 - Enemy.ccImmunity e))%float)%Z).
Proof.
  intros b b'. split; [reflexivity|].
  split; [|split; [done|split; [done|split; [done|split]]]].
  - rewrite (checkAndTriggerReaction_freeze now 0 baseDamage allEnemies
               [b] b) by reflexivity.
    rewrite freeze_applied;
      change (Enemy.ccImmunity b) with 0x1.999999999999ap-1%float;
      by rewrite boss_freeze_duration.
  - intros T e. apply freeze_discarded.
  - intros T e H. by rewrite freeze_applied.
Qed.

(** C10.  An enemy carrying the ice status whose immunity [c] makes
    [floor (2000 * (1 - c))] fall below 200, when hit (and not evading)
    by lightning: the freeze reaction fires, the enemy's status is
    cleared, and nothing else about it changes.  It is not frozen, no
    freeze end time is set, it takes no damage, and lightning does not
    become its status. *)
Theorem C10_short_freeze_consumes_status
    now enemies hitResult (heap : EnemyHeap) g e :
  heap !! hit_target hitResult = Some e ->
  Enemy.status e = Some (StElement ice) ->
  hit_element hitResult = lightning ->
  Enemy.tryEvade (draws g (cursor g)) e = false ->
  (JS.Math_floor (JS.Z2F 2000 * (1 - Enemy.ccImmunity e))%float < 200)%Z ->
  let e' := Enemy.clearStatus e in
  Game.resolveHit now enemies hitResult heap g
  = (<[hit_target hitResult := e']> heap, snd (random g),
     Some (Game.Reacted
             (mkReactionResult freeze
                (REACTION_CONFIGS freeze) (Enemy.getCenter e)
                (hit_damage hitResult) [hit_target hitResult])))
  /\ Enemy.status e' = None
  /\ Enemy.isFrozen e' = Enemy.isFrozen e
  /\ Enemy.freezeEndTime e' = Enemy.freezeEndTime e
  /\ Enemy.health e' = Enemy.health e
  /\ Enemy.isAlive e' = Enemy.isAlive e.
Proof.
  intros He Hs Hel Hev Hshort e'. split; [|by repeat split].
  unfold Game.resolveHit, random. rewrite He, Hev, Hel.
  rewrite (checkAndTriggerReaction_freeze now _ _ enemies heap e He Hs).
  by rewrite (freeze_discarded now 2000 e Hshort).
Qed.

(** The statement of C10 on an iced enemy of immunity 15/16, for which
    the reduced duration is 125 ms. *)
Lemma C10_short_freeze_witness :
  ([wardedIcedBoss] !! 0%nat = Some wardedIcedBoss
   /\ Enemy.status wardedIcedBoss = Some (StElement ice)
   /\ Enemy.tryEvade 0.5 wardedIcedBoss = false
   /\ (JS.Math_floor
         (JS.Z2F 2000 * (1 - Enemy.ccImmunity wardedIcedBoss))%float
       < 200)%Z)
  /\ (Game.resolveHit 0 [0%nat] (lightningHit 28 0) [wardedIcedBoss]
        (constantRng 0.5)).1.1
     = [Enemy.clearStatus wardedIcedBoss].
Proof.
  split; [by repeat split|].
  rewrite (proj1 (C10_short_freeze_consumes_status 0 [0%nat]
                    (lightningHit 28 0) [wardedIcedBoss] (constantRng 0.5)
                    wardedIcedBoss eq_refl eq_refl eq_refl eq_refl
                    eq_refl)).
  reflexivity.
Defined.

(** ** Evasion *)

Lemma updateVelocity_frame tgt p :
  Projectile.target (Projectile.updateVelocity tgt p) = Projectile.target p
  /\ Projectile.element (Projectile.updateVelocity tgt p)
     = Projectile.element p
  /\ Projectile.damage (Projectile.updateVelocity tgt p)
     = Projectile.damage p.
Proof.
  unfold Projectile.updateVelocity.
  destruct (negb _); [done|]. by destruct (JS.gtb _ _).
Qed.

(** A projectile reports a hit only when it is in flight, its target is
    alive and the collision test has passed at its new position; the
    critical-hit draw is the one draw [update] makes. *)
Lemma Projectile_update_hit tgt g p h :
  (Projectile.update tgt g p).1.2 = Some h ->
  Projectile.isActive p = true
  /\ Enemy.isAlive tgt = true
  /\ Projectile.checkCollision tgt (Projectile.update tgt g p).1.1 = true
  /\ Projectile.isActive (Projectile.update tgt g p).1.1 = false
  /\ (Projectile.update tgt g p).2 = snd (random g)
  /\ hit_target h = Projectile.target p
  /\ hit_element h = Projectile.element p.
Proof.
  unfold Projectile.update.
  destruct (Projectile.isActive p) eqn:Hact; simpl; [|done].
  destruct (Projectile.isOutOfBounds _) eqn:Hout; [done|].
  destruct (Enemy.isAlive tgt) eqn:Halive; simpl; [|done].
  destruct (Projectile.checkCollision _ _) eqn:Hcol; simpl; [|done].
  intros [= <-]. simpl.
  destruct (updateVelocity_frame tgt p) as (-> & -> & _).
  by repeat split.
Qed.

(** Without a hit, no draw is made and the arena is not touched. *)
Lemma projectileTick_no_hit now enemies p (heap : EnemyHeap) g tgt :
  heap !! Projectile.target p = Some tgt ->
  (Projectile.update tgt g p).1.2 = None ->
  Game.projectileTick now enemies p heap g
  = ((Projectile.update tgt g p).1.1, heap, g, None).
Proof.
  intros Ht Hnone. unfold Game.projectileTick. rewrite Ht.
  destruct (Projectile.update tgt g p) as [[p1 hr] g1] eqn:Hu.
  simpl in Hnone. subst hr. simpl.
  enough (g1 = g) by congruence.
  revert Hu. unfold Projectile.update.
  destruct (negb (Projectile.isActive p)); [congruence|].
  destruct (Projectile.isOutOfBounds _); [congruence|].
  destruct (_ && _); [|congruence].
  simpl. discriminate.
Qed.

Lemma resolveHit_evaded now enemies hitResult (heap : EnemyHeap) g e :
  heap !! hit_target hitResult = Some e ->
  Enemy.tryEvade (draws g (cursor g)) e = true ->
  Game.resolveHit now enemies hitResult heap g
  = (heap, snd (random g), Some Game.Evaded).
Proof.
  intros He Hev. unfold Game.resolveHit, random. by rewrite He, Hev.
Qed.

(** C8.  When a projectile's [update] reports a hit on its target, which
    it does only once the collision test has passed, the next draw of the
    random source is the evasion roll; if that roll is below the target's
    evasion chance, the iteration ends there: the arena of enemies is
    returned as it was (health and status of the target and of every other
    enemy unchanged), the outcome is [Evaded], and neither the reaction
    system nor [takeDamage] has run. *)
Theorem C8_evasion_nullifies_hit
    now enemies p (heap : EnemyHeap) g tgt h :
  heap !! Projectile.target p = Some tgt ->
  (Projectile.update tgt g p).1.2 = Some h ->
  let g1 := (Projectile.update tgt g p).2 in
  Enemy.tryEvade (draws g1 (cursor g1)) tgt = true ->
  Game.projectileTick now enemies p heap g
  = ((Projectile.update tgt g p).1.1, heap, snd (random g1),
     Some Game.Evaded)
  /\ Projectile.checkCollision tgt (Projectile.update tgt g p).1.1 = true
  /\ cursor g1 = S (cursor g)
  /\ Game.resolveHit now enemies h heap g1
     = (heap, snd (random g1), Some Game.Evaded).
Proof.
  intros Ht Hh g1 Hev.
  destruct (Projectile_update_hit tgt g p h Hh)
    as (_ & _ & Hcol & _ & Hg & Htgt & _).
  assert (Hres : Game.resolveHit now enemies h heap g1
                 = (heap, snd (random g1), Some Game.Evaded)).
  { apply (resolveHit_evaded now enemies h heap g1 tgt); [|done].
    by rewrite Htgt. }
  split; [|split; [done|split; [|done]]].
  - unfold Game.projectileTick. rewrite Ht.
    fold g1 in Hres |- *.
    destruct (Projectile.update tgt g p) as [[p1 hr] g'] eqn:Hu.
    simpl in Hh, g1. subst hr. subst g1.
    by rewrite Hres.
  - unfold g1. by rewrite Hg.
Qed.

(** The statement of C8 on a ghost reached by a projectile, with draws
    all equal to 0.25: no critical hit, and the ghost evades. *)
Lemma C8_evasion_witness :
  ([nearbyGhost] !! Projectile.target incomingShot = Some nearbyGhost
   /\ (Projectile.update nearbyGhost (constantRng 0.25) incomingShot).1.2
      = Some (mkHitResult 28 false (mkPosition 108 100) fire 0)
   /\ Enemy.tryEvade 0.25 nearbyGhost = true)
  /\ Game.projectileTick 0 [0%nat] incomingShot [nearbyGhost]
       (constantRng 0.25)
     = ((Projectile.update nearbyGhost (constantRng 0.25) incomingShot).1.1,
        [nearbyGhost], mkRng (fun _ => 0.25%float) 2, Some Game.Evaded).
Proof.
  split; [by repeat split|].
  exact (proj1 (C8_evasion_nullifies_hit 0 [0%nat] incomingShot
                  [nearbyGhost] (constantRng 0.25) nearbyGhost
                  (mkHitResult 28 false (mkPosition 108 100) fire 0)
                  eq_refl eq_refl eq_refl)).
Defined.

(** ** Synergy recomputation leaves the rest of a tower alone *)

Lemma forEach_cons {A} (x : A) xs body (h : list Tower.t) :
  forEach (x :: xs) body h = forEach xs body (body x h).2.
Proof.
  simpl. unfold mbind, TowerM_bind. by destruct (body x h) as [[] h1].
Qed.

Lemma forEach_write_lookup {B} (f : Tower.t -> B)
    (fs : TowerRef -> Tower.t -> Tower.t) towers (h : list Tower.t) i :
  (forall r w, f (fs r w) = f w) ->
  f <$> (forEach towers (fun r => writeTower r (fs r)) h).2 !! i
  = f <$> h !! i.
Proof.
  intros Hf. revert h. induction towers as [|r towers IH]; intros h.
  - reflexivity.
  - rewrite forEach_cons, IH. unfold writeTower. simpl.
    destruct (decide (r = i)) as [->|Hne].
    + rewrite list_lookup_alter_eq. destruct (h !! i); simpl; [|done].
      by rewrite Hf.
    + by rewrite list_lookup_alter_ne.
Qed.

Lemma calculateAndApplySynergies_frame {B} (f : Tower.t -> B) towers
    (h : list Tower.t) i :
  (forall l w, f (Tower.setSynergies l w) = f w) ->
  f <$> (SynergySystem.calculateAndApplySynergies towers h).2 !! i
  = f <$> h !! i.
Proof.
  intros Hf. unfold SynergySystem.calculateAndApplySynergies.
  unfold mbind, TowerM_bind, SynergySystem.createTowerMap, readTowers.
  apply (forEach_write_lookup f
           (fun _ tower => Tower.setSynergies _ tower)).
  intros _ w. apply Hf.
Qed.

Lemma handleTowerDestruction_frame {B} (f : Tower.t -> B) towers
    (h : list Tower.t) i :
  (forall l w, f (Tower.setSynergies l w) = f w) ->
  f <$> Game.handleTowerDestruction towers h !! i = f <$> h !! i.
Proof.
  intros Hf. unfold Game.handleTowerDestruction.
  by apply calculateAndApplySynergies_frame.
Qed.

(** ** The melee pass *)

Lemma inMeleeReach_true enemy (th : list Tower.t) r :
  Game.inMeleeReach enemy th r = true ->
  exists tower,
    th !! r = Some tower
    /\ Tower.isAlive tower = true
    /\ PrimFloat.ltb
         (distance (Tower.position tower) (Enemy.position enemy))
         (GAME_CONFIG.GRID_SIZE * 1.5)%float = true.
Proof.
  unfold Game.inMeleeReach. destruct (th !! r) as [tower|]; [|done].
  intros [? ?]%andb_true_iff. by exists tower.
Qed.

(** Breakers are passed over. *)
Lemma enemyAttack_breaker currentTime towers (st : list Enemy.t * list Tower.t)
    er b :
  st.1 !! er = Some b ->
  Enemy.enemyType b = breaker ->
  Game.enemyAttack currentTime towers st er = st.
Proof.
  destruct st as [eh th]. simpl. intros Hb Hty.
  unfold Game.enemyAttack. rewrite Hb.
  destruct (negb (Enemy.isAlive b)); [done|].
  unfold tag_eqb. by rewrite Hty.
Qed.

(** One turn of the pass, for an enemy that is alive, is not a breaker,
    is off cooldown and has a living tower in reach. *)
Lemma enemyAttack_strikes currentTime towers (eh : list Enemy.t)
    (th : list Tower.t) er enemy :
  eh !! er = Some enemy ->
  Enemy.isAlive enemy = true ->
  Enemy.enemyType enemy <> breaker ->
  Enemy.canAttackTower currentTime enemy = true ->
  (exists tr, tr ∈ towers /\ Game.inMeleeReach enemy th tr = true) ->
  exists tr tower,
    find (Game.inMeleeReach enemy th) towers = Some tr
    /\ tr ∈ towers
    /\ th !! tr = Some tower
    /\ Game.inMeleeReach enemy th tr = true
    /\ (Game.enemyAttack currentTime towers (eh, th) er).1
       = <[er := Enemy.set_lastAttackTime currentTime enemy]> eh
    /\ Tower.hp <$> (Game.enemyAttack currentTime towers (eh, th) er).2 !! tr
       = Some (healthAfter (Enemy.attackDamage enemy) (Tower.hp tower))
    /\ (forall tr', tr' <> tr ->
          Tower.hp
            <$> (Game.enemyAttack currentTime towers (eh, th) er).2 !! tr'
          = Tower.hp <$> th !! tr'
          /\ Tower.isAlive
               <$> (Game.enemyAttack currentTime towers (eh, th) er).2 !! tr'
             = Tower.isAlive <$> th !! tr').
Proof.
  intros He Halive Hty Hcd [tr0 [Hin0 Hreach0]].
  destruct (find (Game.inMeleeReach enemy th) towers) as [tr|] eqn:Hfind.
  2:{ apply find_none with (x := tr0) in Hfind; [congruence|].
      by apply list_elem_of_In. }
  destruct (find_some _ _ Hfind) as [Hin Hreach].
  apply list_elem_of_In in Hin.
  destruct (inMeleeReach_true _ _ _ Hreach) as (tower & Htw & Htalive & _).
  exists tr, tower. do 4 (split; [done|]).
  unfold Game.enemyAttack. rewrite He, Halive. simpl negb. cbv iota.
  unfold tag_eqb. rewrite bool_decide_eq_false_2 by done.
  rewrite Hcd. simpl negb. cbv iota. rewrite Hfind, Htw.
  unfold Enemy.attackTower, tag_eqb.
  rewrite bool_decide_eq_false_2 by done.
  unfold Tower.takeDamage. rewrite Htalive. simpl negb. cbv iota.
  set (hp1 := (Tower.hp tower - Enemy.attackDamage enemy)%Z).
  assert (Hlen : tr < length th) by (by eapply lookup_lt_Some).
  simpl Tower.hp. simpl Enemy.attackDamage. fold hp1.
  destruct (hp1 <=? 0)%Z eqn:Hdead; simpl.
  - split; [done|]. split.
    + rewrite (handleTowerDestruction_frame Tower.hp) by done.
      rewrite list_lookup_insert_eq by done. simpl.
      unfold healthAfter. fold hp1. by rewrite Hdead.
    + intros tr' Hne.
      rewrite (handleTowerDestruction_frame Tower.hp) by done.
      rewrite (handleTowerDestruction_frame Tower.isAlive) by done.
      by rewrite list_lookup_insert_ne.
  - split; [done|]. split.
    + rewrite list_lookup_insert_eq by done. simpl.
      unfold healthAfter. fold hp1. by rewrite Hdead.
    + intros tr' Hne. by rewrite list_lookup_insert_ne.
Qed.

(** C9.  In the melee pass, when the turn of an enemy comes (after the
    enemies before it in the list have acted): if it is alive, of any
    archetype but breaker (a ghost included), off cooldown, and some
    living tower is within 1.5 cells of it, then it attacks the first such
    tower of the tower list and no other: its attack time is stamped,
    that tower loses the enemy's attack damage, and the hit points and
    liveness of every other tower are as they were.  A breaker's turn
    changes nothing. *)
Theorem C9_melee_pass_every_archetype_but_breaker
    currentTime pre er post towers (st : list Enemy.t * list Tower.t) enemy :
  let st1 := Game.processEnemyAttacks currentTime pre towers st in
  let st2 := Game.enemyAttack currentTime towers st1 er in
  st1.1 !! er = Some enemy ->
  Enemy.isAlive enemy = true ->
  Enemy.enemyType enemy <> breaker ->
  Enemy.canAttackTower currentTime enemy = true ->
  (exists tr, tr ∈ towers /\ Game.inMeleeReach enemy st1.2 tr = true) ->
  Game.processEnemyAttacks currentTime (pre ++ er :: post) towers st
  = Game.processEnemyAttacks currentTime post towers st2
  /\ (exists tr tower,
        find (Game.inMeleeReach enemy st1.2) towers = Some tr
        /\ st1.2 !! tr = Some tower
        /\ Game.inMeleeReach enemy st1.2 tr = true
        /\ st2.1 = <[er := Enemy.set_lastAttackTime currentTime enemy]> st1.1
        /\ Tower.hp <$> st2.2 !! tr
           = Some (healthAfter (Enemy.attackDamage enemy) (Tower.hp tower))
        /\ (forall tr', tr' <> tr ->
              Tower.hp <$> st2.2 !! tr' = Tower.hp <$> st1.2 !! tr'
              /\ Tower.isAlive <$> st2.2 !! tr'
                 = Tower.isAlive <$> st1.2 !! tr'))
  /\ (forall er' b,
        st1.1 !! er' = Some b -> Enemy.enemyType b = breaker ->
        Game.enemyAttack currentTime towers st1 er' = st1).
Proof.
  intros st1 st2 He Halive Hty Hcd Hnear.
  split; [|split].
  - unfold Game.processEnemyAttacks. by rewrite fold_left_app.
  - unfold st2. destruct st1 as [eh th] eqn:Hst1. simpl in *.
    destruct (enemyAttack_strikes currentTime towers eh th er enemy
                He Halive Hty Hcd Hnear)
      as (tr & tower & Hfind & _ & Htw & Hreach & Heh & Hhp & Hothers).
    by exists tr, tower.
  - intros er' b Hb Hbty. by eapply enemyAttack_breaker.
Qed.

(** The statement of C9 on a ghost next to a fire tower at time 5000:
    the tower goes from 100 to 92 hit points. *)
Lemma C9_melee_pass_witness :
  ([lurkingGhost] !! 0%nat = Some lurkingGhost
   /\ Enemy.isAlive lurkingGhost = true
   /\ Enemy.enemyType lurkingGhost = ghost
   /\ Enemy.canAttackTower 5000 lurkingGhost = true
   /\ Game.inMeleeReach lurkingGhost [cornerTower] 0 = true)
  /\ Enemy.attackDamage lurkingGhost = 8%Z
  /\ Tower.hp
       <$> (Game.processEnemyAttacks 5000 [0%nat] [0%nat]
              ([lurkingGhost], [cornerTower])).2 !! 0%nat
     = Some 92%Z.
Proof.
  split; [by repeat split|]. split; [reflexivity|].
  assert (Hnear : exists tr, tr ∈ [0%nat]
                   /\ Game.inMeleeReach lurkingGhost [cornerTower] tr = true).
  { exists 0%nat. split; [apply list_elem_of_here|reflexivity]. }
  assert (Hty : Enemy.enemyType lurkingGhost <> breaker) by discriminate.
  destruct (C9_melee_pass_every_archetype_but_breaker 5000 [] 0%nat []
              [0%nat] ([lurkingGhost], [cornerTower]) lurkingGhost
              eq_refl eq_refl Hty eq_refl Hnear)
    as (Hpass & _ & _).
  change ([] ++ [0%nat]) with [0%nat] in Hpass.
  rewrite Hpass. reflexivity.
Defined.

(** ** Target selection *)

Lemma findTarget_keeps_valid heap enemies w :
  Tower.targetValid heap w = true -> Tower.findTarget heap enemies w = w.
Proof. intros H. unfold Tower.findTarget. by rewrite H. Qed.

Lemma targetValid_true (heap : list Enemy.t) w r e :
  Tower.currentTarget w = Some r ->
  heap !! r = Some e ->
  Enemy.isAlive e = true ->
  Tower.isInRange e w = true ->
  Tower.targetValid heap w = true.
Proof.
  intros Hc He Ha Hr. unfold Tower.targetValid. by rewrite Hc, He, Ha, Hr.
Qed.

(** Firing, or failing to fire, leaves a live in-range target in place,
    and never moves the tower or changes its range. *)
Lemma tryFire_keeps_target (heap : list Enemy.t) currentTime w r e :
  Tower.currentTarget w = Some r ->
  heap !! r = Some e ->
  Enemy.isAlive e = true ->
  Tower.isInRange e w = true ->
  Tower.currentTarget (Tower.tryFire heap currentTime w).1 = Some r.
Proof.
  intros Hc He Ha Hr. unfold Tower.tryFire.
  destruct (Tower.isSilenced w && _); [done|].
  set (w1 := if Tower.isSilenced w then _ else w).
  assert (Hc1 : Tower.currentTarget w1 = Some r).
  { unfold w1. by destruct (Tower.isSilenced w). }
  assert (Hr1 : Tower.isInRange e w1 = true).
  { unfold w1. by destruct (Tower.isSilenced w). }
  rewrite Hc1, He, Ha. simpl negb. cbv iota.
  destruct (PrimFloat.ltb _ _); [done|].
  by rewrite Hr1.
Qed.

Lemma tryFire_geometry (heap : list Enemy.t) currentTime w :
  Tower.position (Tower.tryFire heap currentTime w).1 = Tower.position w
  /\ Tower.range (Tower.tryFire heap currentTime w).1 = Tower.range w.
Proof.
  unfold Tower.tryFire.
  destruct (Tower.isSilenced w && _); [done|].
  set (w1 := if Tower.isSilenced w then _ else w).
  assert (Hg : Tower.position w1 = Tower.position w
               /\ Tower.range w1 = Tower.range w).
  { unfold w1. by destruct (Tower.isSilenced w). }
  destruct (Tower.currentTarget w1) as [r|]; [|done].
  destruct (heap !! r) as [e|]; [|done].
  destruct (negb (Enemy.isAlive e)); [done|].
  destruct (PrimFloat.ltb _ _); [done|].
  by destruct (negb (Tower.isInRange e w1)).
Qed.

Lemma isInRange_geometry e w w' :
  Tower.position w' = Tower.position w ->
  Tower.range w' = Tower.range w ->
  Tower.isInRange e w' = Tower.isInRange e w.
Proof.
  intros Hp Hr. unfold Tower.isInRange, Tower.getDistanceTo.
  by rewrite Hp, Hr.
Qed.

(** One tick with a live, in-range target: the target is kept. *)
Lemma towerTick_keeps_target (heap : list Enemy.t) enemies currentTime w r e :
  Tower.currentTarget w = Some r ->
  heap !! r = Some e ->
  Enemy.isAlive e = true ->
  Tower.isInRange e w = true ->
  let w' := (Game.towerTick heap enemies currentTime w).1 in
  Tower.currentTarget w' = Some r
  /\ Tower.position w' = Tower.position w
  /\ Tower.range w' = Tower.range w.
Proof.
  intros Hc He Ha Hr. unfold Game.towerTick.
  destruct (negb (Tower.isAlive w)); [done|].
  rewrite (findTarget_keeps_valid heap enemies w)
    by (by eapply targetValid_true).
  split; [by eapply tryFire_keeps_target|apply tryFire_geometry].
Qed.

(** C5.  A tower whose current target is alive and in range when target
    selection starts comes out of it unchanged, whatever the enemy list
    holds, higher-priority enemies in range included; and over any run of
    ticks at each of which that target is alive and in range, the tower's
    target after the run is still that enemy. *)
Theorem C5_target_stickiness r (w : Tower.t) (frames : list Frame) :
  Tower.currentTarget w = Some r ->
  Forall (targetHolds r w) frames ->
  Tower.currentTarget (towerRun frames w) = Some r
  /\ (forall (heap : list Enemy.t) enemies e,
        heap !! r = Some e ->
        Enemy.isAlive e = true ->
        Tower.isInRange e w = true ->
        Tower.findTarget heap enemies w = w).
Proof.
  intros Hc Hframes. split.
  - enough (Hinv : forall w',
              Tower.currentTarget w' = Some r ->
              Tower.position w' = Tower.position w ->
              Tower.range w' = Tower.range w ->
              Tower.currentTarget (towerRun frames w') = Some r)
      by (by apply Hinv).
    induction Hframes as [|[[heap enemies] t] frames (e & He & Ha & Hr) _ IH];
      intros w' Hc' Hp' Hr'; [done|].
    simpl in He. unfold towerRun. simpl fold_left.
    rewrite <- (isInRange_geometry e w w' Hp' Hr') in Hr.
    destruct (towerTick_keeps_target heap enemies t w' r e Hc' He Ha Hr)
      as (Hc1 & Hp1 & Hr1).
    apply IH; [done|congruence|congruence].
  - intros heap enemies e He Ha Hr.
    apply findTarget_keeps_valid. by eapply targetValid_true.
Qed.

(** The statement of C5 on a tower locked on a normal enemy while a boss
    stands closer, over two ticks. *)
Lemma C5_target_stickiness_witness :
  (Tower.currentTarget lockedTower = Some 0%nat
   /\ targetHolds 0%nat lockedTower
        ([walker; closeBoss], [0%nat; 1%nat], 16%float)
   /\ targetHolds 0%nat lockedTower
        ([walker; closeBoss], [1%nat; 0%nat], 32%float))
  /\ Enemy.priority walker = 1%Z
  /\ Enemy.priority closeBoss = 5%Z
  /\ Tower.isInRange closeBoss lockedTower = true
  /\ Tower.currentTarget
       (towerRun [([walker; closeBoss], [0%nat; 1%nat], 16%float);
                  ([walker; closeBoss], [1%nat; 0%nat], 32%float)]
          lockedTower)
     = Some 0%nat.
Proof.
  assert (H1 : targetHolds 0%nat lockedTower
                 ([walker; closeBoss], [0%nat; 1%nat], 16%float)).
  { exists walker. by repeat split. }
  assert (H2 : targetHolds 0%nat lockedTower
                 ([walker; closeBoss], [1%nat; 0%nat], 32%float)).
  { exists walker. by repeat split. }
  split; [by repeat split|]. do 3 (split; [reflexivity|]).
  exact (proj1 (C5_target_stickiness 0%nat lockedTower _ eq_refl
                  (Forall_cons_2 _ _ _ H1
                     (Forall_cons_2 _ _ _ H2 (Forall_nil_2 _))))).
Defined.

(** ** The order on binary64 numbers *)

(** [<] on numbers is irreflexive and transitive (NaN is below and above
    nothing).  Both follow from the specification of the primitive
    comparison on sign, exponent and mantissa. *)

Lemma SFcompare_finite_pos m1 e1 m2 e2 :
  SFcompare (S754_finite false m1 e1) (S754_finite false m2 e2)
  = Some (match (e1 ?= e2)%Z with
          | Eq => (m1 ?= m2)%positive
          | c => c
          end).
Proof. simpl. by destruct (e1 ?= e2)%Z. Qed.

Lemma SFcompare_finite_neg m1 e1 m2 e2 :
  SFcompare (S754_finite true m1 e1) (S754_finite true m2 e2)
  = Some (match (e1 ?= e2)%Z with
          | Eq => CompOpp (m1 ?= m2)%positive
          | Lt => Gt
          | Gt => Lt
          end).
Proof. reflexivity. Qed.

Lemma SFltb_irrefl x : SFltb x x = false.
Proof.
  unfold SFltb.
  destruct x as [[]|[]| |[] m e]; try reflexivity.
  - rewrite SFcompare_finite_neg, Z.compare_refl, Pos.compare_refl. done.
  - rewrite SFcompare_finite_pos, Z.compare_refl, Pos.compare_refl. done.
Qed.

Lemma SFltb_trans x y z :
  SFltb x y = true -> SFltb y z = true -> SFltb x z = true.
Proof.
  unfold SFltb.
  destruct x as [[]|[]| |[] mx ex], y as [[]|[]| |[] my ey],
    z as [[]|[]| |[] mz ez];
    try (simpl; congruence);
    rewrite ?SFcompare_finite_neg, ?SFcompare_finite_pos;
    destruct (Z.compare_spec ex ey), (Z.compare_spec ey ez),
      (Z.compare_spec ex ez);
    try congruence; try lia;
    destruct (Pos.compare_spec mx my), (Pos.compare_spec my mz),
      (Pos.compare_spec mx mz);
    simpl; try congruence; try lia.
Qed.

Lemma ltb_irrefl (x : float) : PrimFloat.ltb x x = false.
Proof. rewrite ltb_spec. apply SFltb_irrefl. Qed.

Lemma ltb_trans (x y z : float) :
  PrimFloat.ltb x y = true -> PrimFloat.ltb y z = true ->
  PrimFloat.ltb x z = true.
Proof. rewrite !ltb_spec. apply SFltb_trans. Qed.

(** ** Choosing a new target *)

Lemma config_priority_pos t : (0 < tc_priority (ENEMY_TYPE_CONFIGS t))%Z.
Proof. by destruct t. Qed.

(** One turn of the search loop maintains what the loop knows. *)
Lemma findTarget_step_inv (heap : list Enemy.t) w seen s r :
  (forall e, heap !! r = Some e -> (0 < Enemy.priority e)%Z) ->
  SearchInv heap w seen s ->
  SearchInv heap w (seen ++ [r]) (Tower.findTarget_step heap w s r).
Proof.
  intros Hpos Hinv.
  (* an enemy that is no candidate leaves the search as it is *)
  assert (Hskip : (forall e, ~ candidate heap w r e) ->
                  SearchInv heap w (seen ++ [r]) s).
  { intros Hno. unfold SearchInv in *.
    destruct (Tower.found s) as [r0|].
    - destruct Hinv as (e0 & Hin & Hc & Hb & Hd & Hun).
      exists e0. split; [apply elem_of_app; by left|].
      do 3 (split; [done|]).
      intros r' e' [Hin'|Hr'%list_elem_of_singleton]%elem_of_app Hc';
        [exact (Hun _ _ Hin' Hc')|subst r'; by destruct (Hno e')].
    - destruct Hinv as [Hb Hnone]. split; [done|].
      intros r' e' [Hin'|Hr'%list_elem_of_singleton]%elem_of_app;
        [by apply Hnone|subst r'; apply Hno]. }
  unfold Tower.findTarget_step.
  destruct (heap !! r) as [enemy|] eqn:Hr;
    [|apply Hskip; intros e (He & _); congruence].
  destruct (Enemy.isAlive enemy) eqn:Halive; simpl negb; cbv iota;
    [|apply Hskip; intros e (He & Ha & _); congruence].
  destruct (JS.gtb (Tower.getDistanceTo enemy w) (Tower.range w)) eqn:Hfar;
    [apply Hskip; intros e (He & _ & Hd); congruence|].
  assert (Hcand : candidate heap w r enemy) by done.
  set (p := Enemy.priority enemy). set (d := Tower.getDistanceTo enemy w).
  destruct ((p >? Tower.bestPriority s)%Z
            || (p =? Tower.bestPriority s)%Z
               && PrimFloat.ltb d (Tower.closestDistance s)) eqn:Hbetter.
  - (* the enemy becomes the choice *)
    unfold SearchInv. simpl. exists enemy.
    split; [apply elem_of_app; right; by apply list_elem_of_singleton|].
    do 3 (split; [done|]).
    intros r' e' [Hin'|Hr'%list_elem_of_singleton]%elem_of_app Hc';
      [|subst r'].
    + unfold SearchInv in Hinv.
      destruct (Tower.found s) as [r0|];
        [|destruct Hinv as [_ Hnone]; by destruct (Hnone r' e')].
      destruct Hinv as (e0 & _ & _ & Hb & Hd & Hun).
      destruct (Hun r' e' Hin' Hc') as [Hle Htie].
      fold p d. rewrite Hb, Hd in Hbetter.
      apply orb_true_iff in Hbetter as [Hgt|[Heq Hlt]%andb_true_iff].
      * apply Z.gtb_lt in Hgt. split; [lia|intros; lia].
      * apply Z.eqb_eq in Heq. split; [lia|].
        intros Hsame.
        destruct (PrimFloat.ltb (Tower.getDistanceTo e' w) d) eqn:Hcloser;
          [|done].
        rewrite <- (Htie ltac:(lia)).
        symmetry. by eapply ltb_trans.
    + destruct Hc' as (He' & _). assert (e' = enemy) as -> by congruence.
      split; [lia|intros _; apply ltb_irrefl].
  - (* the choice stands *)
    apply orb_false_iff in Hbetter as [Hgt Htie].
    unfold SearchInv in *.
    destruct (Tower.found s) as [r0|].
    + destruct Hinv as (e0 & Hin & Hc & Hb & Hd & Hun).
      exists e0. split; [apply elem_of_app; by left|].
      do 3 (split; [done|]).
      intros r' e' [Hin'|Hr'%list_elem_of_singleton]%elem_of_app Hc';
        [exact (Hun _ _ Hin' Hc')|subst r'].
      destruct Hc' as (He' & _). assert (e' = enemy) as -> by congruence.
      fold p d. rewrite <- Hb, <- Hd.
      assert (Hle : (p <= Tower.bestPriority s)%Z).
      { rewrite Z.gtb_ltb in Hgt. by apply Z.ltb_ge in Hgt. }
      split; [done|]. intros Hsame.
      rewrite Hsame, Z.eqb_refl in Htie. done.
    + destruct Hinv as [Hb _]. rewrite Hb in Hgt.
      specialize (Hpos enemy eq_refl). fold p in Hpos.
      rewrite Z.gtb_ltb in Hgt. apply Z.ltb_ge in Hgt. lia.
Qed.

Lemma findTarget_fold_inv (heap : list Enemy.t) w rest seen s :
  (forall r e, r ∈ rest -> heap !! r = Some e -> (0 < Enemy.priority e)%Z) ->
  SearchInv heap w seen s ->
  SearchInv heap w (seen ++ rest)
    (fold_left (Tower.findTarget_step heap w) rest s).
Proof.
  revert seen s. induction rest as [|r rest IH]; intros seen s Hpos Hinv.
  - by rewrite app_nil_r.
  - simpl. rewrite (assoc_L (++) seen [r] rest : seen ++ r :: rest = _).
    apply IH.
    + intros r' e Hin. apply Hpos. by right.
    + apply findTarget_step_inv; [|done].
      intros e. apply Hpos. by left.
Qed.

Lemma tryFire_without_target (heap : list Enemy.t) currentTime w :
  Tower.currentTarget w = None ->
  (Tower.tryFire heap currentTime w).2 = None.
Proof.
  intros Hc. unfold Tower.tryFire.
  destruct (Tower.isSilenced w && _); [done|].
  set (w1 := if Tower.isSilenced w then _ else w).
  assert (Hc1 : Tower.currentTarget w1 = None).
  { unfold w1. by destruct (Tower.isSilenced w). }
  by rewrite Hc1.
Qed.

(** C6.  A tower with no valid current target searches the enemy list,
    passing over the dead and those beyond its range.  If the search ends
    on an enemy, that enemy is a living one in range, no living enemy in
    range has a higher priority, and none of the same priority is
    strictly closer.  If it ends on none, no enemy of the list was alive
    and in range, the tower's target is none, and [tryFire] fires
    nothing.  (Enemies carry their archetype's priority.) *)
Theorem C6_priority_then_distance (heap : list Enemy.t) enemies w :
  Tower.targetValid heap w = false ->
  prioritiesFromConfig heap enemies ->
  match Tower.currentTarget (Tower.findTarget heap enemies w) with
  | Some r =>
      exists e, r ∈ enemies
                /\ candidate heap w r e
                /\ unbeaten heap w enemies e
  | None =>
      (forall r e, r ∈ enemies -> ~ candidate heap w r e)
      /\ forall currentTime,
           (Tower.tryFire heap currentTime
              (Tower.findTarget heap enemies w)).2 = None
  end.
Proof.
  intros Hinvalid Hprio. unfold Tower.findTarget. rewrite Hinvalid.
  assert (Hinv : SearchInv heap w ([] ++ enemies)
                   (fold_left (Tower.findTarget_step heap w) enemies
                      (Tower.mkSearch None 0 infinity))).
  { apply findTarget_fold_inv.
    - intros r e Hin He. rewrite (Hprio r e Hin He).
      apply config_priority_pos.
    - split; [done|]. intros r' e' Hin. by apply elem_of_nil in Hin. }
  simpl app in Hinv. unfold SearchInv in Hinv. simpl Tower.currentTarget.
  destruct (Tower.found _) as [r|] eqn:Hfound.
  - destruct Hinv as (e & Hin & Hc & _ & _ & Hun). by exists e.
  - destruct Hinv as [_ Hnone]. split; [done|].
    intros currentTime. by apply tryFire_without_target.
Qed.

(** The statement of C6 on a tower facing a normal enemy, two tanks and
    a boss out of range: the nearer tank is chosen. *)
Lemma C6_priority_then_distance_witness :
  let heap := [walker; farTank; nearTank; outOfReach] in
  let enemies := [0%nat; 1%nat; 2%nat; 3%nat] in
  (Tower.targetValid heap cornerTower = false
   /\ prioritiesFromConfig heap enemies)
  /\ Tower.currentTarget (Tower.findTarget heap enemies cornerTower)
     = Some 2%nat
  /\ unbeaten heap cornerTower enemies nearTank.
Proof.
  intros heap enemies.
  assert (Hprio : prioritiesFromConfig heap enemies).
  { intros r e Hin He. subst heap enemies.
    repeat (apply elem_of_cons in Hin as [->|Hin]);
      [..|by apply elem_of_nil in Hin];
      injection He as <-; reflexivity. }
  split; [by split|]. split; [reflexivity|].
  pose proof (C6_priority_then_distance heap enemies cornerTower
                eq_refl Hprio) as H.
  change (Tower.currentTarget (Tower.findTarget heap enemies cornerTower))
    with (Some 2%nat) in H.
  destruct H as (e & _ & (He & _) & Hun).
  injection He as <-. exact Hun.
Defined.

(** ** The explosion loop *)

Lemma alter_lookup_None {A} (f : A -> A) (l : list A) (i : nat) :
  l !! i = None -> alter f i l = l.
Proof.
  revert i. induction l as [|y l IH]; intros [|i] H; simplify_eq/=; auto.
  f_equal. by apply IH.
Qed.

Lemma fold_alter_lookup {A} (f : A -> A) rs (l : list A) (i : nat) :
  NoDup rs ->
  fold_left (fun h r => alter f r h) rs l !! i
  = if decide (i ∈ rs) then f <$> l !! i else l !! i.
Proof.
  intros Hnd. revert l.
  induction Hnd as [|r rs Hnotin Hnd IH]; intros l; simpl.
  - done.
  - rewrite IH. destruct (decide (i = r)) as [->|Hne].
    + rewrite (decide_False _ _ Hnotin).
      rewrite (decide_True _ _ (list_elem_of_here r rs)).
      apply list_lookup_alter_eq.
    + rewrite list_lookup_alter_ne by done.
      destruct (decide (i ∈ rs)) as [Hin|Hout].
      * by rewrite decide_True by (by right).
      * rewrite decide_False; [done|].
        intros [?|?]%elem_of_cons; done.
Qed.

(** One turn of the explosion loop acts on the visited enemy alone, by
    [blast]. *)
Lemma explosion_step_heap epicenter total (heap : list Enemy.t) affected r :
  (ReactionSystem.explosion_step epicenter total 80 (heap, affected) r).1
  = alter (blast epicenter total) r heap.
Proof.
  unfold ReactionSystem.explosion_step.
  destruct (heap !! r) as [o|] eqn:Hr.
  - rewrite (alter_lookup_Some _ _ _ _ Hr).
    unfold blast, inBlast, falloff.
    destruct (Enemy.isAlive o); simpl; [|by rewrite list_insert_id].
    destruct (PrimFloat.leb _ _); simpl; [|by rewrite list_insert_id].
    by rewrite takeDamage_no_element.
  - simpl. by rewrite alter_lookup_None.
Qed.

Lemma explosion_fold_heap epicenter total rs (heap : list Enemy.t) affected :
  (fold_left (ReactionSystem.explosion_step epicenter total 80) rs
     (heap, affected)).1
  = fold_left (fun h r => alter (blast epicenter total) r h) rs heap.
Proof.
  revert heap affected. induction rs as [|r rs IH]; intros heap affected;
    [done|].
  cbn [fold_left].
  destruct (ReactionSystem.explosion_step epicenter total 80
              (heap, affected) r) as [h1 a1] eqn:E.
  rewrite IH. f_equal.
  by rewrite <- (explosion_step_heap epicenter total heap affected r), E.
Qed.

(** The explosion reaction on the arena: every listed enemy is visited
    by [blast] around the primary target's centre, then the primary
    target's status is cleared. *)
Lemma checkAndTriggerReaction_explosion now p baseDamage allEnemies
    (heap : list Enemy.t) e :
  heap !! p = Some e ->
  Enemy.status e = Some oil ->
  let total := JS.Math_floor (JS.Z2F baseDamage * 1.5) in
  exists affected,
    ReactionSystem.checkAndTriggerReaction now p fire baseDamage
      allEnemies heap
    = (alter Enemy.clearStatus p
         (fold_left
            (fun h r => alter (blast (Enemy.getCenter e) total) r h)
            allEnemies heap),
       Some (mkReactionResult explosion (REACTION_CONFIGS explosion)
               (Enemy.getCenter e) total affected)).
Proof.
  intros He Hs total.
  unfold ReactionSystem.checkAndTriggerReaction.
  rewrite He, Hs, findReaction_oil_fire.
  unfold ReactionSystem.executeReaction. rewrite He.
  change (JS.or_default (damageMultiplier (REACTION_CONFIGS explosion)) 1.5)
    with 1.5%float.
  change (JS.or_default (explosionRadius (REACTION_CONFIGS explosion)) 80)
    with 80%float.
  fold total.
  destruct (fold_left _ allEnemies (heap, [p])) as [heap1 affected] eqn:E.
  exists affected. f_equal. f_equal.
  by rewrite <- (explosion_fold_heap (Enemy.getCenter e) total allEnemies
                   heap [p]), E.
Qed.

Lemma blast_inside epicenter total o :
  inBlast epicenter o = true ->
  Enemy.health (blast epicenter total o)
  = healthAfter (falloff total (distance (Enemy.getCenter o) epicenter))
      (Enemy.health o)
  /\ (Enemy.status o = Some oil ->
      Enemy.status (blast epicenter total o) = None).
Proof.
  intros Hin. unfold blast. rewrite Hin.
  rewrite loseHealth_status.
  destruct (tag_eqb (Enemy.status o) (Some oil)) eqn:Hoil.
  - split; [apply loseHealth_health|done].
  - split; [apply loseHealth_health|].
    intros Hs. unfold tag_eqb in Hoil. by rewrite Hs in Hoil.
Qed.

Lemma blast_outside epicenter total o :
  inBlast epicenter o = false -> blast epicenter total o = o.
Proof. intros Hout. unfold blast. by rewrite Hout. Qed.

Lemma falloff_at_centre_and_rim total :
  (0 <= total <= 15000)%Z ->
  falloff total 0 = total /\ falloff total 80 = (total / 2)%Z.
Proof.
  intros Ht. unfold falloff.
  change (1 - 0 / 80 * 0.5)%float with 1%float.
  change (1 - 80 / 80 * 0.5)%float with 0.5%float.
  destruct (dyadic_products total Ht) as (_ & _ & H1 & H2). done.
Qed.

(** C4, as the claim states it, fails on an odd reaction damage: with
    base damage 101 the reaction damage is 151 and the enemy exactly on
    the radius loses 75, which is not half of 151. *)
Lemma C4_rim_damage_is_rounded_down :
  let result :=
    ReactionSystem.checkAndTriggerReaction 0 0 fire 101 [0%nat; 1%nat]
      [oilyTank; rimTank] in
  distance (Enemy.getCenter rimTank) (Enemy.getCenter oilyTank) = 80%float
  /\ rr_damage <$> result.2 = Some 151%Z
  /\ Enemy.health rimTank = 500%Z
  /\ Enemy.health <$> result.1 !! 1%nat = Some 425%Z
  /\ (2 * (500 - 425) <> 151)%Z.
Proof. repeat split; try reflexivity. lia. Qed.

(** C4, amended.  When an oil-tagged enemy is hit by fire with base
    damage [B], the explosion has damage [T = floor (B * 1.5)], and every
    living enemy of the list whose distance [d] to the epicentre is at
    most the radius 80 loses [floor (T * (1 - d / 80 * 0.5))] health: all
    of [T] at distance 0, and half of [T] rounded down at exactly the
    radius.  A living enemy farther than the radius loses nothing.  Every
    enemy so damaged that carried the oil tag ends without a status, and
    so does the primary target.  (The integer values of the floors are
    checked for [B] up to 10000.) *)
Theorem C4_explosion_linear_falloff
    now allEnemies (heap : list Enemy.t) p e B :
  NoDup allEnemies ->
  heap !! p = Some e ->
  Enemy.status e = Some oil ->
  let total := JS.Math_floor (JS.Z2F B * 1.5) in
  let epicenter := Enemy.getCenter e in
  let result :=
    ReactionSystem.checkAndTriggerReaction now p fire B allEnemies heap in
  (exists affected,
     result.2 = Some (mkReactionResult explosion
                        (REACTION_CONFIGS explosion) epicenter total
                        affected))
  /\ Enemy.status <$> result.1 !! p = Some None
  /\ (forall r o,
        r ∈ allEnemies -> heap !! r = Some o -> Enemy.isAlive o = true ->
        let d := distance (Enemy.getCenter o) epicenter in
        exists o',
          result.1 !! r = Some o'
          /\ (PrimFloat.leb d 80 = true ->
              Enemy.health o'
              = healthAfter (falloff total d) (Enemy.health o)
              /\ (Enemy.status o = Some oil -> Enemy.status o' = None))
          /\ (PrimFloat.leb d 80 = false ->
              Enemy.health o' = Enemy.health o
              /\ Enemy.isAlive o' = true))
  /\ ((0 <= B <= 10000)%Z ->
      total = (3 * B / 2)%Z
      /\ falloff total 0 = total
      /\ falloff total 80 = (total / 2)%Z).
Proof.
  intros Hnd He Hs total epicenter result.
  destruct (checkAndTriggerReaction_explosion now p B allEnemies heap e He Hs)
    as [affected Hres].
  fold total epicenter result in Hres.
  assert (Hlook : forall r o, r ∈ allEnemies -> heap !! r = Some o ->
            result.1 !! r
            = Some (if decide (p = r)
                    then Enemy.clearStatus (blast epicenter total o)
                    else blast epicenter total o)).
  { intros r o Hin Ho. rewrite Hres. simpl.
    destruct (decide (p = r)) as [->|Hne].
    - rewrite list_lookup_alter_eq, fold_alter_lookup by done.
      by rewrite decide_True, Ho by done.
    - rewrite list_lookup_alter_ne, fold_alter_lookup by done.
      by rewrite decide_True, Ho by done. }
  split; [exists affected; by rewrite Hres|]. split; [|split].
  - rewrite Hres. simpl. rewrite list_lookup_alter_eq.
    rewrite fold_alter_lookup by done.
    destruct (decide (p ∈ allEnemies)); rewrite He; done.
  - intros r o Hin Ho Halive d.
    eexists. split; [by apply Hlook|].
    split.
    + intros Hd.
      assert (Hin' : inBlast epicenter o = true).
      { unfold inBlast. fold d. by rewrite Halive, Hd. }
      destruct (blast_inside epicenter total o Hin') as [Hh Hst].
      fold d in Hh.
      by destruct (decide (p = r)).
    + intros Hd.
      assert (Hout : inBlast epicenter o = false).
      { unfold inBlast. fold d. by rewrite Halive, Hd. }
      rewrite (blast_outside epicenter total o Hout).
      by destruct (decide (p = r)).
  - intros HB.
    destruct (dyadic_products B ltac:(lia)) as (Htotal & _).
    fold total in Htotal.
    assert (Ht : (0 <= total <= 15000)%Z).
    { rewrite Htotal. split; [apply Z.div_pos; lia|].
      apply Z.div_le_upper_bound; lia. }
    split; [done|]. by apply falloff_at_centre_and_rim.
Qed.

(** The statement of C4 at base damage 100, on four tanks of 500 health:
    the oil-tagged target, one on the radius, an oil-tagged one half-way
    and one just outside. *)
Lemma C4_explosion_witness :
  let heap := [oilyTank; rimTank; midOilyTank; outsideTank] in
  let all := [0%nat; 1%nat; 2%nat; 3%nat] in
  let result :=
    ReactionSystem.checkAndTriggerReaction 0 0 fire 100 all heap in
  (NoDup all /\ heap !! 0%nat = Some oilyTank
   /\ Enemy.status oilyTank = Some oil /\ (0 <= 100 <= 10000)%Z)
  /\ rr_damage <$> result.2 = Some 150%Z
  /\ falloff 150 0 = 150%Z
  /\ falloff 150 80 = 75%Z
  /\ Enemy.health <$> heap = [500; 500; 500; 500]%Z
  /\ Enemy.health <$> result.1 = [350; 425; 388; 500]%Z
  /\ Enemy.status <$> result.1 = [None; None; None; None].
Proof.
  intros heap all result.
  assert (Hnd : NoDup all).
  { by apply (bool_decide_unpack _). }
  assert (HB : (0 <= 100 <= 10000)%Z) by lia.
  split; [by repeat split|].
  destruct (C4_explosion_linear_falloff 0 all heap 0%nat oilyTank 100
              Hnd eq_refl eq_refl) as ([affected Hres] & _ & _ & Harith).
  destruct (Harith HB) as (_ & H0 & H80).
  fold result in Hres. split; [by rewrite Hres|].
  split; [exact H0|]. split; [exact H80|].
  repeat split; reflexivity.
Defined.

(** ** The synergy preview *)

(** The preview reads the towers and writes none. *)
Lemma previewSynergies_frame element row col existing (h : list Tower.t) :
  (SynergySystem.previewSynergies element row col existing h).2 = h.
Proof. reflexivity. Qed.

Lemma createTowerMap_pure_fold towers (h : list Tower.t) :
  SynergySystem.createTowerMap_pure towers h
  = fold_left (indexTower h) towers ∅.
Proof. reflexivity. Qed.

Lemma indexTower_fold_ext towers (h1 h2 : list Tower.t) m :
  (forall r, r ∈ towers -> h1 !! r = h2 !! r) ->
  fold_left (indexTower h1) towers m = fold_left (indexTower h2) towers m.
Proof.
  revert m. induction towers as [|r towers IH]; intros m Hext; [done|].
  simpl. unfold indexTower at 2 4. rewrite (Hext r) by (by left).
  apply IH. intros r' Hin. apply Hext. by right.
Qed.

(** Pushing the new tower extends the map by its cell: the map of the
    committed placement is the preview's scratch map. *)
Lemma createTowerMap_placed element row col center existing
    (h : list Tower.t) :
  validRefs h existing ->
  SynergySystem.createTowerMap_pure (existing ++ [length h])
    (h ++ [Tower.new row col center element])
  = <[(row, col) := mkGridTower row col element]>
      (SynergySystem.createTowerMap_pure existing h).
Proof.
  intros Hvalid. rewrite !createTowerMap_pure_fold, fold_left_app.
  rewrite (indexTower_fold_ext existing _ h).
  - simpl. unfold indexTower at 1.
    by rewrite list_lookup_middle.
  - intros r Hin. apply lookup_app_l. by apply Hvalid.
Qed.

Lemma resynergise_idem m w : resynergise m (resynergise m w) = resynergise m w.
Proof. reflexivity. Qed.

(** After the recomputation, every listed tower carries [resynergise] of
    what it was, and the others are as they were. *)
Lemma forEach_resynergise m towers (h : list Tower.t) i :
  (forEach towers (fun r => writeTower r (resynergise m)) h).2 !! i
  = if decide (i ∈ towers) then resynergise m <$> h !! i else h !! i.
Proof.
  revert h. induction towers as [|r towers IH]; intros h; [done|].
  rewrite forEach_cons, IH. unfold writeTower. simpl.
  destruct (decide (i = r)) as [->|Hne].
  - rewrite list_lookup_alter_eq.
    rewrite (decide_True _ _ (list_elem_of_here r towers)).
    destruct (decide (r ∈ towers)); [|done].
    destruct (h !! r); simpl; [|done]. by rewrite resynergise_idem.
  - rewrite list_lookup_alter_ne by done.
    destruct (decide (i ∈ towers)) as [Hin|Hout].
    + by rewrite decide_True by (by right).
    + rewrite decide_False; [done|]. by intros [?|?]%elem_of_cons.
Qed.

Lemma calculateAndApplySynergies_lookup towers (h : list Tower.t) i :
  (SynergySystem.calculateAndApplySynergies towers h).2 !! i
  = if decide (i ∈ towers)
    then resynergise (SynergySystem.createTowerMap_pure towers h) <$> h !! i
    else h !! i.
Proof.
  unfold SynergySystem.calculateAndApplySynergies.
  unfold mbind, TowerM_bind, SynergySystem.createTowerMap, readTowers.
  apply forEach_resynergise.
Qed.

(** A tower has at most one synergy, fixed by its element: each element
    is the source of at most one entry of the table. *)
Lemma calculateSynergiesForTower_cases tower m :
  SynergySystem.calculateSynergiesForTower tower m = []
  \/ exists k,
       SynergySystem.calculateSynergiesForTower tower m = [SYNERGY_CONFIGS k]
       /\ sourceElement (SYNERGY_CONFIGS k) = gt_element tower.
Proof.
  unfold SynergySystem.calculateSynergiesForTower, SYNERGY_VALUES.
  set (adj := gt_element <$> _).
  change (SYNERGY_CONFIGS <$> [fire_ice; ice_lightning; lightning_fire])
    with [SYNERGY_CONFIGS fire_ice; SYNERGY_CONFIGS ice_lightning;
          SYNERGY_CONFIGS lightning_fire].
  rewrite !filter_cons, filter_nil.
  repeat case_decide; destruct_and?;
    try (exfalso; simpl in *; congruence);
    first
      [ by left
      | right; exists fire_ice; split; [reflexivity|simpl in *; congruence]
      | right; exists ice_lightning; split;
        [reflexivity|simpl in *; congruence]
      | right; exists lightning_fire; split;
        [reflexivity|simpl in *; congruence] ].
Qed.

Lemma calculateSynergiesForTower_length_eq tower m1 m2 :
  length (SynergySystem.calculateSynergiesForTower tower m1)
  = length (SynergySystem.calculateSynergiesForTower tower m2) ->
  SynergySystem.calculateSynergiesForTower tower m1
  = SynergySystem.calculateSynergiesForTower tower m2.
Proof.
  destruct (calculateSynergiesForTower_cases tower m1)
    as [->|(k1 & -> & Hk1)],
    (calculateSynergiesForTower_cases tower m2)
    as [->|(k2 & -> & Hk2)]; try done.
  intros _. rewrite <- Hk2 in Hk1.
  by destruct k1, k2.
Qed.

Lemma findTowerAt_Some row col existing (h : list Tower.t) r :
  SynergySystem.findTowerAt row col existing h = Some r ->
  r ∈ existing
  /\ exists w, h !! r = Some w
               /\ Tower.gridRow w = row /\ Tower.gridCol w = col.
Proof.
  unfold SynergySystem.findTowerAt. intros Hf.
  destruct (find_some _ _ Hf) as [Hin Hcell].
  split; [by apply list_elem_of_In|].
  destruct (h !! r) as [w|]; [|done].
  apply andb_true_iff in Hcell as [Hr Hc].
  exists w. by rewrite <- (proj1 (Z.eqb_eq _ _) Hr), <- (proj1 (Z.eqb_eq _ _) Hc).
Qed.

Lemma findTowerAt_unique row col existing (h : list Tower.t) r w :
  cellsDistinct h existing ->
  r ∈ existing -> h !! r = Some w ->
  Tower.gridRow w = row -> Tower.gridCol w = col ->
  SynergySystem.findTowerAt row col existing h = Some r.
Proof.
  intros Hdist Hin Hw Hrow Hcol.
  destruct (SynergySystem.findTowerAt row col existing h) as [r'|] eqn:Hf.
  - destruct (findTowerAt_Some _ _ _ _ _ Hf) as (Hin' & w' & Hw' & Hr' & Hc').
    f_equal. apply (Hdist r' r w' w); congruence.
  - unfold SynergySystem.findTowerAt in Hf.
    apply find_none with (x := r) in Hf; [|by apply list_elem_of_In].
    rewrite Hw, Hrow, Hcol, !Z.eqb_refl in Hf. done.
Qed.

(** What the loop over the directions reports for one direction. *)
Lemma previewNeighbour_Some row col existing m (h : list Tower.t) d r syn :
  SynergySystem.previewNeighbour row col existing m h d = Some (r, syn) <->
  exists w,
    SynergySystem.findTowerAt (row + d.1) (col + d.2) existing h = Some r
    /\ h !! r = Some w
    /\ syn = SynergySystem.calculateSynergiesForTower (asGridTower w) m
    /\ length syn <> length (Tower.activeSynergies w).
Proof.
  unfold SynergySystem.previewNeighbour.
  destruct (SynergySystem.findTowerAt _ _ _ _) as [r'|]; simpl;
    [|split; [done|by intros (? & ? & _)]].
  destruct (h !! r') as [w'|] eqn:Hw'; simpl.
  - destruct (length _ =? length _)%nat eqn:Hlen; simpl.
    + apply Nat.eqb_eq in Hlen. split; [done|].
      intros (w & [= ->] & Hw & -> & Hne). congruence.
    + apply Nat.eqb_neq in Hlen. split.
      * intros [= -> <-]. by exists w'.
      * intros (w & [= ->] & Hw & -> & Hne). congruence.
  - split; [done|]. intros (w & [= ->] & Hw & _). congruence.
Qed.

(** C7.  The preview of placing a tower of some element on a cell
    returns the tower arena untouched, whatever the towers: the active
    synergies and the multiplier of every real tower are as before.  The
    synergies it reports for the new tower are those the tower gets when
    the placement is committed.  Over towers that stand on distinct cells
    and whose cached synergies are current, the towers it reports as
    affected are exactly the existing towers on the four orthogonally
    adjacent cells whose synergies after the committed placement differ
    from their present ones, each with its synergies after the
    placement. *)
Theorem C7_preview_does_not_mutate
    element row col center existing (h : list Tower.t) :
  let preview :=
    (SynergySystem.previewSynergies element row col existing h).1 in
  let placed := placeTower element row col center existing h in
  (SynergySystem.previewSynergies element row col existing h).2 = h
  /\ (validRefs h existing ->
      Tower.activeSynergies <$> placed !! length h
      = Some (SynergySystem.newTowerSynergies preview))
  /\ (validRefs h existing ->
      cellsDistinct h existing ->
      synergiesCurrent h existing ->
      forall r syn,
        (r, syn) ∈ SynergySystem.affectedTowers preview <->
        exists w,
          r ∈ existing
          /\ h !! r = Some w
          /\ orthogonalNeighbour row col w
          /\ Tower.activeSynergies <$> placed !! r = Some syn
          /\ syn <> Tower.activeSynergies w).
Proof.
  intros preview placed.
  set (m0 := SynergySystem.createTowerMap_pure existing h).
  set (m := <[(row, col) := mkGridTower row col element]> m0).
  assert (Hplaced : validRefs h existing -> forall i,
            placed !! i
            = if decide (i ∈ existing ++ [length h])
              then resynergise m
                     <$> (h ++ [Tower.new row col center element]) !! i
              else (h ++ [Tower.new row col center element]) !! i).
  { intros Hvalid i. unfold placed, placeTower.
    rewrite calculateAndApplySynergies_lookup.
    by rewrite createTowerMap_placed. }
  split; [reflexivity|]. split.
  { intros Hvalid. rewrite (Hplaced Hvalid).
    rewrite decide_True
      by (apply elem_of_app; right; by apply list_elem_of_singleton).
    by rewrite list_lookup_middle. }
  intros Hvalid Hdist Hcur.
  assert (Hold : forall r w, r ∈ existing -> h !! r = Some w ->
            Tower.activeSynergies <$> placed !! r
            = Some (SynergySystem.calculateSynergiesForTower
                      (asGridTower w) m)).
  { intros r w Hin Hw. rewrite (Hplaced Hvalid).
    rewrite decide_True by (apply elem_of_app; by left).
    rewrite lookup_app_l by (by apply Hvalid). by rewrite Hw. }
  intros r syn.
  change (SynergySystem.affectedTowers preview)
    with (omap (SynergySystem.previewNeighbour row col existing m h)
            SynergySystem.directions).
  rewrite list_elem_of_omap. split.
  - intros (d & Hd & Hsome).
    apply previewNeighbour_Some in Hsome as (w & Hfind & Hw & -> & Hlen).
    destruct (findTowerAt_Some _ _ _ _ _ Hfind)
      as (Hin & w' & Hw' & Hrow & Hcol).
    assert (w' = w) as -> by congruence.
    exists w. split; [done|]. split; [done|].
    split; [by exists d|]. split; [by apply Hold|].
    intros Heq. by rewrite Heq in Hlen.
  - intros (w & Hin & Hw & (d & Hd & Hrow & Hcol) & Hsyn & Hne).
    exists d. split; [done|].
    rewrite (Hold r w Hin Hw) in Hsyn. injection Hsyn as <-.
    apply previewNeighbour_Some. exists w.
    split; [by eapply findTowerAt_unique|]. split; [done|].
    split; [done|].
    intros Hlen. apply Hne.
    rewrite (Hcur r w Hin Hw). fold m0.
    apply calculateSynergiesForTower_length_eq.
    by rewrite Hlen, (Hcur r w Hin Hw).
Qed.

(** The statement of C7 on a board with a fire and a lightning tower two
    cells apart, for an ice tower placed between them. *)
Lemma C7_preview_witness :
  let existing := [0%nat; 1%nat] in
  let preview :=
    (SynergySystem.previewSynergies ice 3 4 existing boardTowers).1 in
  (validRefs boardTowers existing
   /\ cellsDistinct boardTowers existing
   /\ synergiesCurrent boardTowers existing)
  /\ SynergySystem.newTowerSynergies preview
     = [SYNERGY_CONFIGS ice_lightning]
  /\ SynergySystem.affectedTowers preview
     = [(0%nat, [SYNERGY_CONFIGS fire_ice])]
  /\ Tower.activeSynergies
       <$> placeTower ice 3 4 (mkPosition 180 140) existing boardTowers
           !! 0%nat
     = Some [SYNERGY_CONFIGS fire_ice]
  /\ (Tower.activeSynergies <$> boardTowers) = [[]; []].
Proof.
  intros existing preview.
  assert (Hvalid : validRefs boardTowers existing).
  { intros r Hin. apply list_elem_of_In in Hin.
    destruct Hin as [<-|[<-|[]]]; simpl; lia. }
  assert (Hdist : cellsDistinct boardTowers existing).
  { intros r1 r2 w1 w2 Hin1 Hin2 Hw1 Hw2 Hrow Hcol.
    apply list_elem_of_In in Hin1, Hin2.
    destruct Hin1 as [<-|[<-|[]]], Hin2 as [<-|[<-|[]]];
      try reflexivity;
      injection Hw1 as <-; injection Hw2 as <-; discriminate Hcol. }
  assert (Hcur : synergiesCurrent boardTowers existing).
  { intros r w Hin Hw. apply list_elem_of_In in Hin.
    destruct Hin as [<-|[<-|[]]]; injection Hw as <-; reflexivity. }
  split; [by repeat split|].
  split; [reflexivity|]. split; [reflexivity|].
  destruct (C7_preview_does_not_mutate ice 3 4 (mkPosition 180 140)
              existing boardTowers)
    as (_ & _ & Haff).
  destruct (proj1 (Haff Hvalid Hdist Hcur 0%nat [SYNERGY_CONFIGS fire_ice])
              (list_elem_of_here _ _))
    as (w & _ & _ & _ & Hsyn & _).
  split; [exact Hsyn|reflexivity].
Defined.

(* ===================================================================== *)
(** * Further properties of the combat core *)
(* ===================================================================== *)

(** ** The reaction table *)

Lemma fold_alter_lookup_notin {A} (f : A -> A) rs (l : list A) (i : nat) :
  i ∉ rs -> fold_left (fun h r => alter f r h) rs l !! i = l !! i.
Proof.
  revert l. induction rs as [|r rs IH]; intros l Hi; [done|].
  apply not_elem_of_cons in Hi as [Hne Hi]. simpl.
  rewrite IH by done. by rewrite list_lookup_alter_ne.
Qed.

Lemma fold_alter_length {A} (f : A -> A) rs (l : list A) :
  length (fold_left (fun h r => alter f r h) rs l) = length l.
Proof.
  revert l. induction rs as [|r rs IH]; intros l; [done|].
  simpl. by rewrite IH, length_alter.
Qed.

(** A property of the elements that [f] preserves survives any number of
    updates by [f]. *)
Lemma fold_alter_preserves {A} (P : A -> Prop) (f : A -> A) rs (l : list A)
    (i : nat) x :
  (forall y, P y -> P (f y)) ->
  l !! i = Some x -> P x ->
  exists x', fold_left (fun h r => alter f r h) rs l !! i = Some x' /\ P x'.
Proof.
  intros Hf. revert l x. induction rs as [|r rs IH]; intros l x Hl HP.
  - by exists x.
  - simpl. destruct (decide (i = r)) as [->|Hne].
    + apply (IH _ (f x)); [|by apply Hf].
      by rewrite list_lookup_alter_eq, Hl.
    + apply (IH _ x); [|done]. by rewrite list_lookup_alter_ne.
Qed.

(** The four outcomes of [checkAndTriggerReaction] on an enemy of the
    arena. *)
Lemma checkAndTriggerReaction_cases now enemy el B all (heap : list Enemy.t) e :
  heap !! enemy = Some e ->
  let result :=
    ReactionSystem.checkAndTriggerReaction now enemy el B all heap in
  (reactionOf (Enemy.status e) el = None
   /\ result
      = (<[enemy := Enemy.applyStatus (StElement el) e]> heap, None))
  \/ (reactionOf (Enemy.status e) el = Some melt
      /\ result
         = (<[enemy := Enemy.clearStatus
                         (Enemy.loseHealth
                            (JS.Math_floor (JS.Z2F B * 3.0)) e)]> heap,
            Some (mkReactionResult melt (REACTION_CONFIGS melt)
                    (Enemy.getCenter e)
                    (JS.Math_floor (JS.Z2F B * 3.0)) [enemy])))
  \/ (reactionOf (Enemy.status e) el = Some freeze
      /\ result
         = (<[enemy := Enemy.clearStatus (Enemy.freeze now 2000 e)]> heap,
            Some (mkReactionResult freeze (REACTION_CONFIGS freeze)
                    (Enemy.getCenter e) B [enemy])))
  \/ (reactionOf (Enemy.status e) el = Some explosion
      /\ result
         = (alter Enemy.clearStatus enemy
              (fold_left
                 (fun h r =>
                    alter (blast (Enemy.getCenter e)
                             (JS.Math_floor (JS.Z2F B * 1.5))) r h)
                 all heap),
            Some (mkReactionResult explosion (REACTION_CONFIGS explosion)
                    (Enemy.getCenter e)
                    (JS.Math_floor (JS.Z2F B * 1.5))
                    (blastList (Enemy.getCenter e)
                       (JS.Math_floor (JS.Z2F B * 1.5)) all heap enemy)))).
Proof.
  intros He result.
  destruct (reactionOf (Enemy.status e) el) as [[]|] eqn:Hr.
  - right; left. split; [done|].
    destruct (Enemy.status e) as [[[]| |]|] eqn:Hs; destruct el;
      try discriminate Hr.
    by apply checkAndTriggerReaction_melt.
  - right; right; left. split; [done|].
    destruct (Enemy.status e) as [[[]| |]|] eqn:Hs; destruct el;
      try discriminate Hr.
    by apply checkAndTriggerReaction_freeze.
  - right; right; right. split; [done|].
    destruct (Enemy.status e) as [[[]| |]|] eqn:Hs; destruct el;
      try discriminate Hr.
    subst result. unfold ReactionSystem.checkAndTriggerReaction.
    rewrite He, Hs, findReaction_oil_fire.
    unfold ReactionSystem.executeReaction. rewrite He.
    change (JS.or_default (damageMultiplier (REACTION_CONFIGS explosion)) 1.5)
      with 1.5%float.
    change (JS.or_default (explosionRadius (REACTION_CONFIGS explosion)) 80)
      with 80%float.
    unfold blastList.
    rewrite <- (explosion_fold_heap (Enemy.getCenter e) _ all heap [enemy]).
    by destruct (fold_left _ all (heap, [enemy])).
  - left. split; [done|].
    subst result. unfold ReactionSystem.checkAndTriggerReaction.
    rewrite He, (alter_lookup_Some _ _ _ _ He).
    destruct (Enemy.status e) as [[[]| |]|] eqn:Hs; destruct el;
      try discriminate Hr; reflexivity.
Qed.

(** The explosion loop only ever adds the enemies it visits to the list
    of the affected, and drops none. *)
Lemma explosion_fold_affected epicenter total rs (heap : list Enemy.t)
    affected :
  let out :=
    (fold_left (ReactionSystem.explosion_step epicenter total 80) rs
       (heap, affected)).2 in
  (forall x, x ∈ affected -> x ∈ out)
  /\ (forall x, x ∈ out -> x ∈ affected \/ x ∈ rs).
Proof.
  revert heap affected. induction rs as [|r rs IH]; intros heap affected.
  - simpl. split; auto.
  - cbn [fold_left].
    destruct (ReactionSystem.explosion_step epicenter total 80
                (heap, affected) r) as [h1 a1] eqn:E.
    assert (Ha : (forall x, x ∈ affected -> x ∈ a1)
                 /\ (forall x, x ∈ a1 -> x ∈ affected \/ x = r)).
    { unfold ReactionSystem.explosion_step in E.
      destruct (heap !! r) as [o|]; [|simplify_eq; by auto].
      destruct (negb (Enemy.isAlive o)); [simplify_eq; by auto|].
      destruct (PrimFloat.leb _ _); [|simplify_eq; by auto].
      destruct (bool_decide (r ∈ affected)); simplify_eq; [by auto|].
      split; intros x Hx.
      - apply elem_of_app; by left.
      - apply elem_of_app in Hx as [Hx|Hx%list_elem_of_singleton]; auto. }
    destruct Ha as [Ha1 Ha2]. destruct (IH h1 a1) as [IH1 IH2].
    split; intros x Hx.
    + apply IH1, Ha1, Hx.
    + destruct (IH2 x Hx) as [Hx'|Hx']; [|right; by right].
      destruct (Ha2 x Hx') as [?| ->]; [by left|right; by left].
Qed.

(** X1.  [checkAndTriggerReaction] fires a reaction exactly on the three
    pairs of the reaction table (ice hit by fire, ice hit by lightning,
    oil hit by fire), and then reports that reaction with the table's
    configuration at the target's centre.  On every other pair, and on
    an enemy without a status, it reports nothing and only overwrites
    the target's status with the attack element for 3000 ms: the rest of
    the arena, and the target's health, are as before. *)
Theorem X1_reaction_iff_in_table now enemy el B all (heap : list Enemy.t) e :
  heap !! enemy = Some e ->
  let result :=
    ReactionSystem.checkAndTriggerReaction now enemy el B all heap in
  match reactionOf (Enemy.status e) el with
  | Some t =>
      exists r,
        result.2 = Some r
        /\ rr_type r = t
        /\ rr_config r = REACTION_CONFIGS t
        /\ rr_position r = Enemy.getCenter e
  | None =>
      result = (<[enemy := Enemy.applyStatus (StElement el) e]> heap, None)
      /\ Enemy.status (Enemy.applyStatus (StElement el) e)
         = Some (StElement el)
      /\ Enemy.statusDuration (Enemy.applyStatus (StElement el) e) = 3000%Z
      /\ Enemy.health (Enemy.applyStatus (StElement el) e) = Enemy.health e
  end.
Proof.
  intros He result.
  destruct (checkAndTriggerReaction_cases now enemy el B all heap e He)
    as [[-> H]|[[-> H]|[[-> H]|[-> H]]]]; fold result in H; rewrite H.
  - done.
  - by eexists.
  - by eexists.
  - by eexists.
Qed.

Lemma X1_reaction_witness :
  let burning := Enemy.applyStatus (StElement fire) icedTank in
  [burning] !! 0%nat = Some burning
  /\ reactionOf (Enemy.status burning) lightning = None
  /\ (ReactionSystem.checkAndTriggerReaction 0 0 lightning 28 [0%nat]
        [burning]).2 = None
  /\ Enemy.status
       <$> (ReactionSystem.checkAndTriggerReaction 0 0 lightning 28 [0%nat]
              [burning]).1 !! 0%nat
     = Some (Some (StElement lightning)).
Proof.
  intros burning.
  pose proof (X1_reaction_iff_in_table 0 0 lightning 28 [0%nat] [burning]
                burning eq_refl) as H.
  change (reactionOf (Enemy.status burning) lightning) with (@None ReactionType)
    in H.
  cbv zeta in H. destruct H as (H & Hs & _).
  split; [reflexivity|]. split; [reflexivity|].
  by rewrite H.
Defined.

(** X2.  Every reaction consumes the status that triggered it: after a
    reported reaction the target carries no status, so the next hit on
    it, whatever its element, cannot react and only marks it.  The
    reaction lists the target among the affected enemies, lists nobody
    that is neither the target nor an enemy it was given, and leaves the
    arena at its size. *)
Theorem X2_reaction_consumes_status
    now enemy el B all (heap : list Enemy.t) e r :
  heap !! enemy = Some e ->
  let result :=
    ReactionSystem.checkAndTriggerReaction now enemy el B all heap in
  result.2 = Some r ->
  Enemy.status <$> result.1 !! enemy = Some None
  /\ Enemy.statusDuration <$> result.1 !! enemy = Some 0%Z
  /\ enemy ∈ rr_affectedEnemies r
  /\ (forall x, x ∈ rr_affectedEnemies r -> x = enemy \/ x ∈ all)
  /\ length result.1 = length heap
  /\ (forall now' el' B' all',
        (ReactionSystem.checkAndTriggerReaction now' enemy el' B' all'
           result.1).2 = None).
Proof.
  intros He result Hr.
  assert (Hlt : enemy < length heap) by (by eapply lookup_lt_Some).
  assert (Hcore :
            (exists e', result.1 !! enemy = Some (Enemy.clearStatus e'))
            /\ enemy ∈ rr_affectedEnemies r
            /\ (forall x, x ∈ rr_affectedEnemies r -> x = enemy \/ x ∈ all)
            /\ length result.1 = length heap).
  { destruct (checkAndTriggerReaction_cases now enemy el B all heap e He)
      as [[_ H]|[[_ H]|[[_ H]|[_ H]]]]; fold result in H; rewrite H in Hr |- *;
      simpl in Hr |- *; simplify_eq; simpl.
    - split; [eexists; by apply list_lookup_insert_eq|].
      split; [apply list_elem_of_here|].
      split; [intros x ->%list_elem_of_singleton; by left|].
      by rewrite length_insert.
    - split; [eexists; by apply list_lookup_insert_eq|].
      split; [apply list_elem_of_here|].
      split; [intros x ->%list_elem_of_singleton; by left|].
      by rewrite length_insert.
    - pose proof (explosion_fold_affected (Enemy.getCenter e)
                    (JS.Math_floor (JS.Z2F B * 1.5)) all heap [enemy])
        as [Hin Hout].
      split.
      { destruct (fold_alter_preserves (fun _ => True)
                    (blast (Enemy.getCenter e)
                       (JS.Math_floor (JS.Z2F B * 1.5)))
                    all heap enemy e ltac:(done) He I) as (e' & He' & _).
        exists e'. by rewrite list_lookup_alter_eq, He'. }
      split; [apply Hin, list_elem_of_here|].
      split.
      { intros x Hx. destruct (Hout x Hx) as [->%list_elem_of_singleton|?];
          auto. }
      by rewrite length_alter, fold_alter_length. }
  destruct Hcore as ((e' & He') & Hin & Hsub & Hlen).
  rewrite He'. repeat split; try done.
  intros now' el' B' all'.
  unfold ReactionSystem.checkAndTriggerReaction. by rewrite He'.
Qed.

Lemma X2_reaction_witness :
  let result :=
    ReactionSystem.checkAndTriggerReaction 0 0 fire 100 [0%nat] [icedTank] in
  [icedTank] !! 0%nat = Some icedTank
  /\ (rr_type <$> result.2) = Some melt
  /\ Enemy.status <$> result.1 !! 0%nat = Some None
  /\ (ReactionSystem.checkAndTriggerReaction 16 0 fire 100 [0%nat]
        result.1).2 = None.
Proof.
  intros result.
  destruct (X2_reaction_consumes_status 0 0 fire 100 [0%nat] [icedTank]
              icedTank
              (mkReactionResult melt (REACTION_CONFIGS melt)
                 (Enemy.getCenter icedTank) 300 [0%nat])
              eq_refl eq_refl) as (Hs & _ & _ & _ & _ & Hnext).
  split; [reflexivity|]. split; [reflexivity|].
  split; [exact Hs|apply Hnext].
Defined.

(** X3.  A reaction check touches no bystander.  An enemy other than the
    target is left exactly as it was unless it is one of the enemies
    handed to the check and the reaction is an explosion: melt, freeze
    and the marking of an unreactive hit act on the target alone. *)
Theorem X3_reaction_frame now enemy el B all (heap : list Enemy.t) i :
  i <> enemy ->
  let result :=
    ReactionSystem.checkAndTriggerReaction now enemy el B all heap in
  i ∉ all \/ (rr_type <$> result.2) <> Some explosion ->
  result.1 !! i = heap !! i.
Proof.
  intros Hne result Hcase.
  destruct (heap !! enemy) as [e|] eqn:He.
  - destruct (checkAndTriggerReaction_cases now enemy el B all heap e He)
      as [[_ H]|[[_ H]|[[_ H]|[_ H]]]]; fold result in H; rewrite H in Hcase |- *;
      simpl in Hcase |- *.
    + by rewrite list_lookup_insert_ne.
    + by rewrite list_lookup_insert_ne.
    + by rewrite list_lookup_insert_ne.
    + destruct Hcase as [Hout|Hno]; [|done].
      rewrite list_lookup_alter_ne by done.
      by apply fold_alter_lookup_notin.
  - subst result. unfold ReactionSystem.checkAndTriggerReaction.
    by rewrite He.
Qed.

Lemma X3_reaction_witness :
  let heap := [icedTank; rimTank] in
  let result :=
    ReactionSystem.checkAndTriggerReaction 0 0 fire 100 [0%nat; 1%nat] heap in
  (1%nat <> 0%nat /\ (rr_type <$> result.2) <> Some explosion)
  /\ result.1 !! 1%nat = Some rimTank.
Proof.
  intros heap result.
  assert (Hne : 1%nat <> 0%nat) by discriminate.
  assert (Hty : (rr_type <$> result.2) <> Some explosion) by discriminate.
  split; [done|].
  exact (X3_reaction_frame 0 0 fire 100 [0%nat; 1%nat] heap 1 Hne
           (or_intror Hty)).
Defined.

(** ** Death is final *)

Lemma loseHealth_dead d e :
  Enemy.isAlive e = false -> Enemy.isAlive (Enemy.loseHealth d e) = false.
Proof. intros H. rewrite loseHealth_isAlive, H. by destruct (_ <=? _)%Z. Qed.

Lemma takeDamage_dead d el e :
  Enemy.isAlive e = false ->
  Enemy.isAlive (Enemy.takeDamage d el e).1 = false.
Proof.
  intros H. unfold Enemy.takeDamage.
  destruct (tag_eqb el (Some physical)); [by apply loseHealth_dead|].
  destruct (Enemy.resistance e) as [r|]; [|by apply loseHealth_dead].
  destruct (tag_eqb el _); by apply loseHealth_dead.
Qed.

Lemma freeze_isAlive now d e :
  Enemy.isAlive (Enemy.freeze now d e) = Enemy.isAlive e.
Proof. unfold Enemy.freeze. by destruct (_ <? _)%Z. Qed.

Lemma blast_dead epicenter total o :
  Enemy.isAlive o = false -> Enemy.isAlive (blast epicenter total o) = false.
Proof.
  intros H. rewrite blast_outside; [done|]. unfold inBlast. by rewrite H.
Qed.

Lemma checkAndTriggerReaction_dead now enemy el B all (heap : list Enemy.t)
    i o :
  heap !! i = Some o -> Enemy.isAlive o = false ->
  Enemy.isAlive
    <$> (ReactionSystem.checkAndTriggerReaction now enemy el B all heap).1 !! i
  = Some false.
Proof.
  intros Hi Hdead.
  destruct (heap !! enemy) as [e|] eqn:He.
  - assert (Hlt : enemy < length heap) by (by eapply lookup_lt_Some).
    destruct (checkAndTriggerReaction_cases now enemy el B all heap e He)
      as [[_ H]|[[_ H]|[[_ H]|[_ H]]]]; rewrite H; simpl.
    + destruct (decide (i = enemy)) as [->|Hne].
      * rewrite list_lookup_insert_eq by done. simpl. f_equal.
        by simplify_eq.
      * rewrite list_lookup_insert_ne by done. by rewrite Hi; simpl; f_equal.
    + destruct (decide (i = enemy)) as [->|Hne].
      * rewrite list_lookup_insert_eq by done. simpl. f_equal.
        simplify_eq. by apply loseHealth_dead.
      * rewrite list_lookup_insert_ne by done. by rewrite Hi; simpl; f_equal.
    + destruct (decide (i = enemy)) as [->|Hne].
      * rewrite list_lookup_insert_eq by done. simpl. f_equal.
        simplify_eq. by rewrite freeze_isAlive.
      * rewrite list_lookup_insert_ne by done. by rewrite Hi; simpl; f_equal.
    + destruct (fold_alter_preserves (fun x => Enemy.isAlive x = false)
                  (blast (Enemy.getCenter e)
                     (JS.Math_floor (JS.Z2F B * 1.5)))
                  all heap i o (blast_dead _ _) Hi Hdead) as (o' & Ho' & Hd').
      destruct (decide (i = enemy)) as [->|Hne].
      * rewrite list_lookup_alter_eq, Ho'. simpl. by f_equal.
      * rewrite list_lookup_alter_ne by done. rewrite Ho'. simpl. by f_equal.
  - unfold ReactionSystem.checkAndTriggerReaction. rewrite He. simpl.
    rewrite Hi. simpl. by f_equal.
Qed.

(** X4.  No hit brings an enemy back: whatever the hit (evaded, resolved
    as a reaction of any kind, or as plain damage), an enemy of the arena
    that was dead before [resolveHit] is dead after it.  In particular an
    explosion passes over the dead, and a reaction on a dead target does
    not revive it. *)
Theorem X4_hits_never_revive now enemies hitResult (heap : list Enemy.t) g
    i o :
  heap !! i = Some o ->
  Enemy.isAlive o = false ->
  Enemy.isAlive <$> (Game.resolveHit now enemies hitResult heap g).1.1 !! i
  = Some false.
Proof.
  intros Hi Hdead. unfold Game.resolveHit, random.
  destruct (heap !! hit_target hitResult) as [e|] eqn:He;
    [|simpl; rewrite Hi; simpl; by f_equal].
  destruct (Enemy.tryEvade _ e); [simpl; rewrite Hi; simpl; by f_equal|].
  pose proof (checkAndTriggerReaction_dead now (hit_target hitResult)
                (hit_element hitResult) (hit_damage hitResult) enemies
                heap i o Hi Hdead) as Hc.
  destruct (ReactionSystem.checkAndTriggerReaction _ _ _ _ _ heap)
    as [heap1 [r|]]; simpl in Hc |- *; [done|].
  destruct (heap1 !! hit_target hitResult) as [e1|] eqn:He1; [|done].
  destruct (Enemy.takeDamage _ _ e1) as [e2 actual] eqn:Htd. simpl.
  destruct (decide (i = hit_target hitResult)) as [->|Hne].
  - rewrite list_lookup_insert_eq by (by eapply lookup_lt_Some). simpl.
    f_equal. rewrite He1 in Hc. simpl in Hc.
    replace e2 with (Enemy.takeDamage (hit_damage hitResult)
                       (Some (hit_element hitResult)) e1).1
      by (by rewrite Htd).
    apply takeDamage_dead. by simplify_eq.
  - by rewrite list_lookup_insert_ne.
Qed.

Lemma X4_never_revive_witness :
  let fallen := (Enemy.takeDamage 500 None oilyTank).1 in
  ([fallen; rimTank] !! 0%nat = Some fallen
   /\ Enemy.isAlive fallen = false)
  /\ Enemy.status fallen = Some oil
  /\ Enemy.isAlive
       <$> (Game.resolveHit 0 [0%nat; 1%nat] (fireHit 100 0)
              [fallen; rimTank] (constantRng 0.5)).1.1 !! 0%nat
     = Some false.
Proof.
  intros fallen.
  split; [by split|]. split; [reflexivity|].
  exact (X4_hits_never_revive 0 [0%nat; 1%nat] (fireHit 100 0)
           [fallen; rimTank] (constantRng 0.5) 0 fallen eq_refl eq_refl).
Defined.

(** ** Hit points stay in range *)

Lemma loseHealth_inRange d e :
  (0 <= d)%Z -> healthInRange e -> healthInRange (Enemy.loseHealth d e).
Proof.
  intros Hd [Hr Ha]. unfold healthInRange.
  rewrite loseHealth_health, loseHealth_isAlive. unfold healthAfter.
  assert (Hm : Enemy.maxHealth (Enemy.loseHealth d e) = Enemy.maxHealth e).
  { unfold Enemy.loseHealth; simpl. by destruct (_ <=? _)%Z. }
  rewrite Hm.
  destruct (Enemy.health e - d <=? 0)%Z eqn:E.
  - split; [lia|done].
  - apply Z.leb_gt in E. split; [lia|]. intros _. lia.
Qed.

Lemma enemyDo_inRange e op :
  gentle op -> healthInRange e -> healthInRange (enemyDo e op).
Proof.
  intros Hop He. destruct op as [d el|a|s| |now d|t]; simpl in *.
  - unfold Enemy.takeDamage.
    destruct (tag_eqb el (Some physical)); [by apply loseHealth_inRange|].
    destruct (Enemy.resistance e) as [r|]; [|by apply loseHealth_inRange].
    destruct (tag_eqb el _); by apply loseHealth_inRange.
  - destruct He as [Hr Ha]. unfold healthInRange, Boss.heal; simpl.
    split; [lia|]. intros H. specialize (Ha H). lia.
  - done.
  - done.
  - unfold Enemy.freeze. by destruct (_ <? _)%Z.
  - destruct He as [Hr Ha]. unfold healthInRange, Enemy.attackTower; simpl.
    destruct (tag_eqb (Enemy.enemyType e) breaker); simpl; [|done].
    split; [lia|done].
Qed.

Lemma enemyDo_maxHealth e op :
  Enemy.maxHealth (enemyDo e op) = Enemy.maxHealth e.
Proof.
  destruct op as [d el|a|s| |now d|t]; simpl; try done.
  - unfold Enemy.takeDamage, Enemy.loseHealth.
    destruct (tag_eqb el (Some physical)); simpl;
      [by destruct (_ <=? _)%Z|].
    destruct (Enemy.resistance e) as [r|]; simpl;
      [|by destruct (_ <=? _)%Z].
    destruct (tag_eqb el _); simpl; by destruct (_ <=? _)%Z.
  - unfold Enemy.freeze. by destruct (_ <? _)%Z.
  - unfold Enemy.attackTower; simpl.
    by destruct (tag_eqb (Enemy.enemyType e) breaker).
Qed.

Lemma enemyDo_dead e op :
  Enemy.isAlive e = false -> Enemy.isAlive (enemyDo e op) = false.
Proof.
  intros H. destruct op as [d el|a|s| |now d|t]; simpl; try done.
  - by apply takeDamage_dead.
  - by rewrite freeze_isAlive.
  - unfold Enemy.attackTower; simpl.
    by destruct (tag_eqb (Enemy.enemyType e) breaker).
Qed.

(** X5.  Through any sequence of the methods that write an enemy's
    combat state ([takeDamage] with or without an attack element,
    [heal], [applyStatus], [clearStatus], [freeze], [attackTower]), with
    damage and healing amounts that are not negative, the health stays
    between zero and the maximum health, the maximum health never
    changes, a living enemy has health above zero, and a dead enemy
    stays dead: [heal] restores health but never life. *)
Theorem X5_enemy_health_stays_in_range (ops : list EnemyOp) (e : Enemy.t) :
  healthInRange e ->
  Forall gentle ops ->
  let e' := fold_left enemyDo ops e in
  healthInRange e'
  /\ Enemy.maxHealth e' = Enemy.maxHealth e
  /\ (Enemy.isAlive e = false -> Enemy.isAlive e' = false).
Proof.
  intros He Hops. revert e He.
  induction Hops as [|op ops Hop Hops IH]; intros e He; [done|].
  cbn [fold_left].
  destruct (IH (enemyDo e op) (enemyDo_inRange e op Hop He))
    as (H1 & H2 & H3).
  split; [done|]. split; [by rewrite H2, enemyDo_maxHealth|].
  intros Hd. by apply H3, enemyDo_dead.
Qed.

Lemma X5_enemy_health_witness :
  let ops := [Hit 1990 None; Heal 200; Hit 500 (Some fire); Heal 200;
              Mark oil; Hit 0 (Some physical)] in
  (healthInRange firstBoss /\ Forall gentle ops)
  /\ Enemy.health firstBoss = 2000%Z
  /\ Enemy.health (fold_left enemyDo ops firstBoss) = 200%Z
  /\ Enemy.isAlive (fold_left enemyDo ops firstBoss) = false
  /\ healthInRange (fold_left enemyDo ops firstBoss).
Proof.
  intros ops.
  assert (H0 : healthInRange firstBoss).
  { split; [by vm_compute|]. intros _. by vm_compute. }
  assert (Hg : Forall gentle ops).
  { repeat apply Forall_cons_2; try apply Forall_nil_2; simpl; done || lia. }
  split; [done|]. split; [reflexivity|]. split; [reflexivity|].
  split; [reflexivity|].
  exact (proj1 (X5_enemy_health_stays_in_range ops firstBoss H0 Hg)).
Defined.

Lemma towerDo_step w k op :
  harmless op -> hpInRange w ->
  let st := towerDo (w, k) op in
  hpInRange st.1
  /\ Tower.maxHp st.1 = Tower.maxHp w
  /\ (Tower.isAlive w = false ->
      Tower.isAlive st.1 = false /\ Tower.hp st.1 = Tower.hp w)
  /\ st.2 = (k + if Tower.isAlive w && negb (Tower.isAlive st.1)
                 then 1 else 0)%nat.
Proof.
  intros Hop [Hr Ha]. destruct op as [d|a|l| |now duration|now]; simpl in *.
  - unfold Tower.takeDamage.
    destruct (Tower.isAlive w) eqn:Hal; simpl.
    + assert (0 < Tower.hp w)%Z by (by apply Ha).
      destruct (Tower.hp w - d <=? 0)%Z eqn:E; simpl.
      * unfold hpInRange; simpl. repeat split; try lia; try done.
      * apply Z.leb_gt in E. unfold hpInRange; simpl. rewrite Hal.
        repeat split; try lia; try done.
    + unfold hpInRange. rewrite Hal. repeat split; try lia; try apply Ha.
  - unfold TowerLife.heal.
    destruct (Tower.isAlive w) eqn:Hal; simpl.
    + assert (0 < Tower.hp w)%Z by (by apply Ha).
      unfold hpInRange; simpl. rewrite Hal.
      repeat split; try lia; try done.
    + unfold hpInRange. rewrite Hal. repeat split; try lia; try apply Ha.
  - unfold hpInRange; simpl.
    destruct (Tower.isAlive w); simpl; repeat split; try lia; try apply Ha.
  - unfold hpInRange; simpl.
    destruct (Tower.isAlive w); simpl; repeat split; try lia; try apply Ha.
  - unfold hpInRange; simpl.
    destruct (Tower.isAlive w); simpl; repeat split; try lia; try apply Ha.
  - destruct (Tower.isSilenced w && _); unfold hpInRange; simpl;
      destruct (Tower.isAlive w); simpl; repeat split; try lia; try apply Ha.
Qed.

(** X6.  Through any sequence of [takeDamage], [heal], [setSynergies],
    [clearSynergies], [applySilence] and [checkSilenced] with amounts
    that are not negative, the hit points of a tower stay between zero
    and its maximum, the tower stands exactly while they are above zero,
    and a destroyed tower is neither repaired nor damaged further.
    [takeDamage] reports the destruction exactly once: over the whole
    sequence the number of reports is one if the tower went from
    standing to destroyed and zero otherwise. *)
Theorem X6_tower_destroyed_once (ops : list TowerOp) (w : Tower.t) :
  hpInRange w ->
  Forall harmless ops ->
  let st := fold_left towerDo ops (w, 0%nat) in
  hpInRange st.1
  /\ Tower.maxHp st.1 = Tower.maxHp w
  /\ (Tower.isAlive w = false ->
      Tower.isAlive st.1 = false /\ Tower.hp st.1 = Tower.hp w)
  /\ st.2 = if Tower.isAlive w && negb (Tower.isAlive st.1)
            then 1%nat else 0%nat.
Proof.
  intros Hw Hops.
  enough (Hgen : forall k,
             let st := fold_left towerDo ops (w, k) in
             hpInRange st.1
             /\ Tower.maxHp st.1 = Tower.maxHp w
             /\ (Tower.isAlive w = false ->
                 Tower.isAlive st.1 = false /\ Tower.hp st.1 = Tower.hp w)
             /\ st.2 = (k + if Tower.isAlive w && negb (Tower.isAlive st.1)
                            then 1 else 0)%nat) by apply (Hgen 0%nat).
  revert w Hw. induction Hops as [|op ops Hop Hops IH]; intros w Hw k.
  - simpl. repeat split; try apply Hw; try done.
    destruct (Tower.isAlive w); simpl; lia.
  - cbn [fold_left].
    destruct (towerDo_step w k op Hop Hw) as (S1 & S2 & S3 & S4).
    destruct (towerDo (w, k) op) as [w1 k1] eqn:E. simpl in S1, S2, S3, S4.
    destruct (IH w1 S1 k1) as (I1 & I2 & I3 & I4).
    split; [done|]. split; [by rewrite I2|].
    split.
    + intros Hd. destruct (S3 Hd) as [Hd1 Hh1]. destruct (I3 Hd1) as [? ?].
      split; [done|congruence].
    + rewrite I4.
      destruct (Tower.isAlive w) eqn:Hal; simpl in S4 |- *.
      * destruct (Tower.isAlive w1) eqn:Hal1; simpl in S4 |- *; [lia|].
        destruct (I3 eq_refl) as [-> _]. simpl. lia.
      * destruct (S3 eq_refl) as [Hd1 _]. rewrite Hd1. simpl. lia.
Qed.

Lemma X6_tower_witness :
  let ops := [Batter 60; Repair 30; Silence 0 3000; Batter 70; Repair 50;
              Unsilence 4000; Batter 20] in
  (hpInRange cornerTower /\ Forall harmless ops)
  /\ Tower.hp cornerTower = 100%Z
  /\ Tower.hp (fold_left towerDo ops (cornerTower, 0%nat)).1 = 0%Z
  /\ (fold_left towerDo ops (cornerTower, 0%nat)).2 = 1%nat.
Proof.
  intros ops.
  assert (H0 : hpInRange cornerTower).
  { split; [by vm_compute|]. split; [by vm_compute|done]. }
  assert (Hg : Forall harmless ops).
  { repeat apply Forall_cons_2; try apply Forall_nil_2; simpl; lia. }
  split; [done|]. split; [reflexivity|]. split; [reflexivity|].
  destruct (X6_tower_destroyed_once ops cornerTower H0 Hg) as (_ & _ & _ & Hn).
  exact Hn.
Defined.

(** ** Merging and levels *)

(** A tower placed by the game is the level-1 tower of the constructor. *)
Lemma new_at_level_1 row col center element :
  TowerLife.new row col center element 1
  = (1%Z, Tower.new row col center element).
Proof. by destruct element. Qed.

Lemma mergeDrop_cases towers existing cardElement (levels : list Z)
    (th : list Tower.t) :
  let out := Upkeep.mergeDrop towers existing cardElement (levels, th) in
  (out = (levels, th, false)
   /\ ~ (exists w, levels !! existing = Some 1%Z
                   /\ th !! existing = Some w
                   /\ Tower.element w = cardElement))
  \/ (exists w,
        levels !! existing = Some 1%Z
        /\ th !! existing = Some w
        /\ Tower.element w = cardElement
        /\ out
           = (<[existing := 2%Z]> levels,
              (SynergySystem.calculateAndApplySynergies towers
                 (<[existing := TowerLife.withConfig 2 w]> th)).2,
              true)).
Proof.
  intros out. subst out. unfold Upkeep.mergeDrop.
  destruct (levels !! existing) as [level|] eqn:Hl;
    [|left; split; [done|]; intros (w & ? & _); done].
  destruct (th !! existing) as [w|] eqn:Hw;
    [|left; split; [done|]; intros (w & _ & ? & _); done].
  unfold TowerLife.canMergeWith, tag_eqb, MAX_TOWER_LEVEL. simpl.
  destruct (bool_decide (Tower.element w = cardElement)) eqn:Hel; simpl.
  - apply bool_decide_eq_true in Hel.
    destruct (level =? 1)%Z eqn:H1; simpl.
    + apply Z.eqb_eq in H1. subst level. simpl.
      right. exists w. by repeat split.
    + apply Z.eqb_neq in H1. left. split; [done|].
      intros (w' & ? & _). congruence.
  - apply bool_decide_eq_false in Hel. left. split; [done|].
    intros (w' & _ & ? & ?). congruence.
Qed.

(** X7.  Merging is one-shot.  A tower card dropped on a standing tower
    merges exactly when the tower has the card's element and is at level
    1: the tower then goes to level 2 with the statistics of that level
    (hit points restored to the new maximum of 150, damage doubled), and
    the card is consumed.  In every other case nothing changes and the
    card is handed back; in particular a level-2 tower refuses every
    card.  So over any sequence of drops on towers placed at level 1 the
    levels stay 1 or 2: the maximum level 3 is never reached, and the
    refusal of [levelUp] at the maximum level is never what stops a
    merge.  (The constructor itself caps the level at 3, and at level 1
    builds the tower that the game places.) *)
Theorem X7_merge_is_one_shot towers drops existing cardElement
    (levels : list Z) (th : list Tower.t) :
  Forall (fun l => l = 1 \/ l = 2)%Z levels ->
  let out := Upkeep.mergeDrop towers existing cardElement (levels, th) in
  Forall (fun l => l = 1 \/ l = 2)%Z (mergeRun towers drops (levels, th)).1
  /\ (out.2 = true <->
      exists w, levels !! existing = Some 1%Z
                /\ th !! existing = Some w
                /\ Tower.element w = cardElement)
  /\ (out.2 = true ->
      out.1.1 !! existing = Some 2%Z
      /\ Tower.hp <$> out.1.2 !! existing = Some 150%Z
      /\ Tower.maxHp <$> out.1.2 !! existing = Some 150%Z
      /\ Tower.baseDamage <$> out.1.2 !! existing
         = Some (2 * Tower.ELEMENT_BASE_DAMAGE cardElement)%Z)
  /\ (out.2 = false -> out.1 = (levels, th))
  /\ (levels !! existing = Some 2%Z -> out = (levels, th, false))
  /\ (forall row col center level,
        ((TowerLife.new row col center cardElement level).1
         <= MAX_TOWER_LEVEL)%Z
        /\ TowerLife.new row col center cardElement 1
           = (1%Z, Tower.new row col center cardElement)).
Proof.
  intros Hlv out.
  assert (Hnew : forall row col center level,
            ((TowerLife.new row col center cardElement level).1
             <= MAX_TOWER_LEVEL)%Z
            /\ TowerLife.new row col center cardElement 1
               = (1%Z, Tower.new row col center cardElement)).
  { intros row col center level. split; [simpl; lia|].
    apply new_at_level_1. }
  split.
  { clear out. revert levels th Hlv.
    induction drops as [|[r el] drops IH]; intros levels th Hlv; [done|].
    change (mergeRun towers ((r, el) :: drops) (levels, th))
      with (mergeRun towers drops
              (Upkeep.mergeDrop towers r el (levels, th)).1).
    destruct (mergeDrop_cases towers r el levels th)
      as [[-> _]|(w & Hl & Hw & Hel & ->)].
    - by apply IH.
    - apply IH. apply Forall_insert; [done|by right]. }
  destruct (mergeDrop_cases towers existing cardElement levels th)
    as [[Hout Hno]|(w & Hl & Hw & Hel & Hout)]; fold out in Hout;
    rewrite Hout; simpl.
  - split; [split; [done|by intros ?%Hno]|].
    split; [done|]. split; [done|]. split; [done|]. done.
  - assert (Hlt : existing < length levels) by (by eapply lookup_lt_Some).
    assert (Hlt' : existing < length th) by (by eapply lookup_lt_Some).
    split; [split; [by exists w|done]|].
    split.
    { intros _. split; [by apply list_lookup_insert_eq|].
      rewrite !calculateAndApplySynergies_frame by done.
      rewrite !list_lookup_insert_eq by done. simpl.
      rewrite Hel. repeat split; f_equal; lia. }
    split; [done|]. split; [|done]. intros Hl2. congruence.
Qed.

Lemma X7_merge_witness :
  let levels := [1%Z; 1%Z] in
  let th := [Tower.new 3 3 (mkPosition 140 140) fire;
             Tower.new 3 5 (mkPosition 220 140) lightning] in
  let drops := [(0%nat, fire); (0%nat, fire); (1%nat, ice); (0%nat, fire)] in
  Forall (fun l => l = 1 \/ l = 2)%Z levels
  /\ (mergeRun [0%nat; 1%nat] drops (levels, th)).1 = [2%Z; 1%Z]
  /\ Forall (fun l => l = 1 \/ l = 2)%Z
       (mergeRun [0%nat; 1%nat] drops (levels, th)).1.
Proof.
  intros levels th drops.
  assert (H0 : Forall (fun l => l = 1 \/ l = 2)%Z levels).
  { repeat apply Forall_cons_2; try apply Forall_nil_2; by left. }
  split; [done|]. split; [reflexivity|].
  exact (proj1 (X7_merge_is_one_shot [0%nat; 1%nat] drops 0 fire levels th
                  H0)).
Defined.

(** ** Firing *)

Lemma updateVelocity_rest tgt p :
  Projectile.position (Projectile.updateVelocity tgt p)
  = Projectile.position p
  /\ Projectile.isActive (Projectile.updateVelocity tgt p)
     = Projectile.isActive p
  /\ Projectile.speed (Projectile.updateVelocity tgt p) = Projectile.speed p
  /\ Projectile.size (Projectile.updateVelocity tgt p) = Projectile.size p.
Proof.
  unfold Projectile.updateVelocity.
  destruct (negb (Enemy.isAlive tgt)); [done|].
  by destruct (JS.gtb _ 0).
Qed.

(** X8.  [tryFire] fires exactly when it may: the tower is not under a
    silence that is still running, its target is a living enemy of the
    arena within range, and the fire interval has elapsed since the last
    shot.  The projectile then starts active at the tower's position,
    flies at the tower's target with the tower's element and its
    effective damage (synergies included), and the shot is stamped with
    the frame's time.  When nothing is fired the time of the last shot
    is left as it was. *)
Theorem X8_tryFire_fires_iff_may (heap : list Enemy.t) currentTime w :
  let out := Tower.tryFire heap currentTime w in
  (forall p, out.2 = Some p ->
     exists r e,
       mayFire heap currentTime w r e
       /\ Projectile.target p = r
       /\ Projectile.element p = Tower.element w
       /\ Projectile.damage p = Tower.getEffectiveDamage w
       /\ Projectile.position p = Tower.position w
       /\ Projectile.isActive p = true
       /\ Tower.lastFireTime out.1 = currentTime
       /\ Tower.currentTarget out.1 = Some r
       /\ Tower.isSilenced out.1 = false)
  /\ (forall r e, mayFire heap currentTime w r e -> out.2 <> None)
  /\ (out.2 = None -> Tower.lastFireTime out.1 = Tower.lastFireTime w).
Proof.
  intros out. subst out. unfold Tower.tryFire, mayFire.
  destruct (Tower.isSilenced w) eqn:Hsil; simpl.
  - destruct (JS.geb currentTime (Tower.silenceEndTime w)) eqn:Hend; simpl.
    + destruct (Tower.currentTarget w) as [r|] eqn:Ht; simpl.
      * destruct (heap !! r) as [e|] eqn:Hr; simpl.
        -- destruct (Enemy.isAlive e) eqn:Hal; simpl.
           ++ destruct (PrimFloat.ltb _ (Tower.fireRate w)) eqn:Hrate; simpl.
              ** repeat split; try done.
                 intros r' e' (_ & [= <-] & He' & _ & ? & _). congruence.
              ** change (Tower.isInRange e (Tower.set_isSilenced false w))
                   with (Tower.isInRange e w).
                 destruct (Tower.isInRange e w) eqn:Hin; simpl.
                 --- repeat split; try done.
                     intros p [= <-]. exists r, e.
                     destruct (updateVelocity_frame e
                       (Projectile.mk (Tower.position w) 8
                          (if negb (length (Tower.activeSynergies w) =? 0)%nat
                           then 8%float else 6%float)
                          (Tower.getEffectiveDamage
                             (Tower.set_lastFireTime currentTime
                                (Tower.set_isSilenced false w)))
                          true (Tower.element w) r (mkPosition 0 0)))
                       as (F1 & F2 & F3).
                     destruct (updateVelocity_rest e
                       (Projectile.mk (Tower.position w) 8
                          (if negb (length (Tower.activeSynergies w) =? 0)%nat
                           then 8%float else 6%float)
                          (Tower.getEffectiveDamage
                             (Tower.set_lastFireTime currentTime
                                (Tower.set_isSilenced false w)))
                          true (Tower.element w) r (mkPosition 0 0)))
                       as (G1 & G2 & _).
                     unfold Projectile.new. simpl.
                     rewrite F1, F2, F3, G1, G2. by repeat split.
                 --- repeat split; try done.
                     intros r' e' (_ & [= <-] & He' & _ & _ & ?). congruence.
           ++ repeat split; try done.
              intros r' e' (_ & [= <-] & He' & ? & _). congruence.
        -- repeat split; try done.
           intros r' e' (_ & [= <-] & ? & _). congruence.
      * repeat split; try done. intros r' e' (_ & ? & _). congruence.
    + repeat split; try done. intros r' e' (H & _). by specialize (H eq_refl).
  - destruct (Tower.currentTarget w) as [r|] eqn:Ht; simpl.
    + destruct (heap !! r) as [e|] eqn:Hr; simpl.
      * destruct (Enemy.isAlive e) eqn:Hal; simpl.
        -- destruct (PrimFloat.ltb _ (Tower.fireRate w)) eqn:Hrate; simpl.
           ++ repeat split; try done.
              intros r' e' (_ & [= <-] & He' & _ & ? & _). congruence.
           ++ destruct (Tower.isInRange e w) eqn:Hin; simpl.
              ** repeat split; try done.
                 intros p [= <-]. exists r, e.
                 destruct (updateVelocity_frame e
                   (Projectile.mk (Tower.position w) 8
                      (if negb (length (Tower.activeSynergies w) =? 0)%nat
                       then 8%float else 6%float)
                      (Tower.getEffectiveDamage
                         (Tower.set_lastFireTime currentTime w))
                      true (Tower.element w) r (mkPosition 0 0)))
                   as (F1 & F2 & F3).
                 destruct (updateVelocity_rest e
                   (Projectile.mk (Tower.position w) 8
                      (if negb (length (Tower.activeSynergies w) =? 0)%nat
                       then 8%float else 6%float)
                      (Tower.getEffectiveDamage
                         (Tower.set_lastFireTime currentTime w))
                      true (Tower.element w) r (mkPosition 0 0)))
                   as (G1 & G2 & _).
                 unfold Projectile.new. simpl.
                 rewrite F1, F2, F3, G1, G2. by repeat split.
              ** repeat split; try done.
                 intros r' e' (_ & [= <-] & He' & _ & _ & ?). congruence.
        -- repeat split; try done.
           intros r' e' (_ & [= <-] & He' & ? & _). congruence.
      * repeat split; try done.
        intros r' e' (_ & [= <-] & ? & _). congruence.
    + repeat split; try done. intros r' e' (_ & ? & _). congruence.
Qed.

Lemma X8_tryFire_witness :
  mayFire [walker] 1000 lockedTower 0 walker
  /\ (Tower.tryFire [walker] 1000 lockedTower).2 <> None
  /\ (Tower.tryFire [walker] 999 lockedTower).2 = None.
Proof.
  assert (Hmay : mayFire [walker] 1000 lockedTower 0 walker).
  { split; [intros Hs; discriminate Hs|]. by repeat split. }
  split; [exact Hmay|]. split; [|reflexivity].
  destruct (X8_tryFire_fires_iff_may [walker] 1000 lockedTower)
    as (_ & Hfires & _).
  exact (Hfires 0%nat walker Hmay).
Defined.

Lemma findTarget_clock (heap : list Enemy.t) enemies w :
  Tower.fireRate (Tower.findTarget heap enemies w) = Tower.fireRate w
  /\ Tower.lastFireTime (Tower.findTarget heap enemies w)
     = Tower.lastFireTime w.
Proof. unfold Tower.findTarget. by destruct (Tower.targetValid heap w). Qed.

Lemma tryFire_clock (heap : list Enemy.t) currentTime w :
  let out := Tower.tryFire heap currentTime w in
  Tower.fireRate out.1 = Tower.fireRate w
  /\ match out.2 with
     | Some _ =>
         PrimFloat.ltb (currentTime - Tower.lastFireTime w) (Tower.fireRate w)
         = false
         /\ Tower.lastFireTime out.1 = currentTime
     | None => Tower.lastFireTime out.1 = Tower.lastFireTime w
     end.
Proof.
  intros out. subst out. unfold Tower.tryFire.
  destruct (Tower.isSilenced w && _); [done|].
  assert (Hw1 : forall w1,
            w1 = (if Tower.isSilenced w then Tower.set_isSilenced false w
                  else w) ->
            Tower.fireRate w1 = Tower.fireRate w
            /\ Tower.lastFireTime w1 = Tower.lastFireTime w).
  { intros w1 ->. by destruct (Tower.isSilenced w). }
  destruct (Hw1 _ eq_refl) as [Hr Hl].
  set (w1 := if Tower.isSilenced w then _ else w) in *.
  destruct (Tower.currentTarget w1) as [r|]; [|done].
  destruct (heap !! r) as [e|]; [|done].
  destruct (negb (Enemy.isAlive e)); [done|].
  rewrite Hr, Hl.
  destruct (PrimFloat.ltb _ (Tower.fireRate w)) eqn:Hrate; [done|].
  destruct (negb (Tower.isInRange e w1)); simpl; [done|].
  done.
Qed.

Lemma towerTick_clock (heap : list Enemy.t) enemies currentTime w :
  let out := Game.towerTick heap enemies currentTime w in
  Tower.fireRate out.1 = Tower.fireRate w
  /\ match out.2 with
     | Some _ =>
         PrimFloat.ltb (currentTime - Tower.lastFireTime w) (Tower.fireRate w)
         = false
         /\ Tower.lastFireTime out.1 = currentTime
     | None => Tower.lastFireTime out.1 = Tower.lastFireTime w
     end.
Proof.
  intros out. subst out. unfold Game.towerTick.
  destruct (negb (Tower.isAlive w)); [done|].
  destruct (findTarget_clock heap enemies w) as [Hr Hl].
  pose proof (tryFire_clock heap currentTime
                (Tower.findTarget heap enemies w)) as H.
  cbv zeta in H. by rewrite Hr, Hl in H.
Qed.

(** X9.  A tower never fires faster than its fire interval.  Over any
    run of the tower pass, whatever the enemies do and however the
    tower retargets, is silenced or loses its target in between, each
    shot comes at a frame whose timestamp is not less than the fire
    interval after the timestamp of the previous shot (and the first
    shot not less than the interval after the tower's recorded last
    shot). *)
Theorem X9_shots_are_spaced (frames : list Frame) (w : Tower.t) :
  spaced (Tower.fireRate w) (Tower.lastFireTime w) (shots frames w).
Proof.
  revert w. induction frames as [|f frames IH]; intros w; [done|].
  cbn [shots].
  pose proof (towerTick_clock f.1.1 f.1.2 f.2 w) as H. cbv zeta in H.
  destruct (Game.towerTick f.1.1 f.1.2 f.2 w) as [w1 [p|]];
    simpl in H; destruct H as [Hr H].
  - destruct H as [Hlt Hl]. split; [done|].
    specialize (IH w1). by rewrite Hr, Hl in IH.
  - specialize (IH w1). by rewrite Hr, H in IH.
Qed.

Lemma X9_shots_witness :
  let frames : list Frame :=
    [([walker], [0%nat], 16%float); ([walker], [0%nat], 1000%float);
     ([walker], [0%nat], 1500%float); ([walker], [0%nat], 2000%float)] in
  shots frames cornerTower = [1000%float; 2000%float]
  /\ spaced 1000 0 (shots frames cornerTower).
Proof.
  intros frames. split; [reflexivity|].
  exact (X9_shots_are_spaced frames cornerTower).
Defined.

(** ** Flight of a projectile *)

Lemma Projectile_update_frame tgt g p :
  let p' := (Projectile.update tgt g p).1.1 in
  Projectile.target p' = Projectile.target p
  /\ Projectile.element p' = Projectile.element p
  /\ Projectile.damage p' = Projectile.damage p.
Proof.
  intros p'. subst p'. unfold Projectile.update.
  destruct (negb (Projectile.isActive p)); [done|].
  assert (H1 : forall p1,
            p1 = (if Enemy.isAlive tgt then Projectile.updateVelocity tgt p
                  else p) ->
            Projectile.target p1 = Projectile.target p
            /\ Projectile.element p1 = Projectile.element p
            /\ Projectile.damage p1 = Projectile.damage p).
  { intros p1 ->. destruct (Enemy.isAlive tgt); [|done].
    apply updateVelocity_frame. }
  specialize (H1 _ eq_refl).
  set (p1 := if Enemy.isAlive tgt then _ else p) in *.
  destruct (Projectile.isOutOfBounds _); [done|].
  destruct (Enemy.isAlive tgt && _); done.
Qed.

Lemma Projectile_update_miss tgt g p :
  (Projectile.update tgt g p).1.2 = None ->
  (Projectile.update tgt g p).2 = g.
Proof.
  unfold Projectile.update.
  destruct (negb (Projectile.isActive p)); [done|].
  destruct (Projectile.isOutOfBounds _); [done|].
  destruct (Enemy.isAlive tgt && _); done.
Qed.

Lemma Projectile_update_inactive tgt g p :
  Projectile.isActive p = false -> Projectile.update tgt g p = (p, None, g).
Proof. intros H. unfold Projectile.update. by rewrite H. Qed.

Lemma flight_inactive tgts g p :
  Projectile.isActive p = false -> flight tgts g p = ([], p, g).
Proof.
  intros H. induction tgts as [|tgt tgts IH]; [done|].
  cbn [flight]. by rewrite (Projectile_update_inactive _ _ _ H), IH.
Qed.

Lemma Projectile_update_damage tgt g p h :
  (Projectile.update tgt g p).1.2 = Some h ->
  hit_damage h
  = if hit_isCritical h
    then JS.Math_floor (JS.Z2F (Projectile.damage p) * 2.0)
    else Projectile.damage p.
Proof.
  unfold Projectile.update.
  destruct (negb (Projectile.isActive p)); [done|].
  assert (H1 : forall p1,
            p1 = (if Enemy.isAlive tgt then Projectile.updateVelocity tgt p
                  else p) ->
            Projectile.damage p1 = Projectile.damage p).
  { intros p1 ->. destruct (Enemy.isAlive tgt); [|done].
    apply updateVelocity_frame. }
  specialize (H1 _ eq_refl).
  set (p1 := if Enemy.isAlive tgt then _ else p) in *.
  destruct (Projectile.isOutOfBounds _); [done|].
  destruct (Enemy.isAlive tgt && _); [|done].
  unfold random. simpl. intros [= <-]. simpl. by rewrite H1.
Qed.

(** X10.  A projectile hits at most once.  Over a whole flight,
    whatever happens to its target from frame to frame, it reports at
    most one hit; once it has hit or left the field it is inert (an
    inactive projectile reports nothing and is not changed by
    [update]).  The hit is on the projectile's own target, with its
    element, and with its damage or, on a critical hit, the rounded-down
    double of it.  The random source is drawn from once per hit and not
    at all on a miss. *)
Theorem X10_projectile_hits_at_most_once
    (tgts : list Enemy.t) (g : Rng) (p : Projectile.t) :
  let out := flight tgts g p in
  (length out.1.1 <= 1)%nat
  /\ cursor out.2 = (cursor g + length out.1.1)%nat
  /\ draws out.2 = draws g
  /\ (out.1.1 <> [] -> Projectile.isActive out.1.2 = false)
  /\ (Projectile.isActive p = false -> out = ([], p, g))
  /\ (forall h, h ∈ out.1.1 ->
        hit_target h = Projectile.target p
        /\ hit_element h = Projectile.element p
        /\ hit_damage h
           = if hit_isCritical h
             then JS.Math_floor (JS.Z2F (Projectile.damage p) * 2.0)
             else Projectile.damage p).
Proof.
  intros out. subst out. revert g p.
  induction tgts as [|tgt tgts IH]; intros g p.
  - simpl. split; [lia|]. split; [lia|]. split; [done|]. split; [done|].
    split; [done|]. intros h Hh. by apply elem_of_nil in Hh.
  - cbn [flight].
    pose proof (Projectile_update_frame tgt g p) as (F1 & F2 & F3).
    pose proof (Projectile_update_hit tgt g p) as Hhit.
    pose proof (Projectile_update_miss tgt g p) as Hmiss.
    pose proof (Projectile_update_damage tgt g p) as Hdmg.
    destruct (Projectile.update tgt g p) as [[p1 hit] g1] eqn:E.
    simpl in F1, F2, F3, Hhit, Hmiss, Hdmg.
    destruct hit as [h|].
    + destruct (Hhit h eq_refl) as (Hact & _ & _ & Hin & Hg & Ht & Hel).
      rewrite (flight_inactive tgts g1 p1 Hin). simpl.
      split; [lia|]. split; [subst g1; simpl; lia|].
      split; [by subst g1|]. split; [done|].
      split; [intros Hp; congruence|].
      intros h' ->%list_elem_of_singleton.
      split; [done|]. split; [done|]. by apply Hdmg.
    + specialize (Hmiss eq_refl). subst g1.
      destruct (IH g p1) as (I1 & I2 & I3 & I4 & I5 & I6).
      destruct (flight tgts g p1) as [[hits p2] g2]. simpl in *.
      split; [done|]. split; [done|]. split; [done|]. split; [done|].
      split.
      * intros Hp. rewrite (Projectile_update_inactive _ _ _ Hp) in E.
        simplify_eq. by apply I5.
      * intros h' Hh. rewrite <- F1, <- F2, <- F3. by apply I6.
Qed.

Lemma X10_flight_witness :
  let out := flight [nearbyGhost; nearbyGhost; nearbyGhost]
               (constantRng 0.25) incomingShot in
  out.1.1 = [mkHitResult 28 false (mkPosition 108 100) fire 0]
  /\ (length out.1.1 <= 1)%nat
  /\ cursor out.2 = 1%nat.
Proof.
  intros out. split; [reflexivity|].
  destruct (X10_projectile_hits_at_most_once
              [nearbyGhost; nearbyGhost; nearbyGhost]
              (constantRng 0.25) incomingShot) as (H1 & H2 & _).
  split; [exact H1|exact H2].
Defined.

(** ** Synergies follow the board *)

Lemma indexTower_fold_grid towers (h1 h2 : list Tower.t) m :
  (forall r, r ∈ towers -> asGridTower <$> h1 !! r = asGridTower <$> h2 !! r) ->
  fold_left (indexTower h1) towers m = fold_left (indexTower h2) towers m.
Proof.
  revert m. induction towers as [|r towers IH]; intros m Hext; [done|].
  cbn [fold_left].
  assert (Hstep : indexTower h1 m r = indexTower h2 m r).
  { unfold indexTower. specialize (Hext r ltac:(by left)).
    destruct (h1 !! r) as [w1|], (h2 !! r) as [w2|]; simplify_eq/=; [|done].
    unfold asGridTower. congruence. }
  rewrite Hstep. apply IH. intros r' Hin. apply Hext. by right.
Qed.

(** An entry of the tower map is a listed tower standing on that cell. *)
Lemma indexTower_fold_Some towers (h : list Tower.t) m row col g :
  fold_left (indexTower h) towers m !! (row, col) = Some g ->
  m !! (row, col) = Some g
  \/ exists r w, r ∈ towers /\ h !! r = Some w
                 /\ Tower.gridRow w = row /\ Tower.gridCol w = col
                 /\ g = asGridTower w.
Proof.
  revert m. induction towers as [|r towers IH]; intros m Hg; [by left|].
  cbn [fold_left] in Hg. apply IH in Hg as [Hg|(r' & w & Hin & ?)].
  - unfold indexTower in Hg. destruct (h !! r) as [w|] eqn:Hr; [|by left].
    destruct (decide ((Tower.gridRow w, Tower.gridCol w) = (row, col)))
      as [Heq|Hne].
    + rewrite Heq, lookup_insert_eq in Hg. simplify_eq.
      right. exists r, w. repeat split; try done. by left.
    + rewrite lookup_insert_ne in Hg by done. by left.
  - right. exists r', w. split; [by right|done].
Qed.

(** The cell of a listed tower has an entry. *)
Lemma indexTower_fold_is_Some towers (h : list Tower.t) m row col :
  (is_Some (m !! (row, col))
   \/ exists r w, r ∈ towers /\ h !! r = Some w
                  /\ Tower.gridRow w = row /\ Tower.gridCol w = col) ->
  is_Some (fold_left (indexTower h) towers m !! (row, col)).
Proof.
  revert m. induction towers as [|r towers IH]; intros m H.
  - destruct H as [H|(r & w & Hin & _)]; [done|]. by apply elem_of_nil in Hin.
  - cbn [fold_left]. apply IH.
    destruct H as [H|(r' & w & Hin & Hw & Hrow & Hcol)].
    + left. unfold indexTower. destruct (h !! r) as [w|]; [|done].
      destruct (decide ((Tower.gridRow w, Tower.gridCol w) = (row, col)))
        as [Heq|Hne].
      * rewrite Heq, lookup_insert_eq. by eexists.
      * by rewrite lookup_insert_ne.
    + apply elem_of_cons in Hin as [->|Hin].
      * left. unfold indexTower. rewrite Hw, Hrow, Hcol, lookup_insert_eq.
        by eexists.
      * right. by exists r', w.
Qed.

(** With one tower per cell, the tower map holds exactly the listed
    towers, each on its cell. *)
Lemma createTowerMap_lookup towers (h : list Tower.t) row col g :
  cellsDistinct h towers ->
  SynergySystem.createTowerMap_pure towers h !! (row, col) = Some g <->
  exists r w, r ∈ towers /\ h !! r = Some w
              /\ Tower.gridRow w = row /\ Tower.gridCol w = col
              /\ g = asGridTower w.
Proof.
  intros Hdist. rewrite createTowerMap_pure_fold. split.
  - intros Hg. apply indexTower_fold_Some in Hg as [Hg|Hg]; [|done].
    by rewrite lookup_empty in Hg.
  - intros (r & w & Hin & Hw & Hrow & Hcol & ->).
    destruct (indexTower_fold_is_Some towers h ∅ row col) as [g Hg].
    { right. by exists r, w. }
    rewrite Hg. f_equal.
    apply indexTower_fold_Some in Hg as [Hg|(r' & w' & Hin' & Hw' & ? & ? & ->)].
    + by rewrite lookup_empty in Hg.
    + assert (r' = r) as -> by (eapply Hdist; eauto; congruence).
      congruence.
Qed.

(** Which synergies a tower is computed to have, in terms of the board. *)
Lemma synergy_active_iff towers (h : list Tower.t) w k :
  cellsDistinct h towers ->
  SYNERGY_CONFIGS k
    ∈ SynergySystem.calculateSynergiesForTower (asGridTower w)
        (SynergySystem.createTowerMap_pure towers h)
  <-> Tower.element w = sourceElement (SYNERGY_CONFIGS k)
      /\ adjacentWith h towers w (requiredElement (SYNERGY_CONFIGS k)).
Proof.
  intros Hdist. unfold SynergySystem.calculateSynergiesForTower.
  rewrite list_elem_of_filter. simpl.
  assert (Hk : SYNERGY_CONFIGS k ∈ SYNERGY_VALUES).
  { unfold SYNERGY_VALUES. apply list_elem_of_fmap. exists k.
    split; [done|]. destruct k; set_solver. }
  assert (Hadj :
            requiredElement (SYNERGY_CONFIGS k)
              ∈ gt_element
                  <$> SynergySystem.getAdjacentTowers (asGridTower w)
                        (SynergySystem.createTowerMap_pure towers h)
            <-> adjacentWith h towers w (requiredElement (SYNERGY_CONFIGS k))).
  { rewrite list_elem_of_fmap. unfold SynergySystem.getAdjacentTowers.
    split.
    - intros (g & Hel & Hg). apply list_elem_of_omap in Hg as ([dr dc] & Hd & Hg).
      simpl in Hg.
      destruct ((Tower.gridRow w + dr <? 0)%Z
                || (Tower.gridRow w + dr >=? GAME_CONFIG.GRID_ROWS)%Z
                || (Tower.gridCol w + dc <? 0)%Z
                || (Tower.gridCol w + dc >=? GAME_CONFIG.GRID_COLS)%Z)
        eqn:Hb; [done|].
      apply (createTowerMap_lookup _ _ _ _ _ Hdist) in Hg
        as (r' & w' & Hin & Hw' & Hrow & Hcol & ->).
      exists r', w'. split; [done|]. split; [done|].
      split; [by exists (dr, dc)|].
      split; [|done].
      apply orb_false_iff in Hb as [[[H1 H2]%orb_false_iff H3]%orb_false_iff H4].
      apply Z.ltb_ge in H1, H3.
      rewrite Z.geb_leb in H2, H4. apply Z.leb_gt in H2, H4.
      unfold onBoard. rewrite Hrow, Hcol. lia.
    - intros (r' & w' & Hin & Hw' & ([dr dc] & Hd & Hrow & Hcol) & [Hbr Hbc] & Hel).
      simpl in Hrow, Hcol.
      exists (asGridTower w'). split; [done|].
      apply list_elem_of_omap. exists (dr, dc). split; [done|]. simpl.
      rewrite <- Hrow, <- Hcol.
      assert (Hb : (Tower.gridRow w' <? 0)%Z
                   || (Tower.gridRow w' >=? GAME_CONFIG.GRID_ROWS)%Z
                   || (Tower.gridCol w' <? 0)%Z
                   || (Tower.gridCol w' >=? GAME_CONFIG.GRID_COLS)%Z = false).
      { rewrite !orb_false_iff, !Z.ltb_ge, !Z.geb_leb, !Z.leb_gt. lia. }
      rewrite Hb. apply (createTowerMap_lookup _ _ _ _ _ Hdist).
      by exists r', w'. }
  rewrite Hadj. split.
  - by intros [[? ?] _].
  - by intros [? ?].
Qed.

(** X11.  Recomputing the synergies is idempotent: the synergies of the
    towers are a function of the board (which towers stand on which
    cells) and not of the synergies cached before, so a second
    [calculateAndApplySynergies] over the same towers changes nothing. *)
Theorem X11_synergies_idempotent towers (h : list Tower.t) :
  let once := (SynergySystem.calculateAndApplySynergies towers h).2 in
  (SynergySystem.calculateAndApplySynergies towers once).2 = once.
Proof.
  intros once. apply list_eq. intros i.
  assert (Hmap : SynergySystem.createTowerMap_pure towers once
                 = SynergySystem.createTowerMap_pure towers h).
  { rewrite !createTowerMap_pure_fold. apply indexTower_fold_grid.
    intros r _. by apply calculateAndApplySynergies_frame. }
  rewrite calculateAndApplySynergies_lookup, Hmap.
  unfold once. rewrite calculateAndApplySynergies_lookup.
  destruct (decide (i ∈ towers)); [|done].
  destruct (h !! i); simpl; [|done]. by rewrite resynergise_idem.
Qed.

Lemma X11_idempotent_witness :
  Tower.activeSynergies <$> quartetLive
  = [[SYNERGY_CONFIGS fire_ice]; [SYNERGY_CONFIGS ice_lightning]; []; []]
  /\ (SynergySystem.calculateAndApplySynergies [0; 1; 2; 3]%nat quartetLive).2
     = quartetLive.
Proof.
  split; [reflexivity|].
  exact (X11_synergies_idempotent [0; 1; 2; 3]%nat quartet).
Defined.

Lemma quartet_cellsDistinct (h : list Tower.t) :
  Tower.gridRow <$> h = [3; 3; 4; 5]%Z ->
  Tower.gridCol <$> h = [3; 4; 4; 5]%Z ->
  cellsDistinct h [0; 1; 2; 3]%nat.
Proof.
  intros Hrows Hcols r1 r2 w1 w2 Hin1 Hin2 Hw1 Hw2 Hrow Hcol.
  assert (Hr : forall r w, h !! r = Some w ->
            [3; 3; 4; 5]%Z !! r = Some (Tower.gridRow w)
            /\ [3; 4; 4; 5]%Z !! r = Some (Tower.gridCol w)).
  { intros r w Hw. rewrite <- Hrows, <- Hcols, !list_lookup_fmap, Hw.
    done. }
  destruct (Hr _ _ Hw1) as [R1 C1], (Hr _ _ Hw2) as [R2 C2].
  rewrite Hrow in R1. rewrite Hcol in C1.
  apply list_elem_of_In in Hin1, Hin2.
  destruct Hin1 as [<-|[<-|[<-|[<-|[]]]]], Hin2 as [<-|[<-|[<-|[<-|[]]]]];
    try reflexivity; simpl in *; congruence.
Qed.

(** X12.  After [calculateAndApplySynergies] over towers that stand on
    distinct cells, a listed tower carries a synergy of the table
    exactly when its element is the synergy's source element and some
    listed tower of the required element stands on a cell of the board
    orthogonally next to it.  Diagonal neighbours and towers further
    away confer nothing, and the relation is directed: the tower of the
    required element gains nothing from it.  The recomputation changes
    nothing else of the tower: cell, element, hit points and target are
    kept. *)
Theorem X12_synergy_iff_adjacent towers (h : list Tower.t) r w :
  cellsDistinct h towers ->
  r ∈ towers ->
  h !! r = Some w ->
  exists w',
    (SynergySystem.calculateAndApplySynergies towers h).2 !! r = Some w'
    /\ (forall k,
          SYNERGY_CONFIGS k ∈ Tower.activeSynergies w' <->
          Tower.element w = sourceElement (SYNERGY_CONFIGS k)
          /\ adjacentWith h towers w (requiredElement (SYNERGY_CONFIGS k)))
    /\ asGridTower w' = asGridTower w
    /\ Tower.hp w' = Tower.hp w
    /\ Tower.isAlive w' = Tower.isAlive w
    /\ Tower.currentTarget w' = Tower.currentTarget w.
Proof.
  intros Hdist Hin Hw.
  exists (resynergise (SynergySystem.createTowerMap_pure towers h) w).
  split.
  { by rewrite calculateAndApplySynergies_lookup, decide_True, Hw. }
  split; [|done].
  intros k. by apply synergy_active_iff.
Qed.

Lemma X12_synergy_witness :
  (cellsDistinct quartet [0; 1; 2; 3]%nat
   /\ 1%nat ∈ [0; 1; 2; 3]%nat
   /\ quartet !! 1%nat = Some (Tower.new 3 4 (mkPosition 180 140) ice))
  /\ Tower.activeSynergies <$> quartetLive !! 1%nat
     = Some [SYNERGY_CONFIGS ice_lightning]
  /\ adjacentWith quartet [0; 1; 2; 3]%nat
       (Tower.new 3 4 (mkPosition 180 140) ice) lightning.
Proof.
  assert (Hdist : cellsDistinct quartet [0; 1; 2; 3]%nat)
    by (by apply quartet_cellsDistinct).
  assert (Hin : 1%nat ∈ [0; 1; 2; 3]%nat) by (right; left).
  split; [done|]. split; [reflexivity|].
  destruct (X12_synergy_iff_adjacent [0; 1; 2; 3]%nat quartet 1
              (Tower.new 3 4 (mkPosition 180 140) ice) Hdist Hin eq_refl)
    as (w' & Hw' & Hiff & _).
  apply (Hiff ice_lightning).
  change ((SynergySystem.calculateAndApplySynergies [0; 1; 2; 3]%nat
             quartet).2) with quartetLive in Hw'.
  assert (Heq : w' = resynergise
                       (SynergySystem.createTowerMap_pure [0; 1; 2; 3]%nat
                          quartet)
                       (Tower.new 3 4 (mkPosition 180 140) ice)).
  { assert (Hl : quartetLive !! 1%nat
                 = Some (resynergise
                           (SynergySystem.createTowerMap_pure
                              [0; 1; 2; 3]%nat quartet)
                           (Tower.new 3 4 (mkPosition 180 140) ice)))
      by reflexivity.
    congruence. }
  rewrite Heq. left.
Defined.

(** Checked on every integer from 0 to 15000. *)
Lemma doubleExact_upto_15000 :
  allFrom (Z.to_nat 15001) 0 doubleExact = true.
Proof. vm_compute. reflexivity. Qed.

Lemma double_product x :
  (0 <= x <= 15000)%Z -> JS.Math_floor (JS.Z2F x * 2.0) = (2 * x)%Z.
Proof.
  intros Hx.
  pose proof (allFrom_spec _ _ _ doubleExact_upto_15000 x ltac:(lia)) as H.
  by apply Z.eqb_eq in H.
Qed.

(** X13.  After [calculateAndApplySynergies] a listed tower is in one of
    four states, fixed by its element: no synergy and multiplier 1; or,
    for a fire tower, the fire-ice synergy alone and multiplier 2; or,
    for an ice tower, the ice-lightning synergy alone and multiplier
    1.5; or, for a lightning tower, the lightning-fire synergy alone and
    multiplier 1.5.  Synergies therefore never stack, and towers of the
    other elements never have one.  For a base damage [B] up to 15000
    the effective damage is then [B], [2 * B] or [3 * B / 2] rounded
    down. *)
Theorem X13_synergy_multiplier towers (h : list Tower.t) r w :
  r ∈ towers ->
  h !! r = Some w ->
  (0 <= Tower.baseDamage w <= 15000)%Z ->
  exists w',
    (SynergySystem.calculateAndApplySynergies towers h).2 !! r = Some w'
    /\ Tower.baseDamage w' = Tower.baseDamage w
    /\ ((Tower.activeSynergies w' = []
         /\ Tower.synergyDamageMultiplier w' = 1%float
         /\ Tower.getEffectiveDamage w' = Tower.baseDamage w)
        \/ (Tower.element w = fire
            /\ Tower.activeSynergies w' = [SYNERGY_CONFIGS fire_ice]
            /\ Tower.synergyDamageMultiplier w' = 2%float
            /\ Tower.getEffectiveDamage w' = (2 * Tower.baseDamage w)%Z)
        \/ (Tower.element w = ice
            /\ Tower.activeSynergies w' = [SYNERGY_CONFIGS ice_lightning]
            /\ Tower.synergyDamageMultiplier w' = 1.5%float
            /\ Tower.getEffectiveDamage w' = (3 * Tower.baseDamage w / 2)%Z)
        \/ (Tower.element w = lightning
            /\ Tower.activeSynergies w' = [SYNERGY_CONFIGS lightning_fire]
            /\ Tower.synergyDamageMultiplier w' = 1.5%float
            /\ Tower.getEffectiveDamage w' = (3 * Tower.baseDamage w / 2)%Z)).
Proof.
  intros Hin Hw HB.
  set (m := SynergySystem.createTowerMap_pure towers h).
  exists (resynergise m w).
  split; [by rewrite calculateAndApplySynergies_lookup, decide_True, Hw|].
  split; [done|].
  destruct (dyadic_products _ HB) as (H15 & _ & H1 & _).
  pose proof (double_product _ HB) as H2.
  unfold resynergise, Tower.getEffectiveDamage.
  destruct (calculateSynergiesForTower_cases (asGridTower w) m)
    as [->|(k & -> & Hsrc)].
  - left. by repeat split.
  - right. destruct k; simpl in Hsrc.
    + left. by repeat split.
    + right; left. by repeat split.
    + right; right. by repeat split.
Qed.

Lemma X13_multiplier_witness :
  (0%nat ∈ [0; 1; 2; 3]%nat
   /\ quartet !! 0%nat = Some (Tower.new 3 3 (mkPosition 140 140) fire)
   /\ (0 <= 28 <= 15000)%Z)
  /\ Tower.getEffectiveDamage <$> quartetLive = [56; 42; 28; 28]%Z
  /\ exists w',
       quartetLive !! 0%nat = Some w'
       /\ Tower.synergyDamageMultiplier w' = 2%float.
Proof.
  assert (Hin : 0%nat ∈ [0; 1; 2; 3]%nat) by left.
  assert (HB : (0 <= Tower.baseDamage
                       (Tower.new 3 3 (mkPosition 140 140) fire) <= 15000)%Z)
    by (simpl; lia).
  split; [repeat split; try done; lia|]. split; [reflexivity|].
  destruct (X13_synergy_multiplier [0; 1; 2; 3]%nat quartet 0
              (Tower.new 3 3 (mkPosition 140 140) fire) Hin eq_refl HB)
    as (w' & Hw' & _ & Hcase).
  exists w'. split; [exact Hw'|].
  assert (Hw0 : quartetLive !! 0%nat = Some w') by exact Hw'.
  assert (Hs : Tower.activeSynergies w' = [SYNERGY_CONFIGS fire_ice]).
  { injection Hw0 as <-. reflexivity. }
  destruct Hcase as [(Hnil & _)|[(_ & _ & Hm & _)|[(Hel & _)|(Hel & _)]]].
  - rewrite Hs in Hnil. discriminate Hnil.
  - exact Hm.
  - discriminate Hel.
  - discriminate Hel.
Defined.

(** X14.  A destroyed tower stops feeding synergies.  After
    [handleTowerDestruction] over towers on distinct cells, a standing
    tower carries a synergy exactly when its element is the synergy's
    source and a standing tower of the required element is orthogonally
    next to it; the destroyed towers themselves are not rewritten. *)
Theorem X14_destroyed_tower_feeds_nothing towers (th : list Tower.t) r w :
  cellsDistinct th towers ->
  r ∈ towers ->
  th !! r = Some w ->
  let th' := Game.handleTowerDestruction towers th in
  (Tower.isAlive w = false -> th' !! r = Some w)
  /\ (Tower.isAlive w = true ->
      exists w',
        th' !! r = Some w'
        /\ Tower.isAlive w' = true
        /\ forall k,
             SYNERGY_CONFIGS k ∈ Tower.activeSynergies w' <->
             Tower.element w = sourceElement (SYNERGY_CONFIGS k)
             /\ adjacentWith th (standing th towers) w
                  (requiredElement (SYNERGY_CONFIGS k))).
Proof.
  intros Hdist Hin Hw th'.
  assert (Hsub : forall x, x ∈ standing th towers -> x ∈ towers).
  { intros x Hx. apply list_elem_of_In in Hx. apply filter_In in Hx as [Hx _].
    by apply list_elem_of_In. }
  assert (Hdist' : cellsDistinct th (standing th towers)).
  { intros r1 r2 w1 w2 H1 H2. apply Hdist; by apply Hsub. }
  assert (Hst : r ∈ standing th towers <-> Tower.isAlive w = true).
  { unfold standing. rewrite list_elem_of_In, filter_In, <- list_elem_of_In, Hw.
    split; [by intros [_ ?]|by split]. }
  subst th'. unfold Game.handleTowerDestruction. fold (standing th towers).
  rewrite calculateAndApplySynergies_lookup. split.
  - intros Hdead. rewrite decide_False; [done|].
    intros Hr%Hst. congruence.
  - intros Hlive. rewrite decide_True by (by apply Hst). rewrite Hw. simpl.
    eexists. split; [done|]. split; [done|].
    intros k. by apply synergy_active_iff.
Qed.

Lemma X14_destruction_witness :
  let th' := Game.handleTowerDestruction [0; 1; 2; 3]%nat quartetBroken in
  (cellsDistinct quartetBroken [0; 1; 2; 3]%nat
   /\ 1%nat ∈ [0; 1; 2; 3]%nat)
  /\ Tower.isAlive <$> quartetBroken = [true; false; true; true]
  /\ Tower.activeSynergies <$> quartetBroken
     = [[SYNERGY_CONFIGS fire_ice]; [SYNERGY_CONFIGS ice_lightning]; []; []]
  /\ Tower.activeSynergies <$> th'
     = [[]; [SYNERGY_CONFIGS ice_lightning]; []; []]
  /\ th' !! 1%nat = quartetBroken !! 1%nat.
Proof.
  intros th'.
  assert (Hdist : cellsDistinct quartetBroken [0; 1; 2; 3]%nat)
    by (by apply quartet_cellsDistinct).
  assert (Hin : 1%nat ∈ [0; 1; 2; 3]%nat) by (right; left).
  split; [by split|].
  split; [reflexivity|]. split; [reflexivity|]. split; [reflexivity|].
  destruct (quartetBroken !! 1%nat) as [w|] eqn:Hw; [|discriminate Hw].
  destruct (X14_destroyed_tower_feeds_nothing [0; 1; 2; 3]%nat quartetBroken
              1 w Hdist Hin Hw) as [Hdead _].
  apply Hdead. by injection Hw as <-.
Defined.

(** ** Removal of the dead *)

(** X15.  In [Game.update] the tower list is filtered to the standing
    towers before it is tested for a destroyed one, so the test never
    succeeds: the synergy recomputation of that step never runs, and the
    step leaves every tower record as it was.  (Synergies are recomputed
    on destruction by [handleTowerDestruction] instead.) *)
Theorem X15_update_never_recomputes towers (th : list Tower.t) :
  let out := Upkeep.pruneTowers towers th in
  out.2 = th
  /\ out.1 = standing th towers
  /\ (forall r, r ∈ out.1 ->
        r ∈ towers /\ exists w, th !! r = Some w /\ Tower.isAlive w = true).
Proof.
  intros out. subst out. unfold Upkeep.pruneTowers.
  assert (Hno : existsb (fun r => negb (Upkeep.towerAlive th r))
                  (List.filter (Upkeep.towerAlive th) towers) = false).
  { apply not_true_is_false. intros (r & Hr & Hd)%existsb_exists.
    apply filter_In in Hr as [_ Hr]. by rewrite Hr in Hd. }
  rewrite Hno. split; [done|]. split; [done|].
  intros r Hr. simpl in Hr. apply list_elem_of_In, filter_In in Hr as [Hr Hal].
  split; [by apply list_elem_of_In|].
  unfold Upkeep.towerAlive in Hal. destruct (th !! r) as [w|]; [|done].
  by exists w.
Qed.

Lemma X15_prune_witness :
  (Upkeep.pruneTowers [0; 1; 2; 3]%nat quartetBroken).1 = [0; 2; 3]%nat
  /\ (Upkeep.pruneTowers [0; 1; 2; 3]%nat quartetBroken).2 = quartetBroken.
Proof.
  split; [reflexivity|].
  exact (proj1 (X15_update_never_recomputes [0; 1; 2; 3]%nat quartetBroken)).
Defined.

(** ** The melee pass spares the enemies and only wears the towers *)

Lemma enemyAttack_enemies currentTime towers (eh : list Enemy.t)
    (th : list Tower.t) er :
  let out := Game.enemyAttack currentTime towers (eh, th) er in
  out.1 = eh
  \/ exists enemy,
       eh !! er = Some enemy
       /\ Enemy.isAlive enemy = true
       /\ out.1 = <[er := Enemy.set_lastAttackTime currentTime enemy]> eh.
Proof.
  intros out. subst out. unfold Game.enemyAttack.
  destruct (eh !! er) as [enemy|] eqn:He; [|by left].
  destruct (Enemy.isAlive enemy) eqn:Hal; simpl; [|by left].
  unfold tag_eqb.
  destruct (bool_decide (Enemy.enemyType enemy = breaker)) eqn:Hb; [by left|].
  destruct (negb (Enemy.canAttackTower currentTime enemy)); [by left|].
  destruct (find _ towers) as [tr|]; [|by left].
  destruct (th !! tr) as [tower|]; [|by left].
  unfold Enemy.attackTower, tag_eqb. simpl.
  destruct (Tower.takeDamage _ tower) as [tower1 destroyed]. simpl.
  right. by exists enemy.
Qed.

(** X16.  The melee pass never harms an enemy.  After
    [processEnemyAttacks] every enemy of the arena is exactly as before
    or differs only in the time of its last attack; health, life,
    status, freeze and position are untouched.  (The self-destruction
    written in [attackTower] is the breaker's, and breakers are skipped
    by this pass.) *)
Theorem X16_melee_pass_spares_enemies currentTime enemies towers
    (st : list Enemy.t * list Tower.t) i e :
  st.1 !! i = Some e ->
  exists e',
    (Game.processEnemyAttacks currentTime enemies towers st).1 !! i = Some e'
    /\ stamped currentTime e e'
    /\ Enemy.health e' = Enemy.health e
    /\ Enemy.isAlive e' = Enemy.isAlive e
    /\ Enemy.status e' = Enemy.status e
    /\ Enemy.position e' = Enemy.position e.
Proof.
  intros He.
  enough (Hst : exists e',
             (Game.processEnemyAttacks currentTime enemies towers st).1 !! i
             = Some e' /\ stamped currentTime e e').
  { destruct Hst as (e' & He' & Hs). exists e'.
    split; [done|]. split; [done|]. by destruct Hs as [->| ->]. }
  unfold Game.processEnemyAttacks.
  assert (Hgen : forall e0, st.1 !! i = Some e0 -> stamped currentTime e e0 ->
            exists e',
              (fold_left (Game.enemyAttack currentTime towers) enemies st).1
                !! i = Some e'
              /\ stamped currentTime e e').
  { clear He. revert st.
    induction enemies as [|er enemies IH]; intros [eh th] e0 He0 Hs0.
    - by exists e0.
    - cbn [fold_left].
      destruct (enemyAttack_enemies currentTime towers eh th er)
        as [Hsame|(enemy & Her & _ & Hupd)];
        destruct (Game.enemyAttack currentTime towers (eh, th) er)
          as [eh1 th1]; simpl in *; subst eh1.
      + by apply (IH (eh, th1) e0).
      + destruct (decide (i = er)) as [->|Hne].
        * apply (IH (_, th1) (Enemy.set_lastAttackTime currentTime enemy)).
          { simpl. apply list_lookup_insert_eq. by eapply lookup_lt_Some. }
          assert (enemy = e0) as -> by congruence.
          destruct Hs0 as [->| ->]; by right.
        * apply (IH (_, th1) e0); [|done].
          simpl. by rewrite list_lookup_insert_ne. }
  apply (Hgen e); [done|by left].
Qed.

Lemma X16_melee_witness :
  let out := Game.processEnemyAttacks 5000 [0%nat] [0%nat]
               ([lurkingGhost], [cornerTower]) in
  [lurkingGhost] !! 0%nat = Some lurkingGhost
  /\ Enemy.lastAttackTime <$> out.1 !! 0%nat = Some 5000%float
  /\ Enemy.health <$> out.1 !! 0%nat = Some (Enemy.health lurkingGhost).
Proof.
  intros out. split; [reflexivity|]. split; [reflexivity|].
  destruct (X16_melee_pass_spares_enemies 5000 [0%nat] [0%nat]
              ([lurkingGhost], [cornerTower]) 0 lurkingGhost eq_refl)
    as (e' & He' & _ & Hh & _).
  fold out in He'. by rewrite He', <- Hh.
Defined.

Lemma worn_refl w : (0 <= Tower.hp w)%Z -> worn w w.
Proof. intros H. unfold worn. repeat split; try done; lia. Qed.

Lemma worn_trans w1 w2 w3 : worn w1 w2 -> worn w2 w3 -> worn w1 w3.
Proof.
  intros (A1 & A2 & A3 & A4 & A5) (B1 & B2 & B3 & B4 & B5).
  unfold worn. split; [lia|]. split.
  { intros Hd. destruct (A2 Hd) as [Hd2 Hh2]. destruct (B2 Hd2) as [? ?].
    split; [done|congruence]. }
  split; [congruence|]. split; congruence.
Qed.

Lemma worn_view w w0 w' :
  wearView w' = wearView w0 -> worn w w0 -> worn w w'.
Proof.
  intros Hv.
  pose proof (f_equal (fun v => v.1.1.1.1) Hv) as H1.
  pose proof (f_equal (fun v => v.1.1.1.2) Hv) as H2.
  pose proof (f_equal (fun v => v.1.1.2) Hv) as H3.
  pose proof (f_equal (fun v => v.1.2) Hv) as H4.
  pose proof (f_equal (fun v => v.2) Hv) as H5.
  simpl in H1, H2, H3, H4, H5. unfold worn.
  by rewrite H1, H2, H3, H4, H5.
Qed.

Lemma takeDamage_worn d w :
  (0 <= d)%Z -> (0 <= Tower.hp w)%Z -> worn w (Tower.takeDamage d w).1.
Proof.
  intros Hd Hh. unfold Tower.takeDamage.
  destruct (Tower.isAlive w) eqn:Hal; simpl; [|by apply worn_refl].
  destruct (Tower.hp w - d <=? 0)%Z eqn:E; unfold worn; simpl.
  - rewrite Hal. repeat split; try done; lia.
  - apply Z.leb_gt in E. rewrite Hal. repeat split; try done; lia.
Qed.

Lemma enemyAttack_towers currentTime towers (eh : list Enemy.t)
    (th : list Tower.t) er j w :
  (forall i e, eh !! i = Some e -> (0 <= Enemy.attackDamage e)%Z) ->
  th !! j = Some w ->
  (0 <= Tower.hp w)%Z ->
  exists w',
    (Game.enemyAttack currentTime towers (eh, th) er).2 !! j = Some w'
    /\ worn w w'.
Proof.
  intros Hdmg Hj Hh. unfold Game.enemyAttack.
  assert (Hsame : exists w', th !! j = Some w' /\ worn w w').
  { exists w. split; [done|by apply worn_refl]. }
  destruct (eh !! er) as [enemy|] eqn:He; [|done].
  destruct (negb (Enemy.isAlive enemy)); [done|].
  unfold tag_eqb.
  destruct (bool_decide (Enemy.enemyType enemy = breaker)) eqn:Hb; [done|].
  destruct (negb (Enemy.canAttackTower currentTime enemy)); [done|].
  destruct (find _ towers) as [tr|]; [|done].
  destruct (th !! tr) as [tower|] eqn:Htr; [|done].
  unfold Enemy.attackTower, tag_eqb. simpl. rewrite Hb. simpl.
  pose proof (takeDamage_worn (Enemy.attackDamage enemy) tower
                (Hdmg _ _ He)) as Hworn.
  destruct (Tower.takeDamage (Enemy.attackDamage enemy) tower)
    as [tower1 destroyed]. simpl in Hworn. simpl.
  assert (Hth1 : exists w1, <[tr := tower1]> th !! j = Some w1 /\ worn w w1).
  { destruct (decide (j = tr)) as [->|Hne].
    - exists tower1. split.
      + apply list_lookup_insert_eq. by eapply lookup_lt_Some.
      + assert (tower = w) as -> by congruence. by apply Hworn.
    - exists w. rewrite list_lookup_insert_ne by done.
      split; [done|by apply worn_refl]. }
  destruct destroyed; [|done].
  destruct Hth1 as (w1 & Hw1 & Hworn1).
  pose proof (handleTowerDestruction_frame wearView towers
                (<[tr := tower1]> th) j ltac:(done)) as Hf.
  rewrite Hw1 in Hf.
  destruct (Game.handleTowerDestruction towers (<[tr := tower1]> th) !! j)
    as [w'|]; [|done].
  exists w'. split; [done|].
  assert (Hv : wearView w' = wearView w1).
  { cbn [fmap option_fmap option_map] in Hf. congruence. }
  by eapply worn_view.
Qed.

(** X17.  The melee pass only ever wears towers down.  With attack
    damages and hit points that are not negative, every tower of the
    arena comes out of [processEnemyAttacks] with hit points between
    zero and what it had; a tower destroyed before the pass stays
    destroyed with its hit points unchanged; and the maximum hit points,
    the cell, the element and the position of every tower are as
    before. *)
Theorem X17_melee_pass_only_wears_towers currentTime enemies towers
    (st : list Enemy.t * list Tower.t) j w :
  (forall i e, st.1 !! i = Some e -> (0 <= Enemy.attackDamage e)%Z) ->
  st.2 !! j = Some w ->
  (0 <= Tower.hp w)%Z ->
  exists w',
    (Game.processEnemyAttacks currentTime enemies towers st).2 !! j = Some w'
    /\ worn w w'.
Proof.
  intros Hdmg Hj Hh. unfold Game.processEnemyAttacks.
  assert (Hgen : forall w0, st.2 !! j = Some w0 -> worn w w0 ->
            exists w',
              (fold_left (Game.enemyAttack currentTime towers) enemies st).2
                !! j = Some w'
              /\ worn w w').
  { clear Hj. revert st Hdmg.
    induction enemies as [|er enemies IH]; intros [eh th] Hdmg w0 Hw0 Hworn.
    - by exists w0.
    - cbn [fold_left]. simpl in Hdmg, Hw0.
      assert (Hh0 : (0 <= Tower.hp w0)%Z) by (destruct Hworn as [? _]; lia).
      destruct (enemyAttack_towers currentTime towers eh th er j w0
                  Hdmg Hw0 Hh0) as (w1 & Hw1 & Hworn1).
      pose proof (enemyAttack_enemies currentTime towers eh th er) as Hen.
      destruct (Game.enemyAttack currentTime towers (eh, th) er)
        as [eh1 th1]. simpl in Hw1, Hen.
      apply (IH (eh1, th1)) with (w0 := w1); simpl; [|done|].
      + intros i e Hi.
        destruct Hen as [->|(enemy & Her & _ & ->)]; [by eapply Hdmg|].
        destruct (decide (i = er)) as [->|Hne].
        * rewrite list_lookup_insert_eq in Hi by (by eapply lookup_lt_Some).
          injection Hi as <-. simpl. by eapply Hdmg.
        * rewrite list_lookup_insert_ne in Hi by done. by eapply Hdmg.
      + by eapply worn_trans. }
  apply (Hgen w); [done|by apply worn_refl].
Qed.

Lemma X17_melee_towers_witness :
  let st := ([lurkingGhost; lurkingGhost], [cornerTower]) in
  let out := Game.processEnemyAttacks 5000 [0%nat; 1%nat] [0%nat] st in
  ((forall i e, st.1 !! i = Some e -> (0 <= Enemy.attackDamage e)%Z)
   /\ st.2 !! 0%nat = Some cornerTower
   /\ (0 <= Tower.hp cornerTower)%Z)
  /\ Tower.hp <$> out.2 !! 0%nat = Some 84%Z
  /\ exists w', out.2 !! 0%nat = Some w' /\ worn cornerTower w'.
Proof.
  intros st out.
  assert (Hdmg : forall i e, st.1 !! i = Some e ->
                             (0 <= Enemy.attackDamage e)%Z).
  { intros [|[|i]] e He; simpl in He; try done; injection He as <-;
      by vm_compute. }
  assert (Hh : (0 <= Tower.hp cornerTower)%Z) by (by vm_compute).
  split; [by repeat split|]. split; [reflexivity|].
  exact (X17_melee_pass_only_wears_towers 5000 [0%nat; 1%nat] [0%nat] st 0
           cornerTower Hdmg eq_refl Hh).
Defined.

(** ** The breaker's choice of a tower *)

Lemma findNearestTower_step_inv (th : list Tower.t) m seen acc r :
  NearestInv th m seen acc ->
  NearestInv th m (seen ++ [r]) (Mover.findNearestTower_step th m acc r).
Proof.
  intros Hinv.
  assert (Hgrow : forall r' w', standingTower th seen r' w' ->
                                standingTower th (seen ++ [r]) r' w').
  { intros r' w' (Hin & Hw & Hal). split; [|done].
    apply elem_of_app. by left. }
  assert (Hsplit : forall r' w', standingTower th (seen ++ [r]) r' w' ->
            standingTower th seen r' w'
            \/ (r' = r /\ th !! r = Some w' /\ Tower.isAlive w' = true)).
  { intros r' w' (Hin & Hw & Hal).
    apply elem_of_app in Hin as [Hin|Hin%list_elem_of_singleton].
    - by left.
    - right. by subst r'. }
  unfold Mover.findNearestTower_step.
  destruct (th !! r) as [tower|] eqn:Hr.
  2:{ unfold NearestInv in *. destruct acc.1 as [r0|].
      - destruct Hinv as (w & Hst & Hd & Hfin & Hmin).
        exists w. split; [by apply Hgrow|]. split; [done|]. split; [done|].
        intros r' w' [H|(-> & Hw' & _)]%Hsplit; [by eapply Hmin|congruence].
      - destruct Hinv as [Hd Hmin]. split; [done|].
        intros r' w' [H|(-> & Hw' & _)]%Hsplit; [by eapply Hmin|congruence]. }
  destruct (Tower.isAlive tower) eqn:Hal; simpl.
  2:{ unfold NearestInv in *. destruct acc.1 as [r0|].
      - destruct Hinv as (w & Hst & Hd & Hfin & Hmin).
        exists w. split; [by apply Hgrow|]. split; [done|]. split; [done|].
        intros r' w' [H|(-> & Hw' & Hal')]%Hsplit; [by eapply Hmin|congruence].
      - destruct Hinv as [Hd Hmin]. split; [done|].
        intros r' w' [H|(-> & Hw' & Hal')]%Hsplit;
          [by eapply Hmin|congruence]. }
  fold (towerDistance m tower).
  destruct (PrimFloat.ltb (towerDistance m tower) acc.2) eqn:Hlt.
  - unfold NearestInv in *. simpl.
    exists tower. split.
    { split; [apply elem_of_app; right; by left|done]. }
    split; [done|].
    destruct acc.1 as [r0|].
    + destruct Hinv as (w0 & Hst & Hd & Hfin & Hmin). rewrite Hd in Hlt.
      split; [by eapply ltb_trans|].
      intros r' w' [H|(-> & Hw' & _)]%Hsplit.
      * apply not_true_is_false. intros Hc.
        pose proof (ltb_trans _ _ _ Hc Hlt) as Hc'.
        by rewrite (Hmin _ _ H) in Hc'.
      * assert (w' = tower) as -> by congruence. apply ltb_irrefl.
    + destruct Hinv as [Hd Hmin]. rewrite Hd in Hlt.
      split; [done|].
      intros r' w' [H|(-> & Hw' & _)]%Hsplit.
      * apply not_true_is_false. intros Hc.
        pose proof (ltb_trans _ _ _ Hc Hlt) as Hc'.
        by rewrite (Hmin _ _ H) in Hc'.
      * assert (w' = tower) as -> by congruence. apply ltb_irrefl.
  - unfold NearestInv in *. destruct acc.1 as [r0|].
    + destruct Hinv as (w0 & Hst & Hd & Hfin & Hmin). rewrite Hd in Hlt.
      exists w0. split; [by apply Hgrow|]. split; [done|]. split; [done|].
      intros r' w' [H|(-> & Hw' & _)]%Hsplit; [by eapply Hmin|].
      by assert (w' = tower) as -> by congruence.
    + destruct Hinv as [Hd Hmin]. rewrite Hd in Hlt. split; [done|].
      intros r' w' [H|(-> & Hw' & _)]%Hsplit; [by eapply Hmin|].
      by assert (w' = tower) as -> by congruence.
Qed.

Lemma findNearestTower_fold_inv (th : list Tower.t) m rest seen acc :
  NearestInv th m seen acc ->
  NearestInv th m (seen ++ rest)
    (fold_left (Mover.findNearestTower_step th m) rest acc).
Proof.
  revert seen acc. induction rest as [|r rest IH]; intros seen acc Hinv.
  - by rewrite app_nil_r.
  - cbn [fold_left]. rewrite (cons_middle r seen rest), app_assoc.
    apply IH. by apply findNearestTower_step_inv.
Qed.

(** X18.  [findNearestTower] returns a nearest standing tower.  When it
    returns a tower, that tower is one of the list, stands, is at a
    distance below infinity, and no standing tower of the list is
    strictly closer.  When it returns nothing, no standing tower of the
    list is at a distance below infinity.  Destroyed towers are never
    chosen. *)
Theorem X18_breaker_picks_nearest (th : list Tower.t) towers m :
  match Mover.findNearestTower th towers m with
  | Some r =>
      exists w,
        standingTower th towers r w
        /\ PrimFloat.ltb (towerDistance m w) infinity = true
        /\ forall r' w', standingTower th towers r' w' ->
             PrimFloat.ltb (towerDistance m w') (towerDistance m w) = false
  | None =>
      forall r' w', standingTower th towers r' w' ->
        PrimFloat.ltb (towerDistance m w') infinity = false
  end.
Proof.
  unfold Mover.findNearestTower.
  pose proof (findNearestTower_fold_inv th m towers [] (None, infinity))
    as Hinv.
  rewrite app_nil_l in Hinv.
  assert (H0 : NearestInv th m [] (None, infinity)).
  { split; [done|]. intros r' w' (Hin & _). by apply elem_of_nil in Hin. }
  specialize (Hinv H0). unfold NearestInv in Hinv.
  destruct (fold_left _ towers (None, infinity)).1 as [r|].
  - destruct Hinv as (w & Hst & _ & Hfin & Hmin). by exists w.
  - by destruct Hinv as [_ Hmin].
Qed.

Lemma X18_nearest_witness :
  Mover.findNearestTower quartetBroken [0; 1; 2; 3]%nat sapper = Some 2%nat
  /\ towerDistance sapper <$> quartetBroken
     = [0x1.2071b0abcd838p+6; 0x1.65c55827df1d2p+5; 20;
        0x1.65c55827df1d2p+5]%float
  /\ exists w,
       standingTower quartetBroken [0; 1; 2; 3]%nat 2 w
       /\ forall r' w', standingTower quartetBroken [0; 1; 2; 3]%nat r' w' ->
            PrimFloat.ltb (towerDistance sapper w') (towerDistance sapper w)
            = false.
Proof.
  split; [reflexivity|]. split; [reflexivity|].
  pose proof (X18_breaker_picks_nearest quartetBroken [0; 1; 2; 3]%nat sapper)
    as H.
  change (Mover.findNearestTower quartetBroken [0; 1; 2; 3]%nat sapper)
    with (Some 2%nat) in H.
  destruct H as (w & Hst & _ & Hmin). by exists w.
Defined.

(** ** Frames of an enemy *)

Lemma moveBy_views vx vy m :
  combatView (Mover.body (Mover.moveBy vx vy m)) = combatView (Mover.body m)
  /\ slowView (Mover.moveBy vx vy m) = slowView m
  /\ Mover.pathIndex (Mover.moveBy vx vy m) = Mover.pathIndex m
  /\ Mover.path (Mover.moveBy vx vy m) = Mover.path m.
Proof. done. Qed.

Lemma moveTowardsBase_views m :
  combatView (Mover.body (Mover.moveTowardsBase m).1)
  = combatView (Mover.body m)
  /\ slowView (Mover.moveTowardsBase m).1 = slowView m
  /\ Mover.pathIndex (Mover.moveTowardsBase m).1 = Mover.pathIndex m
  /\ Mover.path (Mover.moveTowardsBase m).1 = Mover.path m.
Proof. unfold Mover.moveTowardsBase. by destruct (PrimFloat.ltb _ _). Qed.

Lemma moveTowardsTower_views tower m :
  combatView (Mover.body (Mover.moveTowardsTower tower m).1)
  = combatView (Mover.body m)
  /\ slowView (Mover.moveTowardsTower tower m).1 = slowView m
  /\ Mover.pathIndex (Mover.moveTowardsTower tower m).1 = Mover.pathIndex m
  /\ Mover.path (Mover.moveTowardsTower tower m).1 = Mover.path m.
Proof. unfold Mover.moveTowardsTower. by destruct (PrimFloat.ltb _ _). Qed.

(** One step along the path: the waypoint index stays or advances by
    one, and then stays within the path. *)
Lemma followPath_views m :
  let out := Mover.followPath m in
  combatView (Mover.body out.1) = combatView (Mover.body m)
  /\ slowView out.1 = slowView m
  /\ Mover.path out.1 = Mover.path m
  /\ (Mover.pathIndex out.1 = Mover.pathIndex m
      \/ (Mover.pathIndex out.1 = S (Mover.pathIndex m)
          /\ S (Mover.pathIndex m) < length (Mover.path m)
          /\ Enemy.position (Mover.body out.1)
             = Enemy.position (Mover.body m)))
  /\ (out.2 = true -> Mover.atLastWaypoint out.1 = true).
Proof.
  intros out. subst out. unfold Mover.followPath.
  destruct (Mover.atLastWaypoint m) eqn:Hlast; [by repeat split; auto|].
  destruct (Mover.path m !! S (Mover.pathIndex m)) as [target|] eqn:Ht.
  2:{ apply lookup_ge_None in Ht. unfold Mover.atLastWaypoint in Hlast.
      rewrite Z.geb_leb in Hlast. apply Z.leb_gt in Hlast. lia. }
  apply lookup_lt_Some in Ht.
  destruct (PrimFloat.ltb _ (Mover.speed m)).
  - destruct (Mover.atLastWaypoint (Mover.set_pathIndex _ m)) eqn:Hl1;
      simpl; repeat split; auto; done.
  - simpl. repeat split; auto. done.
Qed.

(** What one frame does to the combat state, the slow state and the
    waypoint index of a living enemy. *)
Lemma update_views now (th : list Tower.t) towers m :
  Enemy.isAlive (Mover.body m) = true ->
  let out := Mover.update now th towers m in
  let e1 := Mover.thaw now (Mover.body m) in
  combatView (Mover.body out.1)
  = combatView (if Enemy.isFrozen e1 then e1 else Mover.tickStatus e1)
  /\ slowView out.1 = slowView (Mover.unslow now m)
  /\ Mover.path out.1 = Mover.path m
  /\ (Mover.pathIndex out.1 = Mover.pathIndex m
      \/ (Mover.pathIndex out.1 = S (Mover.pathIndex m)
          /\ S (Mover.pathIndex m) < length (Mover.path m)))
  /\ (Enemy.isFrozen e1 = true ->
      out.2 = false
      /\ Enemy.position (Mover.body out.1) = Enemy.position (Mover.body m)
      /\ Mover.pathIndex out.1 = Mover.pathIndex m).
Proof.
  intros Hal out e1. subst out. unfold Mover.update. rewrite Hal. simpl.
  assert (Hsl : forall b,
            slowView (Mover.unslow now (Mover.set_body b m))
            = slowView (Mover.unslow now m)
            /\ Mover.body (Mover.unslow now (Mover.set_body b m)) = b
            /\ Mover.path (Mover.unslow now (Mover.set_body b m))
               = Mover.path m
            /\ Mover.pathIndex (Mover.unslow now (Mover.set_body b m))
               = Mover.pathIndex m).
  { intros b. unfold Mover.unslow. simpl.
    by destruct (Mover.isSlowed m && _). }
  destruct (Hsl e1) as (S1 & S2 & S3 & S4). fold e1.
  set (m2 := Mover.unslow now (Mover.set_body e1 m)) in *.
  rewrite S2.
  assert (Hpos1 : Enemy.position e1 = Enemy.position (Mover.body m)).
  { unfold e1, Mover.thaw. destruct (Enemy.isFrozen _ && _); [|done].
    simpl. by destruct (tag_eqb _ _). }
  destruct (Enemy.isFrozen e1) eqn:Hfr.
  { simpl. rewrite S2. repeat split; auto. }
  set (m3 := Mover.set_body (Mover.tickStatus e1) m2).
  assert (H3 : combatView (Mover.body m3) = combatView (Mover.tickStatus e1)
               /\ slowView m3 = slowView (Mover.unslow now m)
               /\ Mover.path m3 = Mover.path m
               /\ Mover.pathIndex m3 = Mover.pathIndex m).
  { unfold m3. simpl. by repeat split. }
  destruct H3 as (V1 & V2 & V3 & V4).
  assert (Hfollow : forall m4,
            combatView (Mover.body m4) = combatView (Mover.tickStatus e1) ->
            slowView m4 = slowView (Mover.unslow now m) ->
            Mover.path m4 = Mover.path m ->
            Mover.pathIndex m4 = Mover.pathIndex m ->
            combatView (Mover.body (Mover.followPath m4).1)
            = combatView (Mover.tickStatus e1)
            /\ slowView (Mover.followPath m4).1
               = slowView (Mover.unslow now m)
            /\ Mover.path (Mover.followPath m4).1 = Mover.path m
            /\ (Mover.pathIndex (Mover.followPath m4).1 = Mover.pathIndex m
                \/ (Mover.pathIndex (Mover.followPath m4).1
                    = S (Mover.pathIndex m)
                    /\ S (Mover.pathIndex m) < length (Mover.path m)))
            /\ (false = true ->
                (Mover.followPath m4).2 = false
                /\ Enemy.position (Mover.body (Mover.followPath m4).1)
                   = Enemy.position (Mover.body m)
                /\ Mover.pathIndex (Mover.followPath m4).1
                   = Mover.pathIndex m)).
  { intros m4 W1 W2 W3 W4.
    destruct (followPath_views m4) as (F1 & F2 & F3 & F4 & _).
    rewrite F1, F2, F3, W1, W2, W3. repeat split; try done.
    rewrite <- W4, <- W3. destruct F4 as [->|(-> & ? & _)]; auto. }
  destruct (tc_ignoresPath _).
  { destruct (moveTowardsBase_views m3) as (B1 & B2 & B3 & B4).
    rewrite B1, B2, B3, B4, V1, V2, V3, V4. repeat split; auto; done. }
  destruct (tc_targetsNearestTower _ && _); [|by apply Hfollow].
  set (m4 := if Mover.targetLost th m3 then _ else m3).
  assert (H4 : combatView (Mover.body m4) = combatView (Mover.tickStatus e1)
               /\ slowView m4 = slowView (Mover.unslow now m)
               /\ Mover.path m4 = Mover.path m
               /\ Mover.pathIndex m4 = Mover.pathIndex m).
  { unfold m4. by destruct (Mover.targetLost th m3). }
  destruct H4 as (W1 & W2 & W3 & W4).
  destruct (Mover.targetTower m4) as [r|]; [|by apply Hfollow].
  destruct (th !! r) as [tower|]; [|by apply Hfollow].
  destruct (moveTowardsTower_views tower m4) as (T1 & T2 & T3 & T4).
  rewrite T1, T2, T3, T4, W1, W2, W3, W4. repeat split; auto; done.
Qed.

Lemma combatView_eq e e' :
  combatView e = combatView e' ->
  Enemy.health e = Enemy.health e'
  /\ Enemy.isAlive e = Enemy.isAlive e'
  /\ Enemy.status e = Enemy.status e'
  /\ Enemy.statusDuration e = Enemy.statusDuration e'
  /\ Enemy.isFrozen e = Enemy.isFrozen e'
  /\ Enemy.freezeEndTime e = Enemy.freezeEndTime e'.
Proof. unfold combatView. intros [= ? ? ? ? ? ? ? ?]. by repeat split. Qed.

Lemma combatView_kind e e' :
  combatView e = combatView e' ->
  Enemy.enemyType e = Enemy.enemyType e'
  /\ Enemy.attackDamage e = Enemy.attackDamage e'.
Proof. unfold combatView. intros [= ? ? ? ? ? ? ? ?]. by split. Qed.

Lemma slowView_eq m m' :
  slowView m = slowView m' ->
  Mover.speed m = Mover.speed m'
  /\ Mover.baseSpeed m = Mover.baseSpeed m'
  /\ Mover.isSlowed m = Mover.isSlowed m'
  /\ Mover.slowEndTime m = Mover.slowEndTime m'
  /\ Mover.slowMultiplier m = Mover.slowMultiplier m'.
Proof. unfold slowView. intros [= ? ? ? ? ?]. by repeat split. Qed.

(** X19.  A frozen enemy waits, and thaws on time.  While the clock is
    before [freezeEndTime], a frame of a living frozen enemy reports no
    arrival and leaves its position, its waypoint, its status and the
    remaining time of its status untouched: the status timer is paused
    by the freeze.  At the first frame at or after [freezeEndTime] the
    enemy is no longer frozen, and a status of [frozen] is cleared. *)
Theorem X19_frozen_enemy_waits now (th : list Tower.t) towers m :
  Enemy.isAlive (Mover.body m) = true ->
  Enemy.isFrozen (Mover.body m) = true ->
  let out := Mover.update now th towers m in
  ((now < Enemy.freezeEndTime (Mover.body m))%Z ->
   out.2 = false
   /\ Enemy.position (Mover.body out.1) = Enemy.position (Mover.body m)
   /\ Mover.pathIndex out.1 = Mover.pathIndex m
   /\ Enemy.status (Mover.body out.1) = Enemy.status (Mover.body m)
   /\ Enemy.statusDuration (Mover.body out.1)
      = Enemy.statusDuration (Mover.body m)
   /\ Enemy.isFrozen (Mover.body out.1) = true)
  /\ ((Enemy.freezeEndTime (Mover.body m) <= now)%Z ->
      Enemy.isFrozen (Mover.body out.1) = false
      /\ (Enemy.status (Mover.body m) = Some frozen ->
          Enemy.status (Mover.body out.1) = None)).
Proof.
  intros Hal Hfr out.
  destruct (update_views now th towers m Hal) as (Hc & _ & _ & _ & Hwait).
  fold out in Hc, Hwait. split.
  - intros Hlt.
    assert (He1 : Mover.thaw now (Mover.body m) = Mover.body m).
    { unfold Mover.thaw. rewrite Hfr. simpl.
      rewrite Z.geb_leb. by rewrite (proj2 (Z.leb_gt _ _) Hlt). }
    rewrite He1, Hfr in Hc, Hwait.
    destruct (Hwait eq_refl) as (H1 & H2 & H3).
    apply combatView_eq in Hc as (_ & _ & Hs & Hd & Hf & _).
    repeat split; try done. by rewrite Hf.
  - intros Hge.
    assert (He1 : Mover.thaw now (Mover.body m)
                  = if tag_eqb (Enemy.status (Mover.body m)) (Some frozen)
                    then Enemy.clearStatus
                           (Enemy.set_isFrozen false (Mover.body m))
                    else Enemy.set_isFrozen false (Mover.body m)).
    { unfold Mover.thaw. rewrite Hfr. simpl.
      rewrite Z.geb_leb. by rewrite (proj2 (Z.leb_le _ _) Hge). }
    rewrite He1 in Hc.
    unfold tag_eqb in Hc.
    destruct (bool_decide (Enemy.status (Mover.body m) = Some frozen))
      eqn:Hst; simpl in Hc.
    + apply combatView_eq in Hc as (_ & _ & Hs & _ & Hf & _). by split.
    + apply bool_decide_eq_false in Hst.
      apply combatView_eq in Hc as (_ & _ & _ & _ & Hf & _).
      split; [|done]. rewrite Hf. unfold Mover.tickStatus.
      destruct (_ >? 0)%Z; [|done]. simpl. by destruct (_ <=? 0)%Z.
Qed.

Lemma X19_frozen_witness :
  (Enemy.isAlive (Mover.body frozenWalker) = true
   /\ Enemy.isFrozen (Mover.body frozenWalker) = true
   /\ (2999 < Enemy.freezeEndTime (Mover.body frozenWalker))%Z)
  /\ Enemy.statusDuration (Mover.body frozenWalker) = 1500%Z
  /\ Enemy.statusDuration (Mover.body (Mover.update 2999 [] [] frozenWalker).1)
     = 1500%Z
  /\ Enemy.position (Mover.body (Mover.update 2999 [] [] frozenWalker).1)
     = mkPosition 0 0
  /\ Enemy.position (Mover.body (Mover.update 3000 [] [] frozenWalker).1)
     = mkPosition 1.5 0.
Proof.
  assert (Hlt : (2999 < Enemy.freezeEndTime (Mover.body frozenWalker))%Z)
    by (simpl; lia).
  split; [by repeat split|]. split; [reflexivity|].
  destruct (X19_frozen_enemy_waits 2999 [] [] frozenWalker eq_refl eq_refl)
    as [Hwait _].
  destruct (Hwait Hlt) as (_ & Hpos & _ & _ & Hd & _).
  split; [exact Hd|]. split; [exact Hpos|reflexivity].
Defined.

Lemma tickStatus_cases e :
  let e' := Mover.tickStatus e in
  Enemy.isAlive e' = Enemy.isAlive e
  /\ Enemy.isFrozen e' = Enemy.isFrozen e
  /\ ((Enemy.statusDuration e <= 0)%Z -> e' = e)
  /\ ((16 < Enemy.statusDuration e)%Z ->
      Enemy.status e' = Enemy.status e
      /\ Enemy.statusDuration e' = (Enemy.statusDuration e - 16)%Z)
  /\ ((0 < Enemy.statusDuration e <= 16)%Z ->
      Enemy.status e' = None /\ Enemy.statusDuration e' = 0%Z).
Proof.
  intros e'. subst e'. unfold Mover.tickStatus.
  destruct (Enemy.statusDuration e >? 0)%Z eqn:Hpos.
  - apply Z.gtb_lt in Hpos. simpl.
    destruct (Enemy.statusDuration e - 16 <=? 0)%Z eqn:Hend; simpl.
    + apply Z.leb_le in Hend. repeat split; try done; lia.
    + apply Z.leb_gt in Hend. repeat split; try done; lia.
  - rewrite Z.gtb_ltb in Hpos. apply Z.ltb_ge in Hpos.
    repeat split; try done; lia.
Qed.

(** One frame of a living enemy that is not frozen ticks its status. *)
Lemma update_ticks now (th : list Tower.t) towers m :
  Enemy.isAlive (Mover.body m) = true ->
  Enemy.isFrozen (Mover.body m) = false ->
  combatView (Mover.body (Mover.update now th towers m).1)
  = combatView (Mover.tickStatus (Mover.body m)).
Proof.
  intros Hal Hfr.
  destruct (update_views now th towers m Hal) as (Hc & _).
  assert (He1 : Mover.thaw now (Mover.body m) = Mover.body m).
  { unfold Mover.thaw. by rewrite Hfr. }
  by rewrite He1, Hfr in Hc.
Qed.

(** X20.  A status lasts a number of frames, not a time.  On a living
    enemy that is not frozen, a status with [d] ms left survives every
    run of [n] frames with [16 * n < d], counting down 16 ms per frame
    whatever the clocks of the frames say, and is gone (no status, no
    time left) after every run with [16 * n >= d].  The 3000 ms written
    by [applyStatus] thus last 187 frames and end on the 188th. *)
Theorem X20_status_lasts_in_frames (frames : list Tick) m s d :
  Enemy.isAlive (Mover.body m) = true ->
  Enemy.isFrozen (Mover.body m) = false ->
  Enemy.status (Mover.body m) = Some s ->
  Enemy.statusDuration (Mover.body m) = d ->
  (0 < d)%Z ->
  let m' := updates frames m in
  let n := Z.of_nat (length frames) in
  ((16 * n < d)%Z ->
   Enemy.status (Mover.body m') = Some s
   /\ Enemy.statusDuration (Mover.body m') = (d - 16 * n)%Z)
  /\ ((d <= 16 * n)%Z ->
      Enemy.status (Mover.body m') = None
      /\ Enemy.statusDuration (Mover.body m') = 0%Z).
Proof.
  intros Hal Hfr Hs Hd Hpos m' n. subst m' n.
  assert (Hgone : forall fs m0,
            Enemy.isAlive (Mover.body m0) = true ->
            Enemy.isFrozen (Mover.body m0) = false ->
            Enemy.status (Mover.body m0) = None ->
            Enemy.statusDuration (Mover.body m0) = 0%Z ->
            Enemy.status (Mover.body (updates fs m0)) = None
            /\ Enemy.statusDuration (Mover.body (updates fs m0)) = 0%Z).
  { induction fs as [|f fs IH]; intros m0 A F S0 D0; [done|].
    unfold updates in *. cbn [fold_left].
    pose proof (update_ticks f.1.1 f.1.2 f.2 m0 A F) as Hv.
    destruct (tickStatus_cases (Mover.body m0)) as (T1 & T2 & T3 & _).
    rewrite T3 in Hv by lia.
    apply combatView_eq in Hv as (_ & V2 & V3 & V4 & V5 & _).
    apply IH; congruence. }
  revert m d Hal Hfr Hs Hd Hpos.
  induction frames as [|f frames IH]; intros m d Hal Hfr Hs Hd Hpos.
  - simpl. split; [intros _; split; [done|lia]|lia].
  - change (updates (f :: frames) m)
      with (updates frames (Mover.update f.1.1 f.1.2 f.2 m).1).
    pose proof (update_ticks f.1.1 f.1.2 f.2 m Hal Hfr) as Hv.
    destruct (tickStatus_cases (Mover.body m)) as (T1 & T2 & _ & T4 & T5).
    apply combatView_eq in Hv as (_ & V2 & V3 & V4 & V5 & _).
    rewrite T1 in V2. rewrite T2 in V5.
    set (m1 := (Mover.update f.1.1 f.1.2 f.2 m).1) in *.
    rewrite length_cons, Nat2Z.inj_succ.
    destruct (decide (16 < d)%Z) as [Hbig|Hsmall].
    + destruct (T4 ltac:(lia)) as [T4s T4d].
      destruct (IH m1 (d - 16)%Z) as [I1 I2]; try congruence; try lia.
      split.
      * intros Hn. destruct I1 as [? ?]; [lia|]. split; [done|lia].
      * intros Hn. apply I2. lia.
    + destruct (T5 ltac:(lia)) as [T5s T5d].
      split; [lia|]. intros _. apply Hgone; congruence.
Qed.

Lemma X20_status_witness :
  let frame : Tick := (0%Z, [], []) in
  (Enemy.isAlive (Mover.body burningWalker) = true
   /\ Enemy.isFrozen (Mover.body burningWalker) = false
   /\ Enemy.status (Mover.body burningWalker) = Some (StElement fire)
   /\ Enemy.statusDuration (Mover.body burningWalker) = 3000%Z
   /\ (16 * Z.of_nat (length (replicate 187 frame)) < 3000)%Z
   /\ (3000 <= 16 * Z.of_nat (length (replicate 188 frame)))%Z)
  /\ Enemy.statusDuration
       (Mover.body (updates (replicate 187 frame) burningWalker)) = 8%Z
  /\ Enemy.status (Mover.body (updates (replicate 188 frame) burningWalker))
     = None.
Proof.
  intros frame.
  assert (H187 : (16 * Z.of_nat (length (replicate 187 frame)) < 3000)%Z)
    by (rewrite length_replicate; lia).
  assert (H188 : (3000 <= 16 * Z.of_nat (length (replicate 188 frame)))%Z)
    by (rewrite length_replicate; lia).
  split; [by repeat split|].
  destruct (X20_status_lasts_in_frames (replicate 187 frame) burningWalker
              (StElement fire) 3000 eq_refl eq_refl eq_refl eq_refl
              ltac:(lia)) as [Hlast _].
  destruct (X20_status_lasts_in_frames (replicate 188 frame) burningWalker
              (StElement fire) 3000 eq_refl eq_refl eq_refl eq_refl
              ltac:(lia)) as [_ Hgone].
  destruct (Hlast H187) as [_ Hd]. destruct (Hgone H188) as [Hs _].
  split; [|exact Hs].
  rewrite Hd, length_replicate. reflexivity.
Defined.

(** ** Slowing *)

Lemma applySlow_cases now duration multiplier m :
  let actual :=
    JS.Math_floor
      (JS.Z2F duration * (1 - Enemy.ccImmunity (Mover.body m)))%float in
  ((actual < 200)%Z /\ Mover.applySlow now duration multiplier m = m)
  \/ ((200 <= actual)%Z
      /\ Mover.applySlow now duration multiplier m
         = Mover.mk (Mover.body m) (Mover.baseSpeed m * multiplier)%float
             (Mover.baseSpeed m) true (now + actual) multiplier
             (Mover.targetTower m) (Mover.pathIndex m) (Mover.path m)).
Proof.
  intros actual. unfold Mover.applySlow. fold actual.
  destruct (actual <? 200)%Z eqn:E.
  - left. by apply Z.ltb_lt in E.
  - right. by apply Z.ltb_ge in E.
Qed.

(** X21.  A slow wears off and does not compound.  On a living enemy
    moving at its base speed, [applySlow] either is dropped (when the
    crowd-control immunity cuts it below 200 ms) or sets the speed to
    the base speed times the multiplier until [now] plus the cut
    duration.  Frames before that time keep the slowed speed; the first
    frame at or after it restores the base speed exactly, also while the
    enemy is frozen.  A second slow replaces the first: the speed is
    always the base speed times the latest multiplier, never a product
    of multipliers. *)
Theorem X21_slow_wears_off now duration multiplier now' (th : list Tower.t)
    towers m :
  Enemy.isAlive (Mover.body m) = true ->
  Mover.isSlowed m = false ->
  Mover.speed m = Mover.baseSpeed m ->
  let actual :=
    JS.Math_floor
      (JS.Z2F duration * (1 - Enemy.ccImmunity (Mover.body m)))%float in
  let m1 := Mover.applySlow now duration multiplier m in
  let m2 := (Mover.update now' th towers m1).1 in
  Mover.baseSpeed m2 = Mover.baseSpeed m
  /\ ((actual < 200)%Z -> m1 = m /\ Mover.speed m2 = Mover.baseSpeed m)
  /\ ((200 <= actual)%Z ->
      Mover.speed m1 = (Mover.baseSpeed m * multiplier)%float
      /\ Mover.slowEndTime m1 = (now + actual)%Z
      /\ ((now' < now + actual)%Z ->
          Mover.speed m2 = (Mover.baseSpeed m * multiplier)%float
          /\ Mover.isSlowed m2 = true)
      /\ ((now + actual <= now')%Z ->
          Mover.speed m2 = Mover.baseSpeed m
          /\ Mover.isSlowed m2 = false
          /\ Mover.slowMultiplier m2 = 1%float)
      /\ forall now2 duration2 multiplier2,
           Mover.applySlow now2 duration2 multiplier2 m1 = m1
           \/ Mover.speed (Mover.applySlow now2 duration2 multiplier2 m1)
              = (Mover.baseSpeed m * multiplier2)%float).
Proof.
  intros Hal Hns Hsp actual m1 m2.
  assert (Hal1 : Enemy.isAlive (Mover.body m1) = true).
  { unfold m1, Mover.applySlow. by destruct (_ <? 200)%Z. }
  destruct (update_views now' th towers m1 Hal1) as (_ & Hv & _).
  fold m2 in Hv. apply slowView_eq in Hv as (V1 & V2 & V3 & V4 & V5).
  pose proof (applySlow_cases now duration multiplier m) as Hcases.
  cbv zeta in Hcases. fold actual in Hcases. fold m1 in Hcases.
  clearbody actual.
  destruct Hcases as [[Hshort Hm1]|[Hlong Hm1]].
  - assert (Hun : Mover.unslow now' m1 = m1).
    { rewrite Hm1. unfold Mover.unslow. by rewrite Hns. }
    rewrite Hun, Hm1 in V1, V2.
    split; [done|]. split; [intros _; split; [done|congruence]|]. lia.
  - split.
    { rewrite V2. unfold Mover.unslow.
      destruct (Mover.isSlowed m1 && _); by rewrite Hm1. }
    split; [lia|]. intros _.
    split; [by rewrite Hm1|]. split; [by rewrite Hm1|].
    split; [|split].
    + intros Hlt.
      assert (Hun : Mover.unslow now' m1 = m1).
      { unfold Mover.unslow. rewrite Hm1. simpl.
        rewrite Z.geb_leb. by rewrite (proj2 (Z.leb_gt _ _) Hlt). }
      rewrite Hun in V1, V3. rewrite V1, V3. by rewrite Hm1.
    + intros Hge.
      assert (Hun : slowView (Mover.unslow now' m1)
                    = (Mover.baseSpeed m, Mover.baseSpeed m, false,
                       (now + actual)%Z, 1%float)).
      { unfold Mover.unslow. rewrite Hm1. simpl.
        rewrite Z.geb_leb. by rewrite (proj2 (Z.leb_le _ _) Hge). }
      unfold slowView in Hun. injection Hun as U1 U2 U3 U4 U5.
      by rewrite V1, V3, V5.
    + intros now2 duration2 multiplier2.
      destruct (applySlow_cases now2 duration2 multiplier2 m1)
        as [[_ ->]|[_ ->]]; [by left|right]. simpl. by rewrite Hm1.
Qed.

Lemma X21_slow_witness :
  let m1 := Mover.applySlow 1000 3000 0.5 pathWalker in
  (Enemy.isAlive (Mover.body pathWalker) = true
   /\ Mover.isSlowed pathWalker = false
   /\ Mover.speed pathWalker = Mover.baseSpeed pathWalker
   /\ (200 <= JS.Math_floor
                (JS.Z2F 3000
                 * (1 - Enemy.ccImmunity (Mover.body pathWalker)))%float)%Z)
  /\ Mover.speed pathWalker = 1.5%float
  /\ Mover.speed m1 = 0.75%float
  /\ Mover.slowEndTime m1 = 4000%Z
  /\ Mover.speed (Mover.update 3999 [] [] m1).1 = 0.75%float
  /\ Mover.speed (Mover.update 4000 [] [] m1).1 = 1.5%float.
Proof.
  intros m1.
  assert (Hlong : (200 <= JS.Math_floor
                            (JS.Z2F 3000
                             * (1 - Enemy.ccImmunity
                                      (Mover.body pathWalker)))%float)%Z)
    by (by vm_compute).
  split; [by repeat split|]. split; [reflexivity|].
  destruct (X21_slow_wears_off 1000 3000 0.5 4000 [] [] pathWalker
              eq_refl eq_refl eq_refl) as (_ & _ & Hslow).
  destruct (Hslow Hlong) as (Hs1 & He1 & _ & Hoff & _).
  split; [exact Hs1|]. split; [exact He1|]. split; [reflexivity|].
  apply Hoff. by vm_compute.
Defined.

(** ** Waypoints *)

(** X22.  An enemy takes its waypoints in order and never leaves its
    path.  Over any run of frames, whatever the archetype, the waypoint
    index never decreases, advances by at most one per frame, and stays
    an index of the path; the path itself is never changed. *)
Theorem X22_waypoints_in_order (frames : list Tick) m :
  Mover.pathIndex m < length (Mover.path m) ->
  let m' := updates frames m in
  Mover.path m' = Mover.path m
  /\ Mover.pathIndex m <= Mover.pathIndex m'
  /\ Mover.pathIndex m' <= Mover.pathIndex m + length frames
  /\ Mover.pathIndex m' < length (Mover.path m).
Proof.
  intros Hin m'. subst m'. revert m Hin.
  induction frames as [|f frames IH]; intros m Hin.
  - simpl. repeat split; try done; lia.
  - change (updates (f :: frames) m)
      with (updates frames (Mover.update f.1.1 f.1.2 f.2 m).1).
    assert (Hstep : Mover.path (Mover.update f.1.1 f.1.2 f.2 m).1
                    = Mover.path m
                    /\ (Mover.pathIndex (Mover.update f.1.1 f.1.2 f.2 m).1
                        = Mover.pathIndex m
                        \/ (Mover.pathIndex (Mover.update f.1.1 f.1.2 f.2 m).1
                            = S (Mover.pathIndex m)
                            /\ S (Mover.pathIndex m)
                               < length (Mover.path m)))).
    { destruct (Enemy.isAlive (Mover.body m)) eqn:Hal.
      - by destruct (update_views f.1.1 f.1.2 f.2 m Hal) as (_ & _ & ? & ? & _).
      - unfold Mover.update. rewrite Hal. simpl. auto. }
    destruct Hstep as [Hp Hi].
    set (m1 := (Mover.update f.1.1 f.1.2 f.2 m).1) in *.
    destruct (IH m1) as (I1 & I2 & I3 & I4).
    { rewrite Hp. destruct Hi as [->|[-> ?]]; lia. }
    rewrite Hp in I1, I4. rewrite length_cons.
    split; [done|]. destruct Hi as [Hi|[Hi _]]; rewrite Hi in I2, I3;
      repeat split; lia.
Qed.

Lemma X22_waypoints_witness :
  let frames : list Tick := replicate 6 (0%Z, [], []) in
  Mover.pathIndex pathWalker < length (Mover.path pathWalker)
  /\ Mover.pathIndex (updates frames pathWalker) = 2
  /\ Enemy.position (Mover.body (updates frames pathWalker))
     = mkPosition 3 3
  /\ Mover.pathIndex (updates frames pathWalker)
     < length (Mover.path pathWalker).
Proof.
  intros frames.
  assert (Hin : Mover.pathIndex pathWalker < length (Mover.path pathWalker))
    by (simpl; lia).
  split; [exact Hin|]. split; [reflexivity|]. split; [reflexivity|].
  by destruct (X22_waypoints_in_order frames pathWalker Hin) as (_ & _ & _ & H).
Defined.

(** ** Spells *)

Lemma castSpell_cases now s target all (counts : gmap SpellType Z)
    (heap : list Mover.t) :
  let out := SpellSystem.castSpell now s target all (counts, heap) in
  let used := SpellSystem.usedCount s counts in
  ((sp_cooldown (SPELL_CONFIGS s) <= used)%Z
   /\ out = (counts, heap, None))
  \/ ((used < sp_cooldown (SPELL_CONFIGS s))%Z
      /\ out.1.1 = <[s := (used + 1)%Z]> counts
      /\ exists result, out.2 = Some result
                        /\ sr_spellType result = s
                        /\ sr_position result = target).
Proof.
  intros out used. subst out. unfold SpellSystem.castSpell.
  unfold SpellSystem.canUseSpell. fold used.
  destruct (used <? sp_cooldown (SPELL_CONFIGS s))%Z eqn:E; simpl.
  - apply Z.ltb_lt in E. right. split; [done|].
    match goal with
    | |- context [fold_left ?f all ?a] =>
        destruct (fold_left f all a) as [[heap1 aff] tot]
    end.
    simpl. split; [done|]. by eexists.
  - apply Z.ltb_ge in E. by left.
Qed.

Lemma usedCount_insert s s' v (counts : gmap SpellType Z) :
  SpellSystem.usedCount s (<[s' := v]> counts)
  = if decide (s = s') then v else SpellSystem.usedCount s counts.
Proof.
  unfold SpellSystem.usedCount.
  destruct (decide (s = s')) as [->|Hne].
  - rewrite lookup_insert_eq. simpl.
    destruct (v =? 0)%Z eqn:E; [|done]. apply Z.eqb_eq in E. lia.
  - by rewrite lookup_insert_ne.
Qed.

Lemma castRun_count all casts s (counts : gmap SpellType Z)
    (heap : list Mover.t) :
  (SpellSystem.usedCount s counts <= sp_cooldown (SPELL_CONFIGS s))%Z ->
  SpellSystem.usedCount s (castRun all casts (counts, heap)).1
  = Z.min (SpellSystem.usedCount s counts + requests s casts)
      (sp_cooldown (SPELL_CONFIGS s)).
Proof.
  revert counts heap.
  induction casts as [|[[now s'] target] casts IH]; intros counts heap Hu.
  - unfold requests. simpl. lia.
  - change (castRun all ((now, s', target) :: casts) (counts, heap))
      with (castRun all casts
              (SpellSystem.castSpell now s' target all (counts, heap)).1).
    assert (Hreq : requests s ((now, s', target) :: casts)
                   = ((if decide (s' = s) then 1 else 0)
                      + requests s casts)%Z).
    { unfold requests, tag_eqb. simpl.
      destruct (decide (s' = s)) as [->|Hne].
      - rewrite bool_decide_eq_true_2 by done. simpl. lia.
      - rewrite bool_decide_eq_false_2 by done. lia. }
    rewrite Hreq.
    assert (Hnn : (0 <= requests s casts)%Z) by (unfold requests; lia).
    destruct (castSpell_cases now s' target all counts heap)
      as [[Hfull Hout]|(Hfree & Hcounts & _)].
    + rewrite Hout. simpl. rewrite IH by done.
      destruct (decide (s' = s)) as [->|Hne]; lia.
    + destruct (SpellSystem.castSpell now s' target all (counts, heap))
        as [[counts1 heap1] res]. simpl in Hcounts. subst counts1. simpl.
      rewrite IH.
      * rewrite usedCount_insert.
        destruct (decide (s = s')) as [->|Hne].
        -- rewrite decide_True by done. lia.
        -- rewrite decide_False by done. lia.
      * rewrite usedCount_insert.
        destruct (decide (s = s')) as [->|Hne]; lia.
Qed.

(** X23.  A spell can be cast as many times per wave as its
    configuration allows, and no more; it can be cast exactly while
    [getRemainingUses] is positive.  After [resetUsageCounts], over
    any series of casts, the number of casts of a spell that took effect
    is the number requested capped at the spell's allowance (2 for the
    meteor, 1 for the blizzard, 3 for the oil bomb).  A cast beyond the
    allowance returns nothing and changes neither the counts nor any
    enemy; a cast within it counts once, for its own spell only. *)
Theorem X23_spell_uses_per_wave now s target all casts
    (counts : gmap SpellType Z) (heap : list Mover.t) :
  let out := SpellSystem.castSpell now s target all (counts, heap) in
  let used := SpellSystem.usedCount s counts in
  SpellSystem.usedCount s
    (castRun all casts (SpellSystem.resetUsageCounts, heap)).1
  = Z.min (requests s casts) (sp_cooldown (SPELL_CONFIGS s))
  /\ ((sp_cooldown (SPELL_CONFIGS s) <= used)%Z ->
      out = (counts, heap, None))
  /\ ((used < sp_cooldown (SPELL_CONFIGS s))%Z ->
      out.2 <> None
      /\ SpellSystem.usedCount s out.1.1 = (used + 1)%Z
      /\ forall s', s' <> s -> out.1.1 !! s' = counts !! s')
  /\ (SpellSystem.canUseSpell s counts = true <->
      (0 < SpellSystem.getRemainingUses s counts)%Z).
Proof.
  intros out used.
  assert (Hrem : SpellSystem.canUseSpell s counts = true <->
                 (0 < SpellSystem.getRemainingUses s counts)%Z).
  { unfold SpellSystem.canUseSpell, SpellSystem.getRemainingUses.
    rewrite Z.ltb_lt. lia. }
  split.
  { rewrite castRun_count; by destruct s. }
  destruct (castSpell_cases now s target all counts heap)
    as [[Hfull Hout]|(Hfree & Hcounts & result & Hres & _)];
    fold out in Hout || fold out in Hcounts, Hres; fold used in Hfull || fold used in Hfree.
  - split; [done|]. split; [lia|done].
  - split; [lia|]. split; [|done]. intros _. split; [by rewrite Hres|].
    rewrite Hcounts. split.
    + by rewrite usedCount_insert, decide_True.
    + intros s' Hne. by rewrite lookup_insert_ne.
Qed.

Lemma X23_spell_uses_witness :
  let casts := [(0%Z, meteor, origin); (16%Z, meteor, origin);
                (32%Z, oil_bomb, origin); (48%Z, meteor, origin)] in
  requests meteor casts = 3%Z
  /\ SpellSystem.usedCount meteor
       (castRun [0; 1; 2; 3]%nat casts (SpellSystem.resetUsageCounts, horde)).1
     = 2%Z.
Proof.
  intros casts. split; [reflexivity|].
  exact (proj1 (X23_spell_uses_per_wave 0 meteor origin [0; 1; 2; 3]%nat casts
                  SpellSystem.resetUsageCounts horde)).
Defined.

(** One turn of a spell's loop acts on the visited enemy alone, by
    [struck]; the enemy is listed and its damage counted when the spell
    reaches it. *)
Lemma spell_step_struck now s target (heap : list Mover.t) aff tot r :
  let step :=
    match s with
    | meteor => SpellSystem.meteor_step (SPELL_CONFIGS s) target
    | blizzard => SpellSystem.blizzard_step now (SPELL_CONFIGS s)
    | oil_bomb => SpellSystem.oil_bomb_step (SPELL_CONFIGS s) target
    end in
  step (heap, aff, tot) r
  = (alter (struck now s target) r heap,
     if reachedRef s target heap r then aff ++ [r] else aff,
     (tot + damageRef s target heap r)%Z).
Proof.
  intros step. subst step. unfold reachedRef, damageRef.
  destruct s; simpl;
    unfold SpellSystem.meteor_step, SpellSystem.blizzard_step,
      SpellSystem.oil_bomb_step;
    (destruct (heap !! r) as [x|] eqn:Hr;
     [|rewrite alter_lookup_None by done; f_equal; lia]);
    rewrite (alter_lookup_Some _ _ _ _ Hr);
    unfold struck, reached;
    (destruct (Enemy.isAlive (Mover.body x)); simpl;
     [|rewrite list_insert_id by done; f_equal; lia]).
  - destruct (PrimFloat.leb _ 60); simpl;
      [|rewrite list_insert_id by done; f_equal; lia].
    unfold SpellSystem.hurt, SpellSystem.mark.
    by rewrite takeDamage_no_element.
  - f_equal. lia.
  - destruct (PrimFloat.leb _ 70); simpl;
      [|rewrite list_insert_id by done; f_equal; lia].
    unfold SpellSystem.hurt, SpellSystem.mark.
    by rewrite takeDamage_no_element.
Qed.

Lemma spell_fold now s target all (heap : list Mover.t) aff tot :
  NoDup all ->
  let step :=
    match s with
    | meteor => SpellSystem.meteor_step (SPELL_CONFIGS s) target
    | blizzard => SpellSystem.blizzard_step now (SPELL_CONFIGS s)
    | oil_bomb => SpellSystem.oil_bomb_step (SPELL_CONFIGS s) target
    end in
  fold_left step all (heap, aff, tot)
  = (fold_left (fun h r => alter (struck now s target) r h) all heap,
     aff ++ List.filter (reachedRef s target heap) all,
     (tot + damageOver s target heap all)%Z).
Proof.
  intros Hnd step. revert heap aff tot.
  induction Hnd as [|r rs Hnotin Hnd IH]; intros heap aff tot.
  - simpl. rewrite app_nil_r. f_equal. unfold damageOver. simpl. lia.
  - cbn [fold_left]. unfold step at 2.
    rewrite (spell_step_struck now s target heap aff tot r). fold step.
    rewrite IH.
    assert (Hsame : forall r', r' ∈ rs ->
              alter (struck now s target) r heap !! r' = heap !! r').
    { intros r' Hin. apply list_lookup_alter_ne. by intros ->. }
    assert (Hf : List.filter
                   (reachedRef s target (alter (struck now s target) r heap))
                   rs
                 = List.filter (reachedRef s target heap) rs).
    { apply filter_ext_in. intros r' Hin%list_elem_of_In.
      unfold reachedRef. by rewrite Hsame. }
    assert (Hd : damageOver s target (alter (struck now s target) r heap) rs
                 = damageOver s target heap rs).
    { clear IH Hf Hnd. unfold damageOver.
      induction rs as [|r' rs IHrs]; [done|]. simpl.
      rewrite IHrs.
      - unfold damageRef. rewrite Hsame; [done|by left].
      - by apply not_elem_of_cons in Hnotin as [_ ?].
      - intros r'' Hin. apply Hsame. by right. }
    rewrite Hf, Hd. f_equal; [f_equal|].
    + simpl. destruct (reachedRef s target heap r); [|done].
      by rewrite <- app_assoc.
    + unfold damageOver. simpl. lia.
Qed.

(** X24.  What a spell does, enemy by enemy.  A cast that is allowed,
    over a list of distinct enemies, acts on every listed enemy that it
    reaches and on no other: the meteor and the oil bomb reach the
    living enemies within their radius (60 and 70) of the target
    position, the blizzard every living enemy.  A reached enemy loses
    the spell's damage in full whatever its resistance (the meteor's
    fades linearly from 200 at the target to 100 at the rim, rounded
    down; the oil bomb's is 30; the blizzard deals none and slows), and
    then carries the spell's status (fire, oil, ice) whatever it carried
    before: a spell never triggers a reaction.  The result lists the
    reached enemies in order and totals the damage as dealt, not as
    absorbed. *)
Theorem X24_spell_effect now s target all (counts : gmap SpellType Z)
    (heap : list Mover.t) :
  NoDup all ->
  SpellSystem.canUseSpell s counts = true ->
  let out := SpellSystem.castSpell now s target all (counts, heap) in
  (forall i,
     out.1.2 !! i
     = if decide (i ∈ all) then struck now s target <$> heap !! i
       else heap !! i)
  /\ out.2
     = Some (mkSpellResult s target
               (List.filter (reachedRef s target heap) all)
               (damageOver s target heap all))
  /\ (forall x,
        reached s target x = false -> struck now s target x = x)
  /\ (forall x,
        reached s target x = true ->
        let x' := struck now s target x in
        Enemy.status (Mover.body x') = Some (spellMark s)
        /\ Enemy.statusDuration (Mover.body x') = 3000%Z
        /\ Enemy.health (Mover.body x')
           = match s with
             | blizzard => Enemy.health (Mover.body x)
             | _ =>
                 healthAfter
                   (spellDamage s
                      (distance (Enemy.getCenter (Mover.body x)) target))
                   (Enemy.health (Mover.body x))
             end)
  /\ spellDamage meteor 0 = 200%Z
  /\ spellDamage meteor 60 = 100%Z.
Proof.
  intros Hnd Hcan out. subst out. unfold SpellSystem.castSpell.
  rewrite Hcan. simpl negb. cbv iota.
  rewrite (spell_fold now s target all heap [] 0 Hnd). simpl.
  split; [intros i; by apply fold_alter_lookup|].
  split; [done|].
  split; [intros x Hx; unfold struck; by rewrite Hx|].
  split; [|by split].
  intros x Hx. unfold struck. rewrite Hx.
  destruct s; simpl.
  - by rewrite loseHealth_health.
  - unfold Mover.applySlow. by destruct (_ <? 200)%Z.
  - by rewrite loseHealth_health.
Qed.

Lemma X24_spell_witness :
  let out := SpellSystem.castSpell 0 meteor origin [0; 1; 2; 3]%nat
               (SpellSystem.resetUsageCounts, horde) in
  (NoDup [0; 1; 2; 3]%nat
   /\ SpellSystem.canUseSpell meteor SpellSystem.resetUsageCounts = true)
  /\ (Enemy.health <$> (Mover.body <$> horde)) = [500; 2000; 500; 0]%Z
  /\ (Enemy.health <$> (Mover.body <$> out.1.2)) = [300; 1850; 500; 0]%Z
  /\ (Enemy.status <$> (Mover.body <$> out.1.2))
     = [Some (StElement fire); Some (StElement fire); None; None]
  /\ out.2 = Some (mkSpellResult meteor origin [0; 1]%nat 350).
Proof.
  intros out.
  assert (Hnd : NoDup [0; 1; 2; 3]%nat) by (by apply (bool_decide_unpack _)).
  split; [by split|]. split; [reflexivity|]. split; [reflexivity|].
  split; [reflexivity|].
  destruct (X24_spell_effect 0 meteor origin [0; 1; 2; 3]%nat
              SpellSystem.resetUsageCounts horde Hnd eq_refl)
    as (_ & Hres & _).
  exact Hres.
Defined.

(** ** The synergy summary *)

Lemma summaryGet_bump k k' summary :
  summaryGet k (bump k' summary)
  = if decide (k = k') then Some (default 0%Z (summaryGet k summary) + 1)%Z
    else summaryGet k summary.
Proof.
  unfold summaryGet. induction summary as [|[k0 n] rest IH]; simpl.
  - unfold tag_eqb. simpl.
    destruct (decide (k = k')) as [->|Hne].
    + by rewrite bool_decide_eq_true_2.
    + rewrite bool_decide_eq_false_2; [done|]. by intros ->.
  - unfold tag_eqb in *. simpl.
    destruct (bool_decide (k0 = k')) eqn:E0; simpl.
    + apply bool_decide_eq_true in E0. subst k0.
      destruct (decide (k = k')) as [->|Hne].
      * by rewrite !bool_decide_eq_true_2.
      * rewrite !bool_decide_eq_false_2 by (by intros ->). done.
    + apply bool_decide_eq_false in E0.
      destruct (bool_decide (k0 = k)) eqn:E1; simpl; [|done].
      apply bool_decide_eq_true in E1. subst k0.
      by rewrite decide_False.
Qed.

Lemma bump_keys k summary :
  NoDup summary.*1 -> NoDup (bump k summary).*1
  /\ forall k', k' ∈ (bump k summary).*1 <-> k' = k \/ k' ∈ summary.*1.
Proof.
  induction summary as [|[k0 n] rest IH]; intros Hnd; simpl.
  - split; [apply NoDup_singleton|]. intros k'.
    rewrite list_elem_of_singleton. split; [by left|].
    intros [?|H]; [done|by apply elem_of_nil in H].
  - apply NoDup_cons in Hnd as [Hnotin Hnd]. destruct (IH Hnd) as [IH1 IH2].
    unfold tag_eqb. destruct (bool_decide (k0 = k)) eqn:E; simpl.
    + apply bool_decide_eq_true in E. subst k0.
      split; [by apply NoDup_cons|]. intros k'.
      rewrite elem_of_cons. tauto.
    + apply bool_decide_eq_false in E. split.
      * apply NoDup_cons. split; [|done]. rewrite IH2. intros [?|?]; done.
      * intros k'. rewrite !elem_of_cons, IH2. tauto.
Qed.

Lemma summary_fold_synergies k l summary a :
  (0 <= a)%Z ->
  summaryGet k summary = entryFor a ->
  summaryGet k
    (fold_left (fun summary synergy => bump (synergyType synergy) summary)
       l summary)
  = entryFor (a + countOf k l).
Proof.
  revert summary a. induction l as [|s l IH]; intros summary a Ha Hget.
  - unfold countOf. simpl. by rewrite Z.add_0_r.
  - cbn [fold_left].
    assert (Hc : countOf k (s :: l)
                 = ((if decide (k = synergyType s) then 1 else 0)
                    + countOf k l)%Z).
    { unfold countOf, tag_eqb. simpl.
      destruct (decide (k = synergyType s)) as [->|Hne].
      - rewrite bool_decide_eq_true_2 by done. simpl. lia.
      - rewrite bool_decide_eq_false_2 by (by intros <-). lia. }
    rewrite Hc.
    destruct (decide (k = synergyType s)) as [Heq|Hne].
    + rewrite (IH _ (a + 1)%Z); [f_equal; lia|lia|].
      rewrite summaryGet_bump, decide_True by done. rewrite Hget.
      unfold entryFor. destruct (a =? 0)%Z eqn:E0.
      * apply Z.eqb_eq in E0. by subst a.
      * simpl. destruct (a + 1 =? 0)%Z eqn:E1; [|done].
        apply Z.eqb_eq in E1. lia.
    + rewrite (IH _ a); [f_equal; lia|lia|].
      by rewrite summaryGet_bump, decide_False.
Qed.

(** X25.  The synergy summary counts right.  For every synergy of the
    table, the summary holds an entry exactly when some listed tower
    carries that synergy, and the entry is the number of listed towers'
    synergies of that kind; no name is listed twice. *)
Theorem X25_summary_counts towers (h : list Tower.t) k :
  let summary := getActiveSynergySummary towers h in
  summaryGet k summary = entryFor (tally k towers h)
  /\ (0 <= tally k towers h)%Z
  /\ NoDup summary.*1.
Proof.
  intros summary. subst summary. unfold getActiveSynergySummary.
  assert (Hgen : forall acc a,
            (0 <= a)%Z -> summaryGet k acc = entryFor a -> NoDup acc.*1 ->
            let out :=
              fold_left
                (fun summary r =>
                   match h !! r with
                   | Some tower =>
                       fold_left
                         (fun summary synergy =>
                            bump (synergyType synergy) summary)
                         (Tower.activeSynergies tower) summary
                   | None => summary
                   end) towers acc in
            summaryGet k out = entryFor (a + tally k towers h)
            /\ (0 <= tally k towers h)%Z
            /\ NoDup out.*1).
  { induction towers as [|r towers IH]; intros acc a Ha Hget Hnd out.
    - subst out. simpl. rewrite Z.add_0_r. by repeat split.
    - subst out. cbn [fold_left]. simpl tally.
      set (c := match h !! r with
                | Some w => countOf k (Tower.activeSynergies w)
                | None => 0%Z
                end).
      assert (Hc : (0 <= c)%Z).
      { unfold c. destruct (h !! r); [unfold countOf|]; lia. }
      set (acc1 := match h !! r with
                   | Some tower => fold_left _ (Tower.activeSynergies tower) acc
                   | None => acc
                   end).
      assert (H1 : summaryGet k acc1 = entryFor (a + c) /\ NoDup acc1.*1).
      { unfold acc1, c. destruct (h !! r) as [w|].
        - split; [by apply summary_fold_synergies|].
          clear -Hnd. revert acc Hnd.
          induction (Tower.activeSynergies w) as [|s l IHl]; intros acc Hnd;
            [done|].
          cbn [fold_left]. apply IHl. by apply bump_keys.
        - by rewrite Z.add_0_r. }
      destruct H1 as [Hget1 Hnd1].
      destruct (IH acc1 (a + c)%Z ltac:(lia) Hget1 Hnd1) as (I1 & I2 & I3).
      split; [rewrite I1; f_equal; lia|]. split; [lia|done]. }
  destruct (Hgen [] 0%Z ltac:(lia) eq_refl NoDup_nil_2) as (H1 & H2 & H3).
  by repeat split.
Qed.

Lemma X25_summary_witness :
  getActiveSynergySummary [0; 1; 2; 3]%nat quartetLive
  = [(fire_ice, 1%Z); (ice_lightning, 1%Z)]
  /\ tally fire_ice [0; 1; 2; 3]%nat quartetLive = 1%Z
  /\ summaryGet lightning_fire
       (getActiveSynergySummary [0; 1; 2; 3]%nat quartetLive) = None.
Proof.
  split; [reflexivity|]. split; [reflexivity|].
  exact (proj1 (X25_summary_counts [0; 1; 2; 3]%nat quartetLive
                  lightning_fire)).
Defined.

(** ** The boss's self-heal *)

(** Checked on every integer from 0 to 15000. *)
Lemma tenthExact_upto_15000 :
  allFrom (Z.to_nat 15001) 0 tenthExact = true.
Proof. vm_compute. reflexivity. Qed.

(** X26.  The boss's heal skill restores a tenth of its maximum health,
    rounded down, and never more than up to the maximum (for a maximum
    health up to 15000).  It changes nothing else: in particular it does
    not look at, or change, whether the boss is alive. *)
Theorem X26_boss_heal_restores_a_tenth (b : Enemy.t) :
  (0 <= Enemy.maxHealth b <= 15000)%Z ->
  let b' := Boss.healSkill b in
  Enemy.health b'
  = Z.min (Enemy.maxHealth b) (Enemy.health b + Enemy.maxHealth b / 10)
  /\ ((Enemy.health b <= Enemy.maxHealth b)%Z ->
      (Enemy.health b <= Enemy.health b' <= Enemy.maxHealth b)%Z)
  /\ b' = Enemy.set_health (Enemy.health b') b.
Proof.
  intros Hmax b'. subst b'. unfold Boss.healSkill, Boss.heal.
  pose proof (allFrom_spec _ _ _ tenthExact_upto_15000 (Enemy.maxHealth b)
                ltac:(lia)) as H.
  apply Z.eqb_eq in H. rewrite H. simpl.
  split; [done|]. split; [|done].
  intros Hh.
  assert (0 <= Enemy.maxHealth b / 10)%Z by (apply Z.div_pos; lia).
  lia.
Qed.

Lemma X26_boss_heal_witness :
  let hurtBoss := (Enemy.takeDamage 150 None firstBoss).1 in
  (0 <= Enemy.maxHealth hurtBoss <= 15000)%Z
  /\ Enemy.health hurtBoss = 1850%Z
  /\ Enemy.health (Boss.healSkill hurtBoss) = 2000%Z
  /\ Enemy.health (Boss.healSkill (Boss.healSkill firstBoss)) = 2000%Z.
Proof.
  intros hurtBoss.
  assert (Hmax : (0 <= Enemy.maxHealth hurtBoss <= 15000)%Z)
    by (by vm_compute).
  split; [exact Hmax|]. split; [reflexivity|]. split; [|reflexivity].
  by destruct (X26_boss_heal_restores_a_tenth hurtBoss Hmax) as [-> _].
Defined.

(** ** The enemy pass *)

Lemma liveCount_insert (l : list Mover.t) i x y :
  l !! i = Some x ->
  liveCount (<[i := y]> l)
  = (liveCount l
     - (if Enemy.isAlive (Mover.body x) then 1 else 0)
     + (if Enemy.isAlive (Mover.body y) then 1 else 0))%Z.
Proof.
  unfold liveCount. revert i.
  induction l as [|z l IH]; intros [|i] Hi; simplify_eq/=.
  - destruct (Enemy.isAlive (Mover.body x)), (Enemy.isAlive (Mover.body y));
      simpl; lia.
  - specialize (IH i Hi).
    destruct (Enemy.isAlive (Mover.body z)); simpl; lia.
Qed.

Lemma liveCount_nonneg l : (0 <= liveCount l)%Z.
Proof. unfold liveCount. lia. Qed.

Lemma thaw_kind now e :
  Enemy.isAlive (Mover.thaw now e) = Enemy.isAlive e
  /\ Enemy.enemyType (Mover.thaw now e) = Enemy.enemyType e
  /\ Enemy.attackDamage (Mover.thaw now e) = Enemy.attackDamage e.
Proof.
  unfold Mover.thaw. destruct (Enemy.isFrozen e && _); [|done].
  simpl. by destruct (tag_eqb _ _).
Qed.

Lemma tickStatus_kind e :
  Enemy.isAlive (Mover.tickStatus e) = Enemy.isAlive e
  /\ Enemy.enemyType (Mover.tickStatus e) = Enemy.enemyType e
  /\ Enemy.attackDamage (Mover.tickStatus e) = Enemy.attackDamage e.
Proof.
  unfold Mover.tickStatus. destruct (_ >? 0)%Z; [|done].
  simpl. by destruct (_ <=? 0)%Z.
Qed.

Lemma update_kind now (th : list Tower.t) towers m :
  Enemy.isAlive (Mover.body m) = true ->
  Enemy.isAlive (Mover.body (Mover.update now th towers m).1) = true
  /\ Enemy.enemyType (Mover.body (Mover.update now th towers m).1)
     = Enemy.enemyType (Mover.body m)
  /\ Enemy.attackDamage (Mover.body (Mover.update now th towers m).1)
     = Enemy.attackDamage (Mover.body m).
Proof.
  intros Hal.
  destruct (update_views now th towers m Hal) as (Hc & _).
  destruct (thaw_kind now (Mover.body m)) as (T1 & T2 & T3).
  destruct (tickStatus_kind (Mover.thaw now (Mover.body m)))
    as (K1 & K2 & K3).
  pose proof (combatView_eq _ _ Hc) as (_ & Ha & _).
  pose proof (combatView_kind _ _ Hc) as (Hk & Hd).
  destruct (Enemy.isFrozen (Mover.thaw now (Mover.body m)));
    repeat split; congruence.
Qed.

Lemma strike_effect currentTime allTowers er enemy tr tower w :
  Enemy.enemyType (Mover.body enemy) = breaker ->
  let w' := EnemyPass.strike currentTime allTowers er enemy tr tower w in
  EnemyPass.enemies w'
  = <[er := Mover.set_body
              (Enemy.set_health 0
                 (Enemy.set_isAlive false
                    (Enemy.set_lastAttackTime currentTime
                       (Mover.body enemy))))
              enemy]> (EnemyPass.enemies w)
  /\ EnemyPass.baseHP w' = EnemyPass.baseHP w
  /\ EnemyPass.towers w'
     = (let tower1 :=
          (Tower.takeDamage (Enemy.attackDamage (Mover.body enemy)) tower).1 in
        let th1 := <[tr := tower1]> (EnemyPass.towers w) in
        if (Tower.takeDamage (Enemy.attackDamage (Mover.body enemy)) tower).2
        then Game.handleTowerDestruction allTowers th1 else th1).
Proof.
  intros Hb w'. subst w'. unfold EnemyPass.strike, Enemy.attackTower.
  simpl. unfold tag_eqb. rewrite Hb. simpl.
  by destruct (Tower.takeDamage _ tower).
Qed.

(** What one turn of the enemy pass does to the arena of enemies and to
    the base, for an enemy that is not a boss. *)
Lemma enemyTick_effect bossStep currentTime now allTowers aliveTowers
    (w : EnemyPass.World) er :
  noBosses (EnemyPass.enemies w) ->
  let w' :=
    EnemyPass.enemyTick bossStep currentTime now allTowers aliveTowers w er in
  w' = w
  \/ exists x x',
       EnemyPass.enemies w !! er = Some x
       /\ Enemy.isAlive (Mover.body x) = true
       /\ EnemyPass.enemies w' = <[er := x']> (EnemyPass.enemies w)
       /\ Enemy.enemyType (Mover.body x') = Enemy.enemyType (Mover.body x)
       /\ ((Enemy.isAlive (Mover.body x') = true
            /\ EnemyPass.baseHP w' = EnemyPass.baseHP w)
           \/ (Enemy.isAlive (Mover.body x') = false
               /\ (EnemyPass.baseHP w' = EnemyPass.baseHP w
                   \/ EnemyPass.baseHP w' = (EnemyPass.baseHP w - 10)%Z))).
Proof.
  intros Hnb w'. subst w'. unfold EnemyPass.enemyTick.
  destruct (EnemyPass.enemies w !! er) as [x|] eqn:Hx; [|by left].
  destruct (Enemy.isAlive (Mover.body x)) eqn:Hal; simpl; [|by left].
  assert (Hboss : Enemy.isBoss (Mover.body x) = false).
  { specialize (Hnb er x Hx). unfold Enemy.isBoss, Enemy.typeConfig.
    by destruct (Enemy.enemyType (Mover.body x)). }
  rewrite Hboss, Hx.
  right. exists x.
  destruct (update_kind now (EnemyPass.towers w) aliveTowers x Hal)
    as (U1 & U2 & U3).
  unfold tag_eqb.
  destruct (bool_decide (Enemy.enemyType (Mover.body x) = breaker)) eqn:Hb.
  - apply bool_decide_eq_true in Hb.
    destruct (EnemyPass.liveTarget (EnemyPass.towers w) x)
      as [[tr tower]|] eqn:Ht.
    + destruct (PrimFloat.ltb _ _).
      * destruct (strike_effect currentTime allTowers er x tr tower w Hb)
          as (S1 & S2 & S3).
        eexists. split; [done|]. split; [done|]. split; [exact S1|].
        split; [done|]. right. split; [done|by left].
      * destruct (Mover.update now (EnemyPass.towers w) aliveTowers x)
          as [x1 reached]. simpl in U1, U2, U3.
        destruct reached; simpl.
        -- rewrite U2, bool_decide_eq_true_2 by done.
           destruct (EnemyPass.liveTarget (EnemyPass.towers w) x1)
             as [[tr1 tower1]|].
           ++ destruct (strike_effect currentTime allTowers er x1 tr1 tower1
                          (EnemyPass.mkWorld
                             (<[er := x1]> (EnemyPass.enemies w))
                             (EnemyPass.towers w) (EnemyPass.baseHP w))
                          ltac:(congruence)) as (S1 & S2 & S3).
              simpl in S1, S2.
              eexists. split; [done|]. split; [done|].
              split; [by rewrite S1, list_insert_insert_eq|].
              split; [done|]. right. split; [done|by left].
           ++ eexists. split; [done|]. split; [done|].
              split; [simpl; by rewrite list_insert_insert_eq|].
              split; [done|]. right. split; [done|by right].
        -- eexists. split; [done|]. split; [done|]. split; [done|].
           split; [done|]. by left.
    + destruct (Mover.update now (EnemyPass.towers w) aliveTowers x)
        as [x1 reached]. simpl in U1, U2, U3.
      destruct reached; simpl.
      * rewrite U2, bool_decide_eq_true_2 by done.
        destruct (EnemyPass.liveTarget (EnemyPass.towers w) x1)
          as [[tr1 tower1]|].
        -- destruct (strike_effect currentTime allTowers er x1 tr1 tower1
                       (EnemyPass.mkWorld
                          (<[er := x1]> (EnemyPass.enemies w))
                          (EnemyPass.towers w) (EnemyPass.baseHP w))
                       ltac:(congruence)) as (S1 & S2 & S3).
           simpl in S1, S2.
           eexists. split; [done|]. split; [done|].
           split; [by rewrite S1, list_insert_insert_eq|].
           split; [done|]. right. split; [done|by left].
        -- eexists. split; [done|]. split; [done|].
           split; [simpl; by rewrite list_insert_insert_eq|].
           split; [done|]. right. split; [done|by right].
      * eexists. split; [done|]. split; [done|]. split; [done|].
        split; [done|]. by left.
  - apply bool_decide_eq_false in Hb.
    destruct (Mover.update now (EnemyPass.towers w) aliveTowers x)
      as [x1 reached]. simpl in U1, U2, U3.
    destruct reached; simpl.
    + rewrite U2, bool_decide_eq_false_2 by done.
      eexists. split; [done|]. split; [done|].
      split; [simpl; by rewrite list_insert_insert_eq|].
      split; [done|]. right. split; [done|by right].
    + eexists. split; [done|]. split; [done|]. split; [done|].
      split; [done|]. by left.
Qed.

Lemma enemyTick_paidFor bossStep currentTime now allTowers aliveTowers
    (w : EnemyPass.World) er :
  noBosses (EnemyPass.enemies w) ->
  let w' :=
    EnemyPass.enemyTick bossStep currentTime now allTowers aliveTowers w er in
  noBosses (EnemyPass.enemies w') /\ paidFor w w'.
Proof.
  intros Hnb w'.
  destruct (enemyTick_effect bossStep currentTime now allTowers aliveTowers
              w er Hnb) as [Hsame|(x & x' & Hx & Hal & Hen & Hty & Hcase)];
    fold w' in Hsame || fold w' in Hen, Hcase.
  - rewrite Hsame. split; [done|]. unfold paidFor. lia.
  - split.
    + intros i y Hy. rewrite Hen in Hy.
      destruct (decide (i = er)) as [->|Hne].
      * rewrite list_lookup_insert_eq in Hy by (by eapply lookup_lt_Some).
        injection Hy as <-. rewrite Hty. by eapply Hnb.
      * rewrite list_lookup_insert_ne in Hy by done. by eapply Hnb.
    + unfold paidFor. rewrite Hen, (liveCount_insert _ _ _ x' Hx), Hal.
      destruct Hcase as [[-> ->]|[-> [-> | ->]]]; lia.
Qed.

Lemma paidFor_trans w1 w2 w3 : paidFor w1 w2 -> paidFor w2 w3 -> paidFor w1 w3.
Proof. unfold paidFor. lia. Qed.

Lemma enemyPass_paidFor bossStep currentTime now allTowers aliveTowers
    enemyList (w : EnemyPass.World) :
  noBosses (EnemyPass.enemies w) ->
  let w' :=
    EnemyPass.enemyPass bossStep currentTime now allTowers aliveTowers
      enemyList w in
  noBosses (EnemyPass.enemies w') /\ paidFor w w'.
Proof.
  revert w. induction enemyList as [|er rest IH]; intros w Hnb.
  - simpl. split; [done|]. unfold paidFor. lia.
  - unfold EnemyPass.enemyPass in *. cbn [fold_left].
    destruct (enemyTick_paidFor bossStep currentTime now allTowers
                aliveTowers w er Hnb) as [Hnb1 Hp1].
    destruct (IH _ Hnb1) as [Hnb2 Hp2].
    split; [done|]. by eapply paidFor_trans.
Qed.

(** X27.  The base pays by the enemy.  Over any run of enemy passes in
    a world without a boss, the base never regains hit points, the
    number of living enemies never grows, and the base loses at most 10
    hit points for each enemy that died in the run: an enemy that
    reaches the base dies as it costs its 10 points, so no enemy costs
    the base twice, and the base can lose no more than ten times the
    number of enemies alive at the start. *)
Theorem X27_base_pays_per_enemy bossStep (frames : list PassFrame)
    (w : EnemyPass.World) :
  noBosses (EnemyPass.enemies w) ->
  let w' := passes bossStep frames w in
  paidFor w w'
  /\ (EnemyPass.baseHP w - 10 * liveCount (EnemyPass.enemies w)
      <= EnemyPass.baseHP w')%Z
  /\ noBosses (EnemyPass.enemies w').
Proof.
  intros Hnb w'. subst w'.
  enough (H : noBosses (EnemyPass.enemies (passes bossStep frames w))
              /\ paidFor w (passes bossStep frames w)).
  { destruct H as [H1 H2]. split; [done|]. split; [|done].
    pose proof (liveCount_nonneg
                  (EnemyPass.enemies (passes bossStep frames w))).
    unfold paidFor in H2. lia. }
  revert w Hnb. induction frames as [|f frames IH]; intros w Hnb.
  - simpl. split; [done|]. unfold paidFor. lia.
  - unfold passes in *. cbn [fold_left].
    destruct (enemyPass_paidFor bossStep f.1.1.1.1 f.1.1.1.2 f.1.1.2 f.1.2
                f.2 w Hnb) as [Hnb1 Hp1].
    destruct (IH _ Hnb1) as [Hnb2 Hp2].
    split; [done|]. by eapply paidFor_trans.
Qed.

Lemma siege_noBosses : noBosses (EnemyPass.enemies siege).
Proof.
  intros [|[|i]] x Hx; simpl in Hx; try done; by injection Hx as <-.
Qed.

Lemma X27_base_witness :
  let frame : PassFrame :=
    (16%float, 16%Z, [0; 1; 2; 3]%nat, [0; 1; 2; 3]%nat, [0; 1]%nat) in
  let w' := passes idleBoss [frame; frame; frame] siege in
  noBosses (EnemyPass.enemies siege)
  /\ EnemyPass.baseHP siege = 100%Z
  /\ liveCount (EnemyPass.enemies siege) = 2%Z
  /\ EnemyPass.baseHP w' = 90%Z
  /\ liveCount (EnemyPass.enemies w') = 0%Z
  /\ paidFor siege w'.
Proof.
  intros frame w'.
  split; [exact siege_noBosses|]. split; [reflexivity|].
  split; [reflexivity|]. split; [reflexivity|]. split; [reflexivity|].
  exact (proj1 (X27_base_pays_per_enemy idleBoss [frame; frame; frame] siege
                  siege_noBosses)).
Defined.

(** X28.  A breaker blows itself up on its target.  In the enemy pass, a
    living breaker that touches the standing tower it is locked on does
    not move: it dies with health zero, the tower takes the breaker's
    attack damage (down to zero hit points at most), and the base is not
    touched, and no other enemy is changed. *)
Theorem X28_breaker_strikes_on_contact bossStep currentTime now allTowers
    aliveTowers (w : EnemyPass.World) er x tr tower :
  EnemyPass.enemies w !! er = Some x ->
  Enemy.isAlive (Mover.body x) = true ->
  Enemy.enemyType (Mover.body x) = breaker ->
  Mover.targetTower x = Some tr ->
  EnemyPass.towers w !! tr = Some tower ->
  Tower.isAlive tower = true ->
  PrimFloat.ltb
    (distance (Tower.position tower) (Enemy.position (Mover.body x)))
    (Enemy.size (Mover.body x) / 2 + Tower.size tower / 2)%float = true ->
  let w' :=
    EnemyPass.enemyTick bossStep currentTime now allTowers aliveTowers w er in
  EnemyPass.baseHP w' = EnemyPass.baseHP w
  /\ (exists x',
        EnemyPass.enemies w' !! er = Some x'
        /\ Enemy.isAlive (Mover.body x') = false
        /\ Enemy.health (Mover.body x') = 0%Z
        /\ Enemy.position (Mover.body x') = Enemy.position (Mover.body x))
  /\ Tower.hp <$> EnemyPass.towers w' !! tr
     = Some (healthAfter (Enemy.attackDamage (Mover.body x)) (Tower.hp tower))
  /\ (forall i, i <> er ->
        EnemyPass.enemies w' !! i = EnemyPass.enemies w !! i).
Proof.
  intros Hx Hal Hb Ht Htr Htal Htouch w'. subst w'.
  unfold EnemyPass.enemyTick. rewrite Hx, Hal. simpl.
  assert (Hboss : Enemy.isBoss (Mover.body x) = false).
  { unfold Enemy.isBoss, Enemy.typeConfig. by rewrite Hb. }
  rewrite Hboss, Hx. unfold tag_eqb.
  rewrite bool_decide_eq_true_2 by done.
  unfold EnemyPass.liveTarget. rewrite Ht, Htr, Htal, Htouch.
  destruct (strike_effect currentTime allTowers er x tr tower w Hb)
    as (S1 & S2 & S3).
  split; [done|]. split; [|split].
  - rewrite S1. eexists. split.
    + apply list_lookup_insert_eq. by eapply lookup_lt_Some.
    + done.
  - rewrite S3. cbv zeta.
    assert (Hhp : Tower.hp
                    (Tower.takeDamage (Enemy.attackDamage (Mover.body x))
                       tower).1
                  = healthAfter (Enemy.attackDamage (Mover.body x))
                      (Tower.hp tower)).
    { unfold Tower.takeDamage, healthAfter. rewrite Htal. simpl.
      by destruct (_ <=? 0)%Z. }
    destruct (Tower.takeDamage _ tower).2.
    + rewrite (handleTowerDestruction_frame Tower.hp) by done.
      rewrite list_lookup_insert_eq by (by eapply lookup_lt_Some).
      simpl. by rewrite Hhp.
    + rewrite list_lookup_insert_eq by (by eapply lookup_lt_Some).
      simpl. by rewrite Hhp.
  - intros i Hne. rewrite S1. by rewrite list_lookup_insert_ne.
Qed.

Lemma X28_breaker_witness :
  let w' :=
    EnemyPass.enemyTick idleBoss 16 16 [0; 1; 2; 3]%nat [0; 1; 2; 3]%nat
      siege 0 in
  (EnemyPass.enemies siege !! 0%nat = Some lockedSapper
   /\ Enemy.isAlive (Mover.body lockedSapper) = true
   /\ Enemy.enemyType (Mover.body lockedSapper) = breaker
   /\ Mover.targetTower lockedSapper = Some 2%nat
   /\ Tower.isAlive <$> EnemyPass.towers siege !! 2%nat = Some true)
  /\ Enemy.attackDamage (Mover.body lockedSapper) = 80%Z
  /\ Tower.hp <$> EnemyPass.towers siege !! 2%nat = Some 100%Z
  /\ Tower.hp <$> EnemyPass.towers w' !! 2%nat = Some 20%Z
  /\ EnemyPass.baseHP w' = 100%Z.
Proof.
  intros w'.
  split; [by repeat split|]. split; [reflexivity|]. split; [reflexivity|].
  destruct (EnemyPass.towers siege !! 2%nat) as [tower|] eqn:Htr;
    [|discriminate Htr].
  assert (Htower : tower = resynergise
                             (SynergySystem.createTowerMap_pure
                                [0; 1; 2; 3]%nat quartet)
                             (Tower.new 4 4 (mkPosition 180 180) lightning)).
  { by injection Htr as <-. }
  destruct (X28_breaker_strikes_on_contact idleBoss 16 16 [0; 1; 2; 3]%nat
              [0; 1; 2; 3]%nat siege 0 lockedSapper 2 tower
              eq_refl eq_refl eq_refl eq_refl Htr
              ltac:(by rewrite Htower) ltac:(by rewrite Htower))
    as (Hbase & _ & Hhp & _).
  fold w' in Hbase, Hhp.
  split; [|exact Hbase]. rewrite Hhp, Htower. reflexivity.
Defined.
